(** * Blueprint interpreter of the design-generation plugin (src/figma/code.ts)

    A shallow embedding of the plugin's core: the color codec [hexToRgb],
    the font cache [ensureFont], the node renderers [createTextNode] and
    [createBlockNode], the tree walker [placeNodes], the blueprint renderer
    [renderBlueprint], the response extractor [extractJson], the prompt
    builder [buildPrompt] and the generation flow [callGemini] /
    [generateDesign].

    Conventions.
    - A JavaScript string is a [string]: a sequence of code units, here the
      units U+0000..U+00FF.  Message texts outside that range are kept as
      their UTF-8 bytes; they are only ever compared for equality.
    - Numbers of the blueprint (coordinates, sizes) are rationals [Q];
      an optional field is an [option], [None] standing for a missing
      (undefined or null) property.
    - The host editor's document is a store of scene objects addressed by
      the order of their creation; every host call is logged, and the host
      may reject a call (throw) as decided by an oracle. *)

From Stdlib Require Import ZArith QArith String Ascii List Lia DecimalString.
From stdpp Require Import base option list gmap strings.

Local Open Scope string_scope.
Local Open Scope list_scope.
Local Open Scope Z_scope.

(** ** JavaScript string primitives *)

Module JsString.

(** [i]-th code unit onwards. *)
Fixpoint drop (n : nat) (s : string) : string :=
  match n, s with
  | O, _ => s
  | S n', String _ s' => drop n' s'
  | S _, EmptyString => EmptyString
  end.

Fixpoint take (n : nat) (s : string) : string :=
  match n, s with
  | S n', String c s' => String c (take n' s')
  | _, _ => EmptyString
  end.

(** [s.startsWith(p)] *)
Fixpoint startsWith (p s : string) : bool :=
  match p, s with
  | EmptyString, _ => true
  | String a p', String b s' => Ascii.eqb a b && startsWith p' s'
  | String _ _, EmptyString => false
  end.

(** [s.indexOf(p)]: the least position where [p] occurs, [None] for -1. *)
Fixpoint indexOf (p s : string) : option nat :=
  if startsWith p s then Some O
  else match s with
       | EmptyString => None
       | String _ s' => S <$> indexOf p s'
       end.

(** [s.lastIndexOf(p)]: the greatest position where [p] occurs. *)
Fixpoint lastIndexOf (p s : string) : option nat :=
  match s with
  | EmptyString => if startsWith p s then Some O else None
  | String _ s' =>
      match lastIndexOf p s' with
      | Some i => Some (S i)
      | None => if startsWith p s then Some O else None
      end
  end.

(** [s.slice(a, b)] for [0 <= a], [0 <= b]. *)
Definition slice (a b : nat) (s : string) : string :=
  take (b - a) (drop a s).

(** [s.replace(p, r)] with a string pattern: only the first occurrence. *)
Definition replace (p r s : string) : string :=
  match indexOf p s with
  | Some i => take i s +:+ r +:+ drop (i + String.length p) s
  | None => s
  end.

(** [s.repeat(n)] *)
Fixpoint repeat (n : nat) (s : string) : string :=
  match n with
  | O => EmptyString
  | S n' => s +:+ repeat n' s
  end.

(** White space and line terminators among the code units below 256:
    TAB, LF, VT, FF, CR, SP and NBSP. *)
Definition isWhiteSpace (c : ascii) : bool :=
  let n := nat_of_ascii c in
  ((9 <=? n) && (n <=? 13))%nat || (n =? 32)%nat || (n =? 160)%nat.

Fixpoint trimStart (s : string) : string :=
  match s with
  | String c s' => if isWhiteSpace c then trimStart s' else s
  | EmptyString => EmptyString
  end.

Fixpoint trimEnd (s : string) : string :=
  match s with
  | EmptyString => EmptyString
  | String c s' =>
      match trimEnd s' with
      | EmptyString => if isWhiteSpace c then EmptyString else String c EmptyString
      | t => String c t
      end
  end.

(** [s.trim()] *)
Definition trim (s : string) : string := trimEnd (trimStart s).

(** Truthiness of a string: non-empty. *)
Definition truthy (s : string) : bool :=
  match s with EmptyString => false | _ => true end.

(** Truthiness of an optional string property. *)
Definition truthy_opt (o : option string) : bool :=
  match o with Some s => truthy s | None => false end.

(** [o || d] for an optional string property. *)
Definition or_else (o : option string) (d : string) : string :=
  match o with Some s => if truthy s then s else d | None => d end.

End JsString.

(** ** JavaScript number primitives used by the color codec *)

Module JsNumber.

Definition hexDigit (c : ascii) : option Z :=
  let n := Z.of_nat (nat_of_ascii c) in
  if (48 <=? n) && (n <=? 57) then Some (n - 48)
  else if (97 <=? n) && (n <=? 102) then Some (n - 87)
  else if (65 <=? n) && (n <=? 70) then Some (n - 55)
  else None.

(** Longest prefix of hexadecimal digits, accumulated most significant
    digit first; [None] when there is no digit at all. *)
Fixpoint hexPrefix (acc : option Z) (s : string) : option Z :=
  match s with
  | EmptyString => acc
  | String c s' =>
      match hexDigit c with
      | Some d => hexPrefix (Some (16 * default 0 acc + d)) s'
      | None => acc
      end
  end.

(** The nearest double of a non-negative integer, as an integer: values
    of more than 53 significant bits are rounded to 53, ties to even.
    (A value too large for a double becomes Infinity; its low 32 bits,
    all that the codec looks at, are zero either way.) *)
Definition round53 (v : Z) : Z :=
  let n := Z.log2 v + 1 in
  if n <=? 53 then v
  else
    let k := n - 53 in
    let q := Z.shiftr v k in
    let r := Z.land v (Z.ones k) in
    let h := Z.shiftl 1 (k - 1) in
    let q' := if (h <? r) || ((r =? h) && Z.odd q) then q + 1 else q in
    Z.shiftl q' k.

(** [parseInt(s, 16)]: leading white space, an optional sign, an optional
    [0x] or [0X], then the longest run of hexadecimal digits.  [None] is
    NaN. *)
Definition parseInt16 (s : string) : option Z :=
  let s1 := JsString.trimStart s in
  let '(sign, s2) :=
    match s1 with
    | String "-" r => (-1, r)
    | String "+" r => (1, r)
    | _ => (1, s1)
    end in
  let s3 :=
    if JsString.startsWith "0x" s2 || JsString.startsWith "0X" s2
    then JsString.drop 2 s2 else s2 in
  (fun m => sign * round53 m) <$> hexPrefix None s3.

(** ToInt32: NaN is 0, anything else wraps into [-2^31, 2^31). *)
Definition toInt32 (v : option Z) : Z :=
  match v with
  | None => 0
  | Some z => (z + 2 ^ 31) mod 2 ^ 32 - 2 ^ 31
  end.

(** [a >> n] and [a & m] on 32-bit integers. *)
Definition sar (a : Z) (n : Z) : Z := Z.shiftr a (Z.land n 31).
Definition band (a m : Z) : Z := Z.land a m.

End JsNumber.

(** ** Color codec *)

Record RGB := mkRGB { r : Q; g : Q; b : Q }.

(** [hexToRgb], lines 367-374. *)
Definition hexToRgb (hex : string) : RGB :=
  let normalized := JsString.trim (JsString.replace "#" EmptyString hex) in
  let bigint :=
    JsNumber.toInt32
      (JsNumber.parseInt16
         (if (String.length normalized =? 3)%nat
          then JsString.repeat 2 normalized else normalized)) in
  let r := JsNumber.band (JsNumber.sar bigint 16) 255 in
  let g := JsNumber.band (JsNumber.sar bigint 8) 255 in
  let b := JsNumber.band bigint 255 in
  {| r := (inject_Z r / 255)%Q; g := (inject_Z g / 255)%Q; b := (inject_Z b / 255)%Q |}.

(** ** Data model: the blueprint (lines 3-33)

    Every property is optional, as in the untyped JSON the remote service
    returns; the projections carry a prefix ([n_] for a node descriptor,
    [f_] for a frame descriptor) in front of the source's property name. *)

#[warnings="-register-all"]
Inductive BlueprintNode : Type := mkNode {
  n_type : option string;
  n_title : option string;
  n_content : option string;
  n_x : option Q;
  n_y : option Q;
  n_width : option Q;
  n_height : option Q;
  n_fontSize : option Q;
  n_fontWeight : option string;
  n_color : option string;
  n_fill : option string;
  n_stroke : option string;
  n_cornerRadius : option Q;
  n_spacing : option Q;
  n_nodes : option (list BlueprintNode) }.

Record BlueprintFrame := mkFrame {
  f_name : option string;
  f_description : option string;
  f_width : option Q;
  f_height : option Q;
  f_background : option string;
  f_nodes : option (list BlueprintNode) }.

Record GeminiBlueprint := mkBlueprint {
  frames : option (list BlueprintFrame) }.

Definition DEFAULT_FRAME_WIDTH : Q := 1440.
Definition DEFAULT_FRAME_HEIGHT : Q := 1024.
Definition DEFAULT_ACCENT : string := "#6de1d6".

(** [{ ...node, x, y }] *)
Definition spread_xy (node : BlueprintNode) (x y : Q) : BlueprintNode :=
  mkNode (n_type node) (n_title node) (n_content node) (Some x) (Some y)
    (n_width node) (n_height node) (n_fontSize node) (n_fontWeight node)
    (n_color node) (n_fill node) (n_stroke node) (n_cornerRadius node)
    (n_spacing node) (n_nodes node).

(** [a || d] on an optional number: the default replaces a missing value
    and zero. *)
Definition num_or (a : option Q) (d : Q) : Q :=
  match a with
  | Some q => if Qeq_bool q 0 then d else q
  | None => d
  end.

(** ** The host editor

    Scene objects are property bags with an ordered child list; an object is
    named by its position in the store, the order of creation. *)

Abbreviation NodeId := nat.

Record Paint := mkPaint {
  p_type : string;
  p_color : RGB;
  p_opacity : option Q }.

Inductive Value :=
| VNum (q : Q)
| VStr (s : string)
| VPaints (ps : list Paint)
| VFontName (family style : string).

Inductive NodeType := FRAME | TEXT.

Record SceneObj := mkObj {
  o_type : NodeType;
  o_props : gmap string Value;
  o_children : list NodeId }.

(** A value thrown: an [Error] object with its message, or anything else. *)
Inductive Thrown :=
| ErrorObj (message : string)
| NonError.

Inductive Res (A : Type) :=
| Ok (a : A)
| Throw (e : Thrown).
Arguments Ok {A} a.
Arguments Throw {A} e.

(** The request sent to the remote service (lines 186-205). *)
Record Request := mkRequest {
  req_method : string;
  req_headers : list (string * string);
  req_text : string;
  req_temperature : Q;
  req_topP : Q;
  req_maxOutputTokens : Z }.

(** The part of the response body the plugin reads (line 213). *)
Record Part := mkPart { part_text : option string }.
Record Content := mkContent { parts : option (list Part) }.
Record Candidate := mkCandidate { content : option Content }.
Record Payload := mkPayload { candidates : option (list Candidate) }.

Record Response := mkResponse {
  resp_ok : bool;
  resp_status : Z;
  resp_text : Res string;
  resp_json : Res (option Payload) }.

(** Calls into the host, as logged. *)
Inductive HostCall :=
| CreateFrame
| CreateText
| SetProp (id : NodeId) (prop : string) (v : Value)
| Resize (id : NodeId) (w h : Q)
| AppendChild (parent child : NodeId)
| LoadFontAsync (family style : string)
| Notify (text : string)
| SetSelection (ids : list NodeId)
| ScrollAndZoomIntoView (ids : list NodeId)
| GetAsync (key : string)
| Fetch (url : string) (init : Request).

(** Messages posted to the UI panel. *)
Inductive UIMessage :=
| Status (text tone state : string)
| GenerationComplete
| GenerationError (error : string).

(** What the plugin cannot decide: whether the host rejects a call (given
    the calls made so far), the viewport, the stored key, the remote
    service's answer and the JSON parser. *)
Record Host := mkHost {
  rejects : list HostCall -> HostCall -> option Thrown;
  viewport_center : Q * Q;
  storage : string -> option string;
  remote : string -> Request -> Response;
  JSON_parse : string -> Res (option GeminiBlueprint) }.

(** The plugin's state and its effects on the host.  [calls] is the log of
    host calls, newest first; [ui] the messages posted, newest first. *)
Record World := mkWorld {
  scene : list SceneObj;
  loadedFonts : gset string;
  calls : list HostCall;
  ui : list UIMessage }.

Definition M (A : Type) : Type := World -> Res A * World.

Definition ret {A} (a : A) : M A := fun w => (Ok a, w).

Definition bind {A B} (c : M A) (k : A -> M B) : M B :=
  fun w =>
    match c w with
    | (Ok a, w') => k a w'
    | (Throw e, w') => (Throw e, w')
    end.

Definition throw {A} (e : Thrown) : M A := fun w => (Throw e, w).

(** [try { body } catch (error) { handler }] *)
Definition tryCatch {A} (body : M A) (handler : Thrown -> M A) : M A :=
  fun w =>
    match body w with
    | (Ok a, w') => (Ok a, w')
    | (Throw e, w') => handler e w'
    end.

Declare Scope m_scope.
Delimit Scope m_scope with M.
Notation "x <- c ;; k" := (bind c (fun x => k))
  (at level 100, c at next level, k at level 200, right associativity) : m_scope.
Notation "c ;; k" := (bind c (fun _ => k))
  (at level 100, k at level 200, right associativity) : m_scope.
Local Open Scope m_scope.

Definition LF : string := String (ascii_of_nat 10) EmptyString.

(** ** JavaScript values of a loosely typed message field

    [frameCount] comes from the UI panel and may be anything; a number is
    an integer or NaN here. *)

Inductive JsVal :=
| JUndefined
| JNull
| JBool (b : bool)
| JNaN
| JNum (z : Z)
| JStr (s : string).

Module JsVal.

Definition truthy (v : JsVal) : bool :=
  match v with
  | JUndefined | JNull | JNaN => false
  | JBool b => b
  | JNum z => negb (z =? 0)
  | JStr s => JsString.truthy s
  end.

(** Decimal text of an integer. *)
Definition showZ (z : Z) : string := NilZero.string_of_int (Z.to_int z).

(** The text a template literal interpolates. *)
Definition toString (v : JsVal) : string :=
  match v with
  | JUndefined => "undefined"
  | JNull => "null"
  | JBool true => "true"
  | JBool false => "false"
  | JNaN => "NaN"
  | JNum z => showZ z
  | JStr s => s
  end.

(** [a || d] *)
Definition or_else (a d : JsVal) : JsVal := if truthy a then a else d.

End JsVal.

(** ** Prompt builder (lines 135-183) *)

Definition dq : string := String (ascii_of_nat 34) EmptyString.

Definition unlines (ls : list string) : string :=
  match ls with
  | [] => EmptyString
  | l :: rest => fold_left (fun acc s => acc +:+ LF +:+ s) rest l
  end.

Definition schema (frameCount : string) : string :=
  unlines [
    EmptyString;
    "Return JSON with key " +:+ dq +:+ "frames" +:+ dq +:+ " (array length " +:+ frameCount +:+ ") using this shape:";
    "{";
    "  " +:+ dq +:+ "frames" +:+ dq +:+ ": [";
    "    {";
    "      " +:+ dq +:+ "name" +:+ dq +:+ ": " +:+ dq +:+ "Concise frame title" +:+ dq +:+ ",";
    "      " +:+ dq +:+ "description" +:+ dq +:+ ": " +:+ dq +:+ "Short goal of this artifact" +:+ dq +:+ ",";
    "      " +:+ dq +:+ "width" +:+ dq +:+ ": 1440,";
    "      " +:+ dq +:+ "height" +:+ dq +:+ ": 1024,";
    "      " +:+ dq +:+ "background" +:+ dq +:+ ": " +:+ dq +:+ "#0b0d11" +:+ dq +:+ ",";
    "      " +:+ dq +:+ "nodes" +:+ dq +:+ ": [";
    "        {";
    "          " +:+ dq +:+ "type" +:+ dq +:+ ": " +:+ dq +:+ "text" +:+ dq +:+ " | " +:+ dq +:+ "panel" +:+ dq +:+ " | " +:+ dq +:+ "card" +:+ dq +:+ " | " +:+ dq +:+ "list" +:+ dq +:+ " | " +:+ dq +:+ "callout" +:+ dq +:+ ",";
    "          " +:+ dq +:+ "title" +:+ dq +:+ ": " +:+ dq +:+ "Heading text" +:+ dq +:+ ",";
    "          " +:+ dq +:+ "content" +:+ dq +:+ ": " +:+ dq +:+ "Body copy or bullet list. Keep copy short." +:+ dq +:+ ",";
    "          " +:+ dq +:+ "x" +:+ dq +:+ ": 48,";
    "          " +:+ dq +:+ "y" +:+ dq +:+ ": 48,";
    "          " +:+ dq +:+ "width" +:+ dq +:+ ": 420,";
    "          " +:+ dq +:+ "height" +:+ dq +:+ ": 120,";
    "          " +:+ dq +:+ "fontSize" +:+ dq +:+ ": 15,";
    "          " +:+ dq +:+ "fontWeight" +:+ dq +:+ ": " +:+ dq +:+ "regular" +:+ dq +:+ " | " +:+ dq +:+ "medium" +:+ dq +:+ " | " +:+ dq +:+ "semi-bold" +:+ dq +:+ " | " +:+ dq +:+ "bold" +:+ dq +:+ ",";
    "          " +:+ dq +:+ "color" +:+ dq +:+ ": " +:+ dq +:+ "#e9edf5" +:+ dq +:+ ",";
    "          " +:+ dq +:+ "fill" +:+ dq +:+ ": " +:+ dq +:+ "#11141b" +:+ dq +:+ ",";
    "          " +:+ dq +:+ "cornerRadius" +:+ dq +:+ ": 16,";
    "          " +:+ dq +:+ "spacing" +:+ dq +:+ ": 12,";
    "          " +:+ dq +:+ "nodes" +:+ dq +:+ ": [] // optional nested items for structure";
    "        }";
    "      ]";
    "    }";
    "  ]";
    "}" ].

Definition modeSpec (mode : string) : option string :=
  if bool_decide (mode = "screen") then
    Some "Design application screens with hero section, navigation, cards, and CTAs. Keep spacing tight and copy concise."
  else if bool_decide (mode = "user-flow") then
    Some "Describe the journey as sequential swimlanes. Each card is a step with title, goal, and next action."
  else if bool_decide (mode = "personas") then
    Some "Provide 2-3 personas per frame with name, role, goals, pain points, tools. Use list nodes."
  else if bool_decide (mode = "architecture") then
    Some "Map subsystems and data flows. Use cards and callouts to describe responsibilities and integration touchpoints."
  else if bool_decide (mode = "storyboard") then
    Some "Lay out storyboard beats. Each card has scene title, what user sees, and emotion."
  else None.

Definition buildPrompt (userPrompt mode : string) (frameCount : JsVal) : string :=
  unlines [
    "You are a Figma design planner. Reply with ONLY JSON (no markdown, no prose) following the schema. Use a modern dark UI palette (#0b0d11 background, #11141b surfaces, accent " +:+ DEFAULT_ACCENT +:+ "). Keep copy succinct. Avoid emojis.";
    EmptyString;
    "User intent: " +:+ userPrompt;
    "Mode: " +:+ mode +:+ " (" +:+ default "undefined" (modeSpec mode) +:+ ")";
    "Frames requested: " +:+ JsVal.toString frameCount;
    EmptyString;
    schema (JsVal.toString frameCount) ].

(** ** Response extractor (lines 223-237) *)

Definition FENCE_OPEN : string := "```json".
Definition FENCE_CLOSE : string := "```".

(** Group 1 of [text.match(/```json([\s\S]*?)```/)]: the text between the
    first opening fence and the first closing fence after it. *)
Definition fenceMatch (text : string) : option string :=
  match JsString.indexOf FENCE_OPEN text with
  | Some p =>
      let rest := JsString.drop (p + String.length FENCE_OPEN) text in
      match JsString.indexOf FENCE_CLOSE rest with
      | Some q => Some (JsString.take q rest)
      | None => None
      end
  | None => None
  end.

(** Lines 229-236. *)
Definition braceSlice (text : string) : option string :=
  match JsString.indexOf "{" text with
  | Some braceIndex =>
      match JsString.lastIndexOf "}" text with
      | Some lastBrace =>
          if (braceIndex <? lastBrace)%nat
          then Some (JsString.slice braceIndex (lastBrace + 1) text)
          else None
      | None => None
      end
  | None => None
  end.

Definition extractJson (text : string) : option string :=
  if negb (JsString.truthy text) then None
  else if JsString.truthy_opt (fenceMatch text)
       then JsString.trim <$> fenceMatch text
       else braceSlice text.

(** ** Host primitives *)

Definition newObj (t : NodeType) : SceneObj :=
  {| o_type := t; o_props := ∅; o_children := [] |}.

Definition setObjProp (prop : string) (v : Value) (o : SceneObj) : SceneObj :=
  {| o_type := o_type o; o_props := <[prop := v]> (o_props o);
     o_children := o_children o |}.

Definition addChild (child : NodeId) (o : SceneObj) : SceneObj :=
  {| o_type := o_type o; o_props := o_props o;
     o_children := o_children o ++ [child] |}.

Definition updScene (f : list SceneObj -> list SceneObj) (w : World) : World :=
  {| scene := f (scene w); loadedFonts := loadedFonts w;
     calls := calls w; ui := ui w |}.

Definition logCall (c : HostCall) (w : World) : World :=
  {| scene := scene w; loadedFonts := loadedFonts w;
     calls := c :: calls w; ui := ui w |}.

Definition addFont (key : string) (w : World) : World :=
  {| scene := scene w; loadedFonts := {[key]} ∪ loadedFonts w;
     calls := calls w; ui := ui w |}.

Definition logUI (m : UIMessage) (w : World) : World :=
  {| scene := scene w; loadedFonts := loadedFonts w;
     calls := calls w; ui := m :: ui w |}.

Section Plugin.

Variable host : Host.

(** A call into the host: logged, then accepted or rejected. *)
Definition hostCall (c : HostCall) : M unit :=
  fun w =>
    match rejects host (calls w) c with
    | Some e => (Throw e, logCall c w)
    | None => (Ok tt, logCall c w)
    end.

Definition modifyScene (f : list SceneObj -> list SceneObj) : M unit :=
  fun w => (Ok tt, updScene f w).

(** A new object gets the next free position of the store. *)
Definition allocNode (t : NodeType) : M NodeId :=
  fun w => (Ok (length (scene w)), updScene (fun s => s ++ [newObj t]) w).

(** [figma.createFrame()], [figma.createText()] *)
Definition createFrame : M NodeId := hostCall CreateFrame ;; allocNode FRAME.
Definition createText : M NodeId := hostCall CreateText ;; allocNode TEXT.

(** [node.prop = v] *)
Definition setProp (id : NodeId) (prop : string) (v : Value) : M unit :=
  hostCall (SetProp id prop v) ;;
  modifyScene (alter (setObjProp prop v) id).

(** [node.resize(w, h)] *)
Definition resize (id : NodeId) (w h : Q) : M unit :=
  hostCall (Resize id w h) ;;
  modifyScene (alter (fun o => setObjProp "height" (VNum h)
                                 (setObjProp "width" (VNum w) o)) id).

(** [parent.appendChild(child)] *)
Definition appendChild (parent child : NodeId) : M unit :=
  hostCall (AppendChild parent child) ;;
  modifyScene (alter (addChild child) parent).

(** [figma.loadFontAsync({ family, style })] *)
Definition loadFontAsync (family style : string) : M unit :=
  hostCall (LoadFontAsync family style).

(** [figma.ui.postMessage(m)] *)
Definition postMessage (m : UIMessage) : M unit :=
  fun w => (Ok tt, logUI m w).

Definition solid (hex : string) : Paint :=
  {| p_type := "SOLID"; p_color := hexToRgb hex; p_opacity := None |}.

(** ** Font cache (lines 298-304) *)

Definition ensureFont (style : string) : M unit :=
  fun w =>
    let key := "Inter-" +:+ style in
    if bool_decide (key ∈ loadedFonts w) then (Ok tt, w)
    else (loadFontAsync "Inter" style ;;
          fun w' => (Ok tt, addFont key w')) w.

(** The style a weight token selects (lines 307 and 316). *)
Definition fontStyle (fontWeight : option string) : string :=
  if bool_decide (fontWeight = Some "bold") then "Bold"
  else if bool_decide (fontWeight = Some "semi-bold") then "Semi Bold"
  else "Medium".

(** ** Text node renderer (lines 306-320) *)

Definition createTextNode (parent : NodeId) (node : BlueprintNode) : M unit :=
  ensureFont (fontStyle (n_fontWeight node)) ;;
  text <- createText ;;
  setProp text "x" (VNum (default 32%Q (n_x node))) ;;
  setProp text "y" (VNum (default 32%Q (n_y node))) ;;
  resize text (default 520%Q (n_width node)) (default 120%Q (n_height node)) ;;
  setProp text "characters"
    (VStr ((if JsString.truthy_opt (n_title node)
            then default EmptyString (n_title node) +:+ LF
            else EmptyString)
           +:+ default EmptyString (n_content node))) ;;
  setProp text "fontSize" (VNum (default 16%Q (n_fontSize node))) ;;
  setProp text "fontName" (VFontName "Inter" (fontStyle (n_fontWeight node))) ;;
  setProp text "fills"
    (VPaints [solid (JsString.or_else (n_color node) "#e9edf5")]) ;;
  appendChild parent text.

(** ** Tree walker (lines 276-296)

    The walker and the block renderer call each other.  [block node x y
    parent] stands for [createBlockNode(parent, { ...node, x, y })]; the
    walker is written over it first and the knot is tied below. *)

Definition fallbackX (index depth : nat) : Q :=
  inject_Z (40 + Z.of_nat (index mod 2) * 340 + Z.of_nat depth * 16).

Definition fallbackY (index : nat) : Q :=
  inject_Z (120 + Z.of_nat (index / 2) * 220).

Section Walker.

Variable block : BlueprintNode -> Q -> Q -> NodeId -> M unit.

(** One turn of the loop body, lines 279-293: the [switch] has a case for
    the kind text, a shared case for the four container kinds and a
    default. *)
Definition placeNode (parent : NodeId) (node : BlueprintNode)
    (depth index : nat) : M unit :=
  let x := default (fallbackX index depth) (n_x node) in
  let y := default (fallbackY index) (n_y node) in
  if bool_decide (n_type node = Some "text")
  then createTextNode parent (spread_xy node x y)
  else if bool_decide (n_type node ∈ [Some "panel"; Some "card";
                                      Some "callout"; Some "list"])
  then block node x y parent
  else block node x y parent.

Fixpoint placeNodesFrom (parent : NodeId) (nodes : list BlueprintNode)
    (depth index : nat) : M unit :=
  match nodes with
  | [] => ret tt
  | node :: rest =>
      placeNode parent node depth index ;;
      placeNodesFrom parent rest depth (index + 1)
  end.

End Walker.

(** ** Block node renderer (lines 322-365)

    [createBlockNodeAt node x y parent] is the body of [createBlockNode]
    run on a descriptor whose properties are those of [node], except for
    a position that is present: [x] and [y] are the values of
    [node.x ?? 32] and [node.y ?? 32].  The recursion is on the nesting
    of the descriptor. *)

(** The heading and body a block synthesizes from its own title and
    content, lines 340-358. *)
Definition blockHeading (node : BlueprintNode) (container : NodeId) : M unit :=
  if JsString.truthy_opt (n_title node) || JsString.truthy_opt (n_content node)
  then
    ensureFont "Semi Bold" ;;
    title <- createText ;;
    setProp title "characters" (VStr (JsString.or_else (n_title node) EmptyString)) ;;
    setProp title "fontName" (VFontName "Inter" "Semi Bold") ;;
    setProp title "fontSize" (VNum 15) ;;
    setProp title "fills"
      (VPaints [solid (JsString.or_else (n_color node) "#e9edf5")]) ;;
    appendChild container title ;;
    (if JsString.truthy_opt (n_content node)
     then
       ensureFont "Medium" ;;
       body <- createText ;;
       setProp body "characters" (VStr (default EmptyString (n_content node))) ;;
       setProp body "fontName" (VFontName "Inter" "Medium") ;;
       setProp body "fontSize" (VNum 13) ;;
       setProp body "fills" (VPaints [solid "#b7c0d1"]) ;;
       appendChild container body
     else ret tt)
  else ret tt.

Fixpoint createBlockNodeAt (node : BlueprintNode) (x y : Q)
    (parent : NodeId) {struct node} : M unit :=
  container <- createFrame ;;
  let width := default 520%Q (n_width node) in
  let height := default 220%Q (n_height node) in
  resize container width height ;;
  setProp container "x" (VNum x) ;;
  setProp container "y" (VNum y) ;;
  setProp container "name" (VStr (JsString.or_else (n_title node) "Block")) ;;
  setProp container "cornerRadius" (VNum (default 14%Q (n_cornerRadius node))) ;;
  setProp container "layoutMode" (VStr "VERTICAL") ;;
  setProp container "paddingTop" (VNum 16) ;;
  setProp container "paddingRight" (VNum 16) ;;
  setProp container "paddingBottom" (VNum 16) ;;
  setProp container "paddingLeft" (VNum 16) ;;
  setProp container "itemSpacing" (VNum (default 12%Q (n_spacing node))) ;;
  setProp container "fills"
    (VPaints [{| p_type := "SOLID";
                 p_color := hexToRgb (JsString.or_else (n_fill node) "#11141b");
                 p_opacity := Some 1%Q |}]) ;;
  setProp container "strokes"
    (VPaints (if JsString.truthy_opt (n_stroke node)
              then [solid (default EmptyString (n_stroke node))]
              else [solid "#1f2633"])) ;;
  blockHeading node container ;;
  (match n_nodes node with
   | Some nodes =>
       if (0 <? length nodes)%nat
       then placeNodesFrom createBlockNodeAt container nodes
              (if (0 <? length nodes)%nat then 1 else 0) 0
       else ret tt
   | None => ret tt
   end) ;;
  appendChild parent container.

Definition createBlockNode (parent : NodeId) (node : BlueprintNode) : M unit :=
  createBlockNodeAt node (default 32%Q (n_x node)) (default 32%Q (n_y node))
    parent.

Definition placeNodes (parent : NodeId) (nodes : list BlueprintNode)
    (depth : nat) : M unit :=
  placeNodesFrom createBlockNodeAt parent nodes depth 0.

End Plugin.

(** ** Blueprint renderer, remote call and generation flow *)

Record Params := mkParams {
  prompt : string;
  mode : string;
  frameCount : JsVal;
  apiKeyOverride : option string }.

Definition MSG_NO_PROMPT : string := "Введите текстовое описание для генерации.".
Definition MSG_PREPARING : string := "Готовим запрос для Gemini 3 Pro...".
Definition MSG_NO_KEY : string := "Укажите Gemini API key перед генерацией.".
Definition MSG_EMPTY : string := "Gemini вернул пустой ответ. Попробуйте уточнить запрос.".
Definition MSG_DRAWING : string := "Рисуем фреймы в тёмной теме...".
Definition MSG_CALL_FAILED : string := "Не удалось вызвать Gemini API.".
Definition MSG_UNPARSED : string := "Не удалось разобрать ответ Gemini. Проверьте ключ и запрос.".

(** The message a [for ... of] over a missing [frames] raises; its wording
    belongs to the JavaScript engine. *)
Definition MSG_NOT_ITERABLE : string := "blueprint.frames is not iterable".

Definition API_URL (apiKey : string) : string :=
  "https://generativelanguage.googleapis.com/v1beta/models/gemini-3-pro-preview:generateContent?key="
  +:+ apiKey.

(** The second argument of [fetch], lines 187-204. *)
Definition requestInit (prompt : string) : Request :=
  {| req_method := "POST";
     req_headers := [("Content-Type", "application/json");
                     ("x-goog-api-client", "figma-plugin-gemini-designer")];
     req_text := prompt;
     req_temperature := (55 # 100)%Q;
     req_topP := (85 # 100)%Q;
     req_maxOutputTokens := 2048 |}.

(** Line 213: the parts of the first candidate, when every link of the
    optional chain is present; their texts are joined in order. *)
Definition firstParts (payload : option Payload) : option (list Part) :=
  match payload with
  | Some p =>
      match candidates p with
      | Some (c :: _) =>
          match content c with
          | Some ct => parts ct
          | None => None
          end
      | _ => None
      end
  | None => None
  end.

Definition combinedText (payload : option Payload) : string :=
  match firstParts payload with
  | Some ps =>
      fold_left (fun acc p => acc +:+ JsString.or_else (part_text p) EmptyString)
        ps EmptyString
  | None => EmptyString
  end.

(** [!blueprint?.frames?.length] *)
Definition noFrames (blueprint : option GeminiBlueprint) : bool :=
  match blueprint with
  | Some bp =>
      match frames bp with
      | Some fs => (length fs =? 0)%nat
      | None => true
      end
  | None => true
  end.

(** The text of the [generation-error] message made from a thrown value,
    line 126. *)
Definition errorText (e : Thrown) : string :=
  match e with
  | ErrorObj m => m
  | NonError => MSG_CALL_FAILED
  end.

Section Generation.

Variable host : Host.

Definition liftRes {A} (r : Res A) : M A := fun w => (r, w).

(** [notifyUI(text, tone = 'info', state = 'idle')], lines 131-133. *)
Definition notifyUI (text tone state : string) : M unit :=
  postMessage (Status text tone state).

(** The loop of [renderBlueprint], lines 243-270, with its two
    accumulators. *)
Fixpoint renderFrames (plans : list BlueprintFrame) (offsetX : Q)
    (created : list NodeId) : M (list NodeId) :=
  match plans with
  | [] => ret created
  | framePlan :: rest =>
      frame <- createFrame host ;;
      setProp host frame "name"
        (VStr (JsString.or_else (f_name framePlan) "Gemini Frame")) ;;
      let width := num_or (f_width framePlan) DEFAULT_FRAME_WIDTH in
      let height := num_or (f_height framePlan) DEFAULT_FRAME_HEIGHT in
      resize host frame width height ;;
      setProp host frame "x" (VNum offsetX) ;;
      setProp host frame "y" (VNum (snd (viewport_center host) - height / 2)%Q) ;;
      setProp host frame "fills"
        (VPaints [solid (JsString.or_else (f_background framePlan) "#0b0d11")]) ;;
      (if JsString.truthy_opt (f_description framePlan)
       then createTextNode host frame
              (mkNode (Some "text") (f_name framePlan) (f_description framePlan)
                 (Some 40%Q) (Some 32%Q) None None (Some 18%Q)
                 (Some "semi-bold") (Some "#e5e7eb") None None None None None)
       else ret tt) ;;
      placeNodes host frame (default [] (f_nodes framePlan)) 0 ;;
      renderFrames rest (offsetX + (width + 120))%Q (created ++ [frame])
  end.

(** [renderBlueprint], lines 239-274. *)
Definition renderBlueprint (blueprint : GeminiBlueprint) (mode : string)
    : M (list NodeId) :=
  match frames blueprint with
  | None => throw (ErrorObj MSG_NOT_ITERABLE)
  | Some plans =>
      created <- renderFrames plans (fst (viewport_center host) - 100)%Q [] ;;
      hostCall host
        (Notify ("Готово: " +:+ JsVal.showZ (Z.of_nat (length created)) +:+ " "
                 +:+ (if bool_decide (mode = "screen") then "экрана" else "артефактов")
                 +:+ " добавлено.")) ;;
      ret created
  end.

(** [callGemini], lines 185-221. *)
Definition callGemini (apiKey prompt : string) : M (option GeminiBlueprint) :=
  let url := API_URL apiKey in
  let init := requestInit prompt in
  hostCall host (Fetch url init) ;;
  let response := remote host url init in
  if negb (resp_ok response)
  then
    text <- liftRes (resp_text response) ;;
    throw (ErrorObj ("Gemini API error " +:+ JsVal.showZ (resp_status response)
                     +:+ ": " +:+ text))
  else
    payload <- liftRes (resp_json response) ;;
    let jsonText := extractJson (combinedText payload) in
    if negb (JsString.truthy_opt jsonText)
    then throw (ErrorObj MSG_UNPARSED)
    else liftRes (JSON_parse host (default EmptyString jsonText)).

(** The body of the [try] block, lines 111-124. *)
Definition generationFlow (apiKey : string) (params : Params) : M unit :=
  let prompt :=
    buildPrompt (prompt params) (mode params)
      (JsVal.or_else (frameCount params) (JNum 3)) in
  blueprint <- callGemini apiKey prompt ;;
  if noFrames blueprint then throw (ErrorObj MSG_EMPTY)
  else
    notifyUI MSG_DRAWING "info" "busy" ;;
    createdFrames <-
      match blueprint with
      | Some bp => renderBlueprint bp (mode params)
      | None => throw (ErrorObj MSG_NOT_ITERABLE)
      end ;;
    hostCall host (SetSelection createdFrames) ;;
    hostCall host (ScrollAndZoomIntoView createdFrames) ;;
    postMessage GenerationComplete.

(** The [catch] clause, lines 125-128. *)
Definition onError (error : Thrown) : M unit :=
  let message := errorText error in
  postMessage (GenerationError message).

(** [params.apiKeyOverride?.trim() || await figma.clientStorage.getAsync('geminiApiKey')] *)
Definition resolveApiKey (params : Params) : M (option string) :=
  let override := JsString.trim <$> apiKeyOverride params in
  if JsString.truthy_opt override then ret override
  else hostCall host (GetAsync "geminiApiKey") ;; ret (storage host "geminiApiKey").

(** [generateDesign], lines 96-129. *)
Definition generateDesign (params : Params) : M unit :=
  if negb (JsString.truthy (prompt params))
  then notifyUI MSG_NO_PROMPT "error" "idle"
  else
    notifyUI MSG_PREPARING "info" "busy" ;;
    apiKey <- resolveApiKey params ;;
    if negb (JsString.truthy_opt apiKey)
    then notifyUI MSG_NO_KEY "error" "idle"
    else tryCatch (generationFlow (default EmptyString apiKey) params) onError.

End Generation.

(** ** Vocabulary of the specification *)

(** A host that rejects no call. *)
Definition accepting (host : Host) : Prop :=
  ∀ h c, rejects host h c = None.

(** Total correctness of a computation from a world: it returns, and the
    result and the final world satisfy [Q]. *)
Definition wp {A} (c : M A) (w : World) (Q : A → World → Prop) : Prop :=
  ∃ a w', c w = (Ok a, w') ∧ Q a w'.

Definition addChildren (ids : list NodeId) (o : SceneObj) : SceneObj :=
  {| o_type := o_type o; o_props := o_props o;
     o_children := o_children o ++ ids |}.

(** The store [s'] is [s] with new objects at the end and [ids] appended to
    the children of [p]; nothing else has changed. *)
Definition appended (p : NodeId) (ids : list NodeId) (s s' : list SceneObj) : Prop :=
  (length s ≤ length s')%nat ∧
  (∀ i, (i < length s)%nat → i ≠ p → s' !! i = s !! i) ∧
  s' !! p = addChildren ids <$> s !! p.

(** The position assigned to a scene object. *)
Definition position (s : list SceneObj) (id : NodeId) : option (Q * Q) :=
  match s !! id with
  | Some o =>
      match o_props o !! "x", o_props o !! "y" with
      | Some (VNum x), Some (VNum y) => Some (x, y)
      | _, _ => None
      end
  | None => None
  end.

Definition children (s : list SceneObj) (id : NodeId) : list NodeId :=
  match s !! id with
  | Some o => o_children o
  | None => []
  end.

Definition nodeType (s : list SceneObj) (id : NodeId) : option NodeType :=
  o_type <$> s !! id.

(** The scene objects below [id], in document order, looking [fuel] levels
    down. *)
Fixpoint descendants (fuel : nat) (s : list SceneObj) (id : NodeId) : list NodeId :=
  match fuel with
  | O => []
  | S fuel' => flat_map (fun c => c :: descendants fuel' s c) (children s id)
  end.

(** How many text objects a block synthesizes from its own title and
    content. *)
Definition headingCount (node : BlueprintNode) : nat :=
  if JsString.truthy_opt (n_title node) || JsString.truthy_opt (n_content node)
  then (if JsString.truthy_opt (n_content node) then 2 else 1)
  else 0.

Definition childNodes (node : BlueprintNode) : list BlueprintNode :=
  default [] (n_nodes node).

(** A text object of the store at a given position. *)
Definition textAt (s : list SceneObj) (id : NodeId) (x y : Q) : Prop :=
  ∃ o, s !! id = Some o ∧ o_type o = TEXT ∧
       o_props o !! "x" = Some (VNum x) ∧ o_props o !! "y" = Some (VNum y) ∧
       o_children o = [].

(** A leaf text object of the store. *)
Definition textLeaf (s : list SceneObj) (lo : nat) (id : NodeId) : Prop :=
  (lo ≤ id)%nat ∧ ∃ o, s !! id = Some o ∧ o_type o = TEXT ∧ o_children o = [].

(** [Rendered s lo id node x y]: the object [id] of the store [s] is the
    rendering of the descriptor [node] placed at [(x, y)], all of it in
    objects numbered from [lo] on.  [RenderedList] is the same for a sibling
    list walked at nesting depth [depth] from sibling index [index]. *)
Inductive Rendered (s : list SceneObj) (lo : nat)
    : NodeId → BlueprintNode → Q → Q → Prop :=
| Rendered_text id node x y o :
    n_type node = Some "text" →
    (lo ≤ id)%nat →
    s !! id = Some o →
    o_type o = TEXT →
    o_props o !! "x" = Some (VNum x) →
    o_props o !! "y" = Some (VNum y) →
    o_children o = [] →
    Rendered s lo id node x y
| Rendered_block id node x y o hs ids :
    n_type node ≠ Some "text" →
    (lo ≤ id)%nat →
    s !! id = Some o →
    o_type o = FRAME →
    o_props o !! "x" = Some (VNum x) →
    o_props o !! "y" = Some (VNum y) →
    o_children o = hs ++ ids →
    length hs = headingCount node →
    Forall (textLeaf s lo) hs →
    RenderedList s lo ids (childNodes node) 1 0 →
    Rendered s lo id node x y
with RenderedList (s : list SceneObj) (lo : nat)
    : list NodeId → list BlueprintNode → nat → nat → Prop :=
| RenderedList_nil depth index :
    RenderedList s lo [] [] depth index
| RenderedList_cons id ids node nodes depth index :
    Rendered s lo id node
      (default (fallbackX index depth) (n_x node))
      (default (fallbackY index) (n_y node)) →
    RenderedList s lo ids nodes depth (index + 1) →
    RenderedList s lo (id :: ids) (node :: nodes) depth index.

Scheme Rendered_mut := Minimality for Rendered Sort Prop
  with RenderedList_mut := Minimality for RenderedList Sort Prop.

(** What the block renderer achieves on a descriptor that is not a text:
    from any world, it returns, the new container is the one child added
    to the parent, and the container renders the descriptor. *)
Definition rendersBlock (host : Host) (node : BlueprintNode) : Prop :=
  n_type node ≠ Some "text" →
  ∀ x y parent w,
    (parent < length (scene w))%nat →
    wp (createBlockNodeAt host node x y parent) w
      (fun _ w' =>
         appended parent [length (scene w)] (scene w) (scene w') ∧
         Rendered (scene w') (length (scene w)) (length (scene w)) node x y).

(** The [generation-error] messages among the messages posted. *)
Definition isError (m : UIMessage) : bool :=
  match m with GenerationError _ => true | _ => false end.


(** A computation keeps a relation between the world it starts from and the
    world it ends in, whether it returns or throws. *)
Definition preserves {A} (R : World → World → Prop) (c : M A) : Prop :=
  ∀ w, R w (snd (c w)).

(** The log of host calls only grows. *)
Definition callsGrow (w w' : World) : Prop :=
  ∃ new, calls w' = new ++ calls w.


(** [p] occurs in [s] at position [i]. *)
Definition occursAt (p s : string) (i : nat) : Prop :=
  ∃ pre post, s = pre +:+ p +:+ post ∧ String.length pre = i.

Definition firstAt (p s : string) (i : nat) : Prop :=
  occursAt p s i ∧ ∀ j, (j < i)%nat → ¬ occursAt p s j.

Definition lastAt (p s : string) (i : nat) : Prop :=
  occursAt p s i ∧ ∀ j, (i < j)%nat → ¬ occursAt p s j.

(** The interior of the fenced block of a text: what lies between the first
    opening fence and the first closing fence after it. *)
Definition fencedInterior (text body : string) : Prop :=
  ∃ p q,
    firstAt FENCE_OPEN text p ∧
    firstAt FENCE_CLOSE (JsString.drop (p + String.length FENCE_OPEN) text) q ∧
    body = JsString.slice (p + String.length FENCE_OPEN)
             (p + String.length FENCE_OPEN + q) text.

(** The extraction policy: a fenced block with a non-empty interior gives
    its trimmed interior; failing that, the text from the first opening
    brace to the last closing brace, when the first precedes the last;
    failing that, nothing. *)
Inductive Extraction (text : string) : option string → Prop :=
| Extraction_fence body :
    fencedInterior text body →
    body ≠ EmptyString →
    Extraction text (Some (JsString.trim body))
| Extraction_braces i j :
    (∀ body, fencedInterior text body → body = EmptyString) →
    firstAt "{" text i →
    lastAt "}" text j →
    (i < j)%nat →
    Extraction text (Some (JsString.slice i (j + 1) text))
| Extraction_none :
    (∀ body, fencedInterior text body → body = EmptyString) →
    (∀ i j, firstAt "{" text i → lastAt "}" text j → ¬ (i < j)%nat) →
    Extraction text None.

(** The positions the walker computes for a sibling list, lines 279-280. *)
Fixpoint placements (nodes : list BlueprintNode) (depth index : nat) : list (Q * Q) :=
  match nodes with
  | [] => []
  | node :: rest =>
      (default (fallbackX index depth) (n_x node),
       default (fallbackY index) (n_y node))
      :: placements rest depth (index + 1)
  end.

(** The same descriptor under another kind. *)
Definition withType (kind : option string) (node : BlueprintNode) : BlueprintNode :=
  mkNode kind (n_title node) (n_content node) (n_x node) (n_y node)
    (n_width node) (n_height node) (n_fontSize node) (n_fontWeight node)
    (n_color node) (n_fill node) (n_stroke node) (n_cornerRadius node)
    (n_spacing node) (n_nodes node).

(** A series of font-ensuring calls, one per weight token, each made the
    way the text renderer makes it (line 307). *)
Fixpoint ensureFonts (host : Host) (weights : list (option string)) : M unit :=
  match weights with
  | [] => ret tt
  | fontWeight :: rest =>
      ensureFont host (fontStyle fontWeight) ;; ensureFonts host rest
  end.

(** A descriptor with nothing but a kind and, possibly, children. *)
Definition bare (kind : string) (nodes : option (list BlueprintNode)) : BlueprintNode :=
  mkNode (Some kind) None None None None None None None None None None None
    None None nodes.

(** A document holding one empty frame. *)
Definition oneFrameWorld : World :=
  {| scene := [newObj FRAME]; loadedFonts := ∅; calls := []; ui := [] |}.

(** A host that accepts every call, answers every request with an empty
    successful response and parses nothing. *)
Definition quietHost : Host :=
  {| rejects := fun _ _ => None;
     viewport_center := (0%Q, 0%Q);
     storage := fun _ => None;
     remote := fun _ _ =>
       {| resp_ok := true; resp_status := 200;
          resp_text := Ok EmptyString; resp_json := Ok None |};
     JSON_parse := fun _ => Throw (ErrorObj "Unexpected token") |}.

(** A host whose remote service answers every request with a blueprint
    that has no frames. *)
Definition emptyFramesHost : Host :=
  {| rejects := fun _ _ => None;
     viewport_center := (0%Q, 0%Q);
     storage := fun _ => None;
     remote := fun _ _ =>
       {| resp_ok := true; resp_status := 200;
          resp_text := Ok EmptyString;
          resp_json :=
            Ok (Some (mkPayload
                        (Some [mkCandidate
                                 (Some (mkContent
                                          (Some [mkPart (Some "{ }")])))]))) |};
     JSON_parse := fun _ => Ok (Some (mkBlueprint (Some []))) |}.

(** A request of the UI panel that brings its own key. *)
Definition demoParams (frameCount : JsVal) : Params :=
  {| prompt := "landing page"; mode := "screen"; frameCount := frameCount;
     apiKeyOverride := Some "key" |}.

(** The world at the start of a plugin session. *)
Definition initialWorld : World :=
  {| scene := []; loadedFonts := ∅; calls := []; ui := [] |}.

(** ** Vocabulary of the further properties *)

(** The string made of the given code units. *)
Fixpoint stringOf (cs : list ascii) : string :=
  match cs with
  | [] => EmptyString
  | c :: rest => String c (stringOf rest)
  end.

(** The color whose channels are the given bytes. *)
Definition rgbOfBytes (red green blue : Z) : RGB :=
  {| r := (inject_Z red / 255)%Q;
     g := (inject_Z green / 255)%Q;
     b := (inject_Z blue / 255)%Q |}.

(** The key of the font cache for a style, line 300. *)
Definition fontKey (style : string) : string := "Inter-" +:+ style.

(** The font cache only grows. *)
Definition cacheGrows (w w' : World) : Prop :=
  loadedFonts w ⊆ loadedFonts w'.

(** A host that has no font to offer and accepts every other call. *)
Definition noFontHost : Host :=
  {| rejects := fun _ c =>
       match c with
       | LoadFontAsync _ _ => Some (ErrorObj "The font could not be loaded")
       | _ => None
       end;
     viewport_center := (0%Q, 0%Q);
     storage := fun _ => None;
     remote := fun _ _ =>
       {| resp_ok := true; resp_status := 200;
          resp_text := Ok EmptyString; resp_json := Ok None |};
     JSON_parse := fun _ => Throw (ErrorObj "Unexpected token") |}.

(** How many scene objects the rendering of a descriptor takes: a text takes
    one; a block takes its container, its heading texts and the renderings
    of its children. *)
Fixpoint objectCount (node : BlueprintNode) : nat :=
  1 + headingCount node +
  match n_nodes node with
  | Some nodes =>
      (fix walk (l : list BlueprintNode) : nat :=
         match l with
         | [] => 0
         | child :: rest =>
             (if bool_decide (n_type child = Some "text") then 1
              else objectCount child) + walk rest
         end) nodes
  | None => 0
  end%nat.

Fixpoint placedCount (nodes : list BlueprintNode) : nat :=
  match nodes with
  | [] => 0
  | node :: rest =>
      (if bool_decide (n_type node = Some "text") then 1 else objectCount node)
      + placedCount rest
  end%nat.

(** A computation that returns from every world and adds [n] objects to the
    document. *)
Definition makes {A} (n : nat) (c : M A) : Prop :=
  ∀ w, wp c w (fun _ w' => length (scene w') = (length (scene w) + n)%nat).

(** The value of a property of a scene object. *)
Definition prop (s : list SceneObj) (id : NodeId) (name : string) : option Value :=
  match s !! id with
  | Some o => o_props o !! name
  | None => None
  end.

(** A text object with the given characters, font style, font size and
    fill color. *)
Definition isText (s : list SceneObj) (id : NodeId)
    (chars style : string) (size : Q) (fill : string) : Prop :=
  nodeType s id = Some TEXT ∧
  children s id = [] ∧
  prop s id "characters" = Some (VStr chars) ∧
  prop s id "fontName" = Some (VFontName "Inter" style) ∧
  prop s id "fontSize" = Some (VNum size) ∧
  prop s id "fills" = Some (VPaints [solid fill]).

(** The heading objects [hs] of a block, by what the descriptor holds: none
    without title and content; a title text alone without content; a title
    text, empty when there is no title, and a body text otherwise. *)
Definition headings (s : list SceneObj) (node : BlueprintNode)
    (hs : list NodeId) : Prop :=
  let color := JsString.or_else (n_color node) "#e9edf5" in
  match JsString.truthy_opt (n_title node), JsString.truthy_opt (n_content node) with
  | false, false => hs = []
  | true, false =>
      ∃ t, hs = [t] ∧
           isText s t (default EmptyString (n_title node)) "Semi Bold" 15 color
  | false, true =>
      ∃ t b, hs = [t; b] ∧
             isText s t EmptyString "Semi Bold" 15 color ∧
             isText s b (default EmptyString (n_content node)) "Medium" 13 "#b7c0d1"
  | true, true =>
      ∃ t b, hs = [t; b] ∧
             isText s t (default EmptyString (n_title node)) "Semi Bold" 15 color ∧
             isText s b (default EmptyString (n_content node)) "Medium" 13 "#b7c0d1"
  end.

(** The properties the block renderer gives a container, lines 323-338. *)
Definition containerOf (s : list SceneObj) (c : NodeId)
    (node : BlueprintNode) (x y : Q) : Prop :=
  nodeType s c = Some FRAME ∧
  prop s c "x" = Some (VNum x) ∧
  prop s c "y" = Some (VNum y) ∧
  prop s c "width" = Some (VNum (default 520%Q (n_width node))) ∧
  prop s c "height" = Some (VNum (default 220%Q (n_height node))) ∧
  prop s c "name" = Some (VStr (JsString.or_else (n_title node) "Block")) ∧
  prop s c "cornerRadius" = Some (VNum (default 14%Q (n_cornerRadius node))) ∧
  prop s c "layoutMode" = Some (VStr "VERTICAL") ∧
  prop s c "paddingTop" = Some (VNum 16) ∧
  prop s c "paddingRight" = Some (VNum 16) ∧
  prop s c "paddingBottom" = Some (VNum 16) ∧
  prop s c "paddingLeft" = Some (VNum 16) ∧
  prop s c "itemSpacing" = Some (VNum (default 12%Q (n_spacing node))) ∧
  prop s c "fills" =
    Some (VPaints [{| p_type := "SOLID";
                      p_color := hexToRgb (JsString.or_else (n_fill node) "#11141b");
                      p_opacity := Some 1%Q |}]) ∧
  prop s c "strokes" =
    Some (VPaints [solid (JsString.or_else (n_stroke node) "#1f2633")]).

(** The size a frame plan gets, lines 246-247: a missing or zero width or
    height gives the default. *)
Definition frameWidth (plan : BlueprintFrame) : Q :=
  num_or (f_width plan) DEFAULT_FRAME_WIDTH.

Definition frameHeight (plan : BlueprintFrame) : Q :=
  num_or (f_height plan) DEFAULT_FRAME_HEIGHT.

(** The horizontal offset after a row of frames that begins at [start]:
    each frame moves it on by its width and a gap of 120. *)
Fixpoint offsetAfter (plans : list BlueprintFrame) (start : Q) : Q :=
  match plans with
  | [] => start
  | plan :: rest => offsetAfter rest (start + (frameWidth plan + 120))%Q
  end.

(** The frame object of a plan, placed at the horizontal offset [x]. *)
Definition frameOf (host : Host) (s : list SceneObj) (f : NodeId)
    (plan : BlueprintFrame) (x : Q) : Prop :=
  nodeType s f = Some FRAME ∧
  prop s f "name" = Some (VStr (JsString.or_else (f_name plan) "Gemini Frame")) ∧
  prop s f "width" = Some (VNum (frameWidth plan)) ∧
  prop s f "height" = Some (VNum (frameHeight plan)) ∧
  position s f = Some (x, (snd (viewport_center host) - frameHeight plan / 2)%Q) ∧
  prop s f "fills" =
    Some (VPaints [solid (JsString.or_else (f_background plan) "#0b0d11")]).

(** The children of the frame of a plan: the heading text [hs] made from a
    description, if there is one, then the objects [ids] of the plan's
    descriptors, placed as top-level siblings. *)
Definition frameContents (s : list SceneObj) (f : NodeId)
    (plan : BlueprintFrame) (hs ids : list NodeId) : Prop :=
  children s f = hs ++ ids ∧
  (if JsString.truthy_opt (f_description plan)
   then ∃ t, hs = [t] ∧
             isText s t
               ((if JsString.truthy_opt (f_name plan)
                 then default EmptyString (f_name plan) +:+ LF
                 else EmptyString)
                +:+ default EmptyString (f_description plan))
               "Semi Bold" 18 "#e5e7eb" ∧
             position s t = Some (40, 32)%Q
   else hs = []) ∧
  map (position s) ids =
    map Some (placements (default [] (f_nodes plan)) 0 0).

(** The toast that ends a rendering, line 272. *)
Definition doneNotice (count : nat) (mode : string) : string :=
  "Готово: " +:+ JsVal.showZ (Z.of_nat count) +:+ " "
  +:+ (if bool_decide (mode = "screen") then "экрана" else "артефактов")
  +:+ " добавлено.".

(** A plan of two frames: a described frame of the default size holding a
    text and a card, and a narrow frame. *)
Definition demoPlans : list BlueprintFrame :=
  [mkFrame (Some "Home") (Some "Landing") None None None
     (Some [bare "text" None; bare "card" None]);
   mkFrame None None (Some 390%Q) (Some 0%Q) (Some "#ffffff") None].

(** A host that accepts every call and whose remote service answers every
    request with the two-frame plan. *)
Definition demoHost : Host :=
  {| rejects := fun _ _ => None;
     viewport_center := (500%Q, 400%Q);
     storage := fun _ => None;
     remote := fun _ _ =>
       {| resp_ok := true; resp_status := 200;
          resp_text := Ok EmptyString;
          resp_json :=
            Ok (Some (mkPayload
                        (Some [mkCandidate
                                 (Some (mkContent
                                          (Some [mkPart (Some "{ }")])))]))) |};
     JSON_parse := fun _ => Ok (Some (mkBlueprint (Some demoPlans))) |}.

(** A host whose remote service refuses every request. *)
Definition refusingHost : Host :=
  {| rejects := fun _ _ => None;
     viewport_center := (0%Q, 0%Q);
     storage := fun _ => None;
     remote := fun _ _ =>
       {| resp_ok := false; resp_status := 403;
          resp_text := Ok "API key not valid"; resp_json := Ok None |};
     JSON_parse := fun _ => Throw (ErrorObj "Unexpected token") |}.

(** A host whose client storage holds a key. *)
Definition storedKeyHost : Host :=
  {| rejects := fun _ _ => None;
     viewport_center := (0%Q, 0%Q);
     storage := fun key =>
       if bool_decide (key = "geminiApiKey") then Some "stored-key" else None;
     remote := fun _ _ =>
       {| resp_ok := true; resp_status := 200;
          resp_text := Ok EmptyString; resp_json := Ok None |};
     JSON_parse := fun _ => Throw (ErrorObj "Unexpected token") |}.

(** A request of the UI panel that brings no key. *)
Definition keylessParams : Params :=
  {| prompt := "landing page"; mode := "screen"; frameCount := JNum 1;
     apiKeyOverride := None |}.

(** The request a generation sends, lines 111-112 and 186-204. *)
Definition requestOf (apiKey : string) (params : Params) : HostCall :=
  Fetch (API_URL apiKey)
    (requestInit
       (buildPrompt (prompt params) (mode params)
          (JsVal.or_else (frameCount params) (JNum 3)))).

(** ** Key storage and message handler (lines 57-94)

    The handler of the panel's requests reads and writes the client storage
    and posts two messages the renderer does not know.  A session carries
    the world of the renderer, the client storage, and every message posted
    to the panel, newest first. *)

(** A request of the panel: [message.type] and the fields the handler
    reads. *)
Record PanelRequest := mkPanelRequest {
  m_type : option string;
  m_apiKey : option string;
  m_prompt : string;
  m_mode : string;
  m_frameCount : JsVal }.

Inductive PanelMessage :=
| Posted (m : UIMessage)
| ApiKeyLoaded (apiKey : string)
| ApiKeySaved.

Record Session := mkSession {
  world : World;
  store : gmap string string;
  panel : list PanelMessage }.

Definition Handler (A : Type) : Type := Session -> Res A * Session.

Definition finish {A} (a : A) : Handler A := fun s => (Ok a, s).

Definition andThen {A B} (c : Handler A) (k : A -> Handler B) : Handler B :=
  fun s =>
    match c s with
    | (Ok a, s') => k a s'
    | (Throw e, s') => (Throw e, s')
    end.

Declare Scope handler_scope.
Delimit Scope handler_scope with H.
Notation "x <- c ;; k" := (andThen c (fun x => k))
  (at level 100, c at next level, k at level 200, right associativity)
  : handler_scope.
Notation "c ;; k" := (andThen c (fun _ => k))
  (at level 100, k at level 200, right associativity) : handler_scope.

Definition MSG_KEY_CLEARED : string :=
  "API key cleared. Paste a Google AI Studio key to generate.".
Definition MSG_UNKNOWN : string := "Unknown message from UI".

(** The messages a run of the renderer has added to those of the world. *)
Definition newMessages (before after : list UIMessage) : list UIMessage :=
  take (length after - length before) after.

Section KeyStore.

Variable host : Host.

(** The rejection, if any, of a write to the client storage. *)
Variable writeRejected : string -> string -> option Thrown.

(** The host as a session sees it: a read of the client storage gives what
    the session has stored. *)
Definition hostOf (st : gmap string string) : Host :=
  {| rejects := rejects host;
     viewport_center := viewport_center host;
     storage := fun key => st !! key;
     remote := remote host;
     JSON_parse := JSON_parse host |}.

(** A computation of the renderer run inside a session: what it posts
    reaches the panel. *)
Definition inWorld {A} (c : M A) : Handler A :=
  fun s =>
    let '(r, w') := c (world s) in
    (r, {| world := w'; store := store s;
           panel := map Posted (newMessages (ui (world s)) (ui w')) ++ panel s |}).

(** [figma.clientStorage.getAsync(key)] *)
Definition getAsync (key : string) : Handler (option string) :=
  fun s =>
    inWorld (hostCall (hostOf (store s)) (GetAsync key) ;;
             ret (storage (hostOf (store s)) key)) s.

(** [figma.clientStorage.setAsync(key, value)] *)
Definition setAsync (key value : string) : Handler unit :=
  fun s =>
    match writeRejected key value with
    | Some e => (Throw e, s)
    | None =>
        (Ok tt, {| world := world s; store := <[key := value]> (store s);
                   panel := panel s |})
    end.

(** [figma.ui.postMessage] of a message about the key. *)
Definition answer (m : PanelMessage) : Handler unit :=
  fun s => (Ok tt, {| world := world s; store := store s;
                      panel := m :: panel s |}).

(** [loadApiKey], lines 80-83. *)
Definition loadApiKey : Handler unit :=
  (key <- getAsync "geminiApiKey" ;;
   answer (ApiKeyLoaded (default EmptyString key)))%H.

(** [saveApiKey], lines 85-94. *)
Definition saveApiKey (apiKey : option string) : Handler unit :=
  if negb (JsString.truthy_opt apiKey)
  then
    (inWorld (notifyUI MSG_KEY_CLEARED "info" "idle") ;;
     setAsync "geminiApiKey" EmptyString ;;
     answer ApiKeySaved)%H
  else
    (setAsync "geminiApiKey" (JsString.trim (default EmptyString apiKey)) ;;
     answer ApiKeySaved)%H.

(** The parameters the handler makes of a request, lines 67-72. *)
Definition paramsOf (message : PanelRequest) : Params :=
  {| prompt := m_prompt message; mode := m_mode message;
     frameCount := m_frameCount message; apiKeyOverride := m_apiKey message |}.

(** [figma.ui.onmessage], lines 57-78. *)
Definition onmessage (message : option PanelRequest) : Handler unit :=
  match message with
  | None => finish tt
  | Some message =>
      if negb (JsString.truthy_opt (m_type message)) then finish tt
      else if bool_decide (m_type message = Some "load-api-key")
      then loadApiKey
      else if bool_decide (m_type message = Some "save-api-key")
      then saveApiKey (m_apiKey message)
      else if bool_decide (m_type message = Some "generate-design")
      then fun s => inWorld (generateDesign (hostOf (store s)) (paramsOf message)) s
      else inWorld (notifyUI MSG_UNKNOWN "error" "idle")
  end.

End KeyStore.

(** A session at its start. *)
Definition initialSession : Session :=
  {| world := initialWorld; store := ∅; panel := [] |}.

(** A client storage that takes every write. *)
Definition writable : string -> string -> option Thrown := fun _ _ => None.

(** * Verification *)

Arguments hexToRgb : simpl never.

(** ** Rules of the total-correctness predicate *)

Lemma if_same {A} (c : bool) (x : A) : (if c then x else x) = x.
Proof. by destruct c. Qed.

Lemma wp_ret {A} (a : A) w (Q : A → World → Prop) : Q a w → wp (ret a) w Q.
Proof. intros HQ. exists a, w. split; [reflexivity | exact HQ]. Qed.

Lemma wp_bind {A B} (c : M A) (k : A → M B) w (Q : B → World → Prop) :
  wp c w (fun a w1 => wp (k a) w1 Q) → wp (bind c k) w Q.
Proof.
  intros (a & w1 & Hc & b & w2 & Hk & HQ).
  exists b, w2. split; [| exact HQ].
  unfold bind. rewrite Hc. exact Hk.
Qed.

Lemma wp_mono {A} (c : M A) w (Q Q' : A → World → Prop) :
  wp c w Q → (∀ a w', Q a w' → Q' a w') → wp c w Q'.
Proof. intros (a & w' & Hc & HQ) Himp. exists a, w'. eauto. Qed.

Lemma wp_run {A} (c : M A) w (Q : A → World → Prop) a w' :
  c w = (Ok a, w') → Q a w' → wp c w Q.
Proof. intros Hc HQ. exists a, w'. eauto. Qed.

(** ** The host primitives under an accepting host *)

Section AcceptingHost.

Variable host : Host.
Hypothesis Hacc : accepting host.

Lemma hostCall_accepted c w : hostCall host c w = (Ok tt, logCall c w).
Proof. unfold hostCall. rewrite Hacc. reflexivity. Qed.

Lemma wp_hostCall c w (Q : unit → World → Prop) :
  Q tt (logCall c w) → wp (hostCall host c) w Q.
Proof. apply wp_run, hostCall_accepted. Qed.

Lemma wp_createFrame w (Q : NodeId → World → Prop) :
  Q (length (scene w))
    (updScene (fun s => s ++ [newObj FRAME]) (logCall CreateFrame w)) →
  wp (createFrame host) w Q.
Proof.
  apply wp_run. unfold createFrame, bind. rewrite hostCall_accepted.
  reflexivity.
Qed.

Lemma wp_createText w (Q : NodeId → World → Prop) :
  Q (length (scene w))
    (updScene (fun s => s ++ [newObj TEXT]) (logCall CreateText w)) →
  wp (createText host) w Q.
Proof.
  apply wp_run. unfold createText, bind. rewrite hostCall_accepted.
  reflexivity.
Qed.

Lemma wp_setProp id prop v w (Q : unit → World → Prop) :
  Q tt (updScene (alter (setObjProp prop v) id) (logCall (SetProp id prop v) w)) →
  wp (setProp host id prop v) w Q.
Proof.
  apply wp_run. unfold setProp, bind. rewrite hostCall_accepted.
  reflexivity.
Qed.

Lemma wp_resize id a b w (Q : unit → World → Prop) :
  Q tt (updScene
          (alter (fun o => setObjProp "height" (VNum b)
                             (setObjProp "width" (VNum a) o)) id)
          (logCall (Resize id a b) w)) →
  wp (resize host id a b) w Q.
Proof.
  apply wp_run. unfold resize, bind. rewrite hostCall_accepted.
  reflexivity.
Qed.

Lemma wp_appendChild parent child w (Q : unit → World → Prop) :
  Q tt (updScene (alter (addChild child) parent)
          (logCall (AppendChild parent child) w)) →
  wp (appendChild host parent child) w Q.
Proof.
  apply wp_run. unfold appendChild, bind. rewrite hostCall_accepted.
  reflexivity.
Qed.

(** The font cache leaves the document alone. *)
Lemma wp_ensureFont style w (Q : unit → World → Prop) :
  (∀ w', scene w' = scene w → Q tt w') →
  wp (ensureFont host style) w Q.
Proof.
  intros HQ. unfold wp, ensureFont. cbv zeta.
  destruct (bool_decide (_ ∈ loadedFonts w)).
  - exists tt, w. split; [reflexivity | auto].
  - unfold loadFontAsync, bind. rewrite hostCall_accepted.
    eexists tt, _. split; [reflexivity |]. apply HQ. reflexivity.
Qed.

End AcceptingHost.

(** ** The store of scene objects *)

Lemma addChildren_app ids1 ids2 o :
  addChildren ids2 (addChildren ids1 o) = addChildren (ids1 ++ ids2) o.
Proof. unfold addChildren. cbn. f_equal. symmetry. apply (assoc_L (++)). Qed.

Lemma appended_trans p ids1 ids2 (s s1 s2 : list SceneObj) :
  (p < length s)%nat →
  appended p ids1 s s1 → appended p ids2 s1 s2 →
  appended p (ids1 ++ ids2) s s2.
Proof.
  intros Hp (Hl1 & Hold1 & Hp1) (Hl2 & Hold2 & Hp2).
  split; [| split].
  - lia.
  - intros i Hi Hne. rewrite Hold2 by lia. by apply Hold1.
  - rewrite Hp2, Hp1. destruct (s !! p) as [o |]; simpl; [| reflexivity].
    by rewrite addChildren_app.
Qed.

Lemma alter_at_end {A} (f : A → A) (s l : list A) (k : nat) :
  alter f (length s + k)%nat (s ++ l) = s ++ alter f k l.
Proof. apply alter_app_r. Qed.

Lemma alter_at_length {A} (f : A → A) (s l : list A) :
  alter f (length s) (s ++ l) = s ++ alter f 0%nat l.
Proof. rewrite <- (Nat.add_0_r (length s)) at 1. apply alter_app_r. Qed.

Lemma lookup_at_end {A} (s l : list A) (k : nat) :
  (s ++ l) !! (length s + k)%nat = l !! k.
Proof. rewrite lookup_app_r by lia. f_equal. lia. Qed.

Lemma lookup_at_length {A} (s l : list A) :
  (s ++ l) !! length s = l !! 0%nat.
Proof. rewrite <- (Nat.add_0_r (length s)) at 1. apply lookup_at_end. Qed.

(** Appending a new child to an old object, with new objects at the end. *)
Lemma appended_alter_app p c (s tail : list SceneObj) :
  (p < length s)%nat →
  appended p [c] s (alter (addChild c) p s ++ tail).
Proof.
  intros Hp. split; [| split].
  - rewrite length_app, length_alter. lia.
  - intros i Hi Hne.
    rewrite lookup_app_l by (rewrite length_alter; lia).
    by rewrite list_lookup_alter_ne.
  - rewrite lookup_app_l by (rewrite length_alter; lia).
    by rewrite list_lookup_alter_eq.
Qed.

Lemma alter_old_app {A} (f : A → A) (p : nat) (s tail : list A) :
  (p < length s)%nat →
  alter f p (s ++ tail) = alter f p s ++ tail.
Proof. intros Hp. by apply alter_app_l. Qed.

(** Reading a property of an object just built. *)
Ltac prop_lookup :=
  unfold setObjProp, newObj; cbn [o_props o_type o_children];
  repeat (rewrite lookup_insert_ne by discriminate);
  try rewrite lookup_insert_eq; try reflexivity.

(** ** Text node renderer *)

Section TextNode.

Variable host : Host.
Hypothesis Hacc : accepting host.

Lemma createTextNode_spec parent node w :
  (parent < length (scene w))%nat →
  wp (createTextNode host parent node) w
    (fun _ w' =>
       appended parent [length (scene w)] (scene w) (scene w') ∧
       textAt (scene w') (length (scene w))
         (default 32%Q (n_x node)) (default 32%Q (n_y node))).
Proof.
  intros Hp. unfold createTextNode.
  apply wp_bind, wp_ensureFont; [done |]. intros w1 H1.
  apply wp_bind, wp_createText; [done |].
  do 2 (apply wp_bind, wp_setProp; [done |]).
  apply wp_bind, wp_resize; [done |].
  do 4 (apply wp_bind, wp_setProp; [done |]).
  apply wp_appendChild; [done |].
  cbn [scene updScene logCall]. rewrite H1.
  rewrite !alter_at_length. cbn [alter list_alter].
  rewrite alter_old_app by done.
  split; [by apply appended_alter_app |].
  eexists. split; [apply list_lookup_middle; by rewrite length_alter |].
  repeat split; prop_lookup.
Qed.

End TextNode.

(** ** Transfer of renderings between stores *)

Lemma appended_nil p (s : list SceneObj) : appended p [] s s.
Proof.
  split; [lia |]. split; [auto |].
  destruct (s !! p) as [[t ps cs] |]; simpl; [| reflexivity].
  unfold addChildren. cbn. by rewrite app_nil_r.
Qed.

Lemma appended_length p ids (s s' : list SceneObj) :
  appended p ids s s' → (length s ≤ length s')%nat.
Proof. by intros (H & _). Qed.

Lemma appended_keeps p ids (s s' : list SceneObj) i o :
  appended p ids s s' → i ≠ p → s !! i = Some o → s' !! i = Some o.
Proof.
  intros (_ & Hold & _) Hne Hi. rewrite Hold; [done | | done].
  by eapply lookup_lt_Some.
Qed.

Lemma textLeaf_transfer (s s' : list SceneObj) lo lo' id :
  (lo' ≤ lo)%nat →
  (∀ i o, (lo ≤ i)%nat → s !! i = Some o → s' !! i = Some o) →
  textLeaf s lo id → textLeaf s' lo' id.
Proof.
  intros Hlo Hkeep (Hid & o & Ho & Hrest).
  split; [lia |]. exists o. split; [by apply Hkeep | done].
Qed.

Lemma Rendered_transfer (s s' : list SceneObj) lo lo' :
  (lo' ≤ lo)%nat →
  (∀ i o, (lo ≤ i)%nat → s !! i = Some o → s' !! i = Some o) →
  (∀ id node x y, Rendered s lo id node x y → Rendered s' lo' id node x y).
Proof.
  intros Hlo Hkeep.
  apply (Rendered_mut s lo
           (fun id node x y => Rendered s' lo' id node x y)
           (fun ids nodes depth index => RenderedList s' lo' ids nodes depth index)).
  - intros id node x y o Hty Hid Ho Ht Hx Hy Hc.
    eapply Rendered_text; eauto. lia.
  - intros id node x y o hs ids Hty Hid Ho Ht Hx Hy Hc Hn Hhs _ IH.
    eapply Rendered_block; eauto; [lia |].
    eapply Forall_impl; [exact Hhs |].
    intros h Hh. by eapply textLeaf_transfer.
  - constructor.
  - intros id ids node nodes depth index _ IH1 _ IH2. by constructor.
Qed.

Lemma RenderedList_transfer (s s' : list SceneObj) lo lo' :
  (lo' ≤ lo)%nat →
  (∀ i o, (lo ≤ i)%nat → s !! i = Some o → s' !! i = Some o) →
  (∀ ids nodes depth index,
     RenderedList s lo ids nodes depth index →
     RenderedList s' lo' ids nodes depth index).
Proof.
  intros Hlo Hkeep ids nodes depth index H.
  induction H; constructor; [| done].
  by eapply Rendered_transfer.
Qed.

(** ** Induction on the nesting of a descriptor *)

Lemma BlueprintNode_nested_ind (P : BlueprintNode → Prop) :
  (∀ node, Forall P (childNodes node) → P node) →
  ∀ node, P node.
Proof.
  intros Hstep. fix IH 1. intros node. apply Hstep.
  destruct node as [? ? ? ? ? ? ? ? ? ? ? ? ? ? nodes].
  unfold childNodes. cbn [n_nodes].
  destruct nodes as [l |]; [| constructor]. cbn [default].
  revert l. fix IHl 1. intros [| child l]; constructor.
  - apply IH.
  - apply IHl.
Qed.

(** ** Block node renderer and tree walker *)

Section BlockNode.

Variable host : Host.
Hypothesis Hacc : accepting host.

Lemma blockHeading_spec node c w :
  (c < length (scene w))%nat →
  wp (blockHeading host node c) w
    (fun _ w' =>
       ∃ hs, appended c hs (scene w) (scene w') ∧
             length hs = headingCount node ∧
             Forall (textLeaf (scene w') (length (scene w))) hs).
Proof.
  intros Hc. unfold blockHeading, headingCount.
  destruct (JsString.truthy_opt (n_title node) || JsString.truthy_opt (n_content node));
    [| apply wp_ret; exists []; split; [apply appended_nil | by split]].
  apply wp_bind, wp_ensureFont; [done |]. intros w1 H1.
  apply wp_bind, wp_createText; [done |].
  do 4 (apply wp_bind, wp_setProp; [done |]).
  apply wp_bind, wp_appendChild; [done |].
  match goal with |- wp _ ?W _ => set (W1 := W) end.
  assert (HW1 : ∃ o, scene W1 = alter (addChild (length (scene w))) c (scene w) ++ [o]
                     ∧ o_type o = TEXT ∧ o_children o = []).
  { subst W1. cbn [scene updScene logCall]. rewrite H1.
    rewrite !alter_at_length. cbn [alter list_alter].
    rewrite alter_old_app by done. eexists. split; [reflexivity |].
    by split. }
  clearbody W1. destruct HW1 as (to & HW1 & Hto_type & Hto_children).
  assert (Happ1 : appended c [length (scene w)] (scene w) (scene W1))
    by (rewrite HW1; by apply appended_alter_app).
  assert (Ht : scene W1 !! length (scene w) = Some to)
    by (rewrite HW1; apply list_lookup_middle; by rewrite length_alter).
  destruct (JsString.truthy_opt (n_content node)).
  - apply wp_bind, wp_ensureFont; [done |]. intros w2 H2.
    assert (Hc2 : (c < length (scene w2))%nat)
      by (rewrite H2; apply appended_length in Happ1; lia).
    apply wp_bind, wp_createText; [done |].
    do 4 (apply wp_bind, wp_setProp; [done |]).
    apply wp_appendChild; [done |].
    cbn [scene updScene logCall].
    rewrite !alter_at_length. cbn [alter list_alter].
    rewrite alter_old_app by done.
    assert (Happ2 : appended c [length (scene w2)] (scene W1)
                      (alter (addChild (length (scene w2))) c (scene w2) ++
                       [setObjProp "fills" (VPaints [solid "#b7c0d1"])
                          (setObjProp "fontSize" (VNum 13)
                             (setObjProp "fontName" (VFontName "Inter" "Medium")
                                (setObjProp "characters"
                                   (VStr (default EmptyString (n_content node)))
                                   (newObj TEXT))))]))
      by (rewrite <- H2; apply appended_alter_app; exact Hc2).
    exists [length (scene w); length (scene w2)]. split; [| split].
    + by apply (appended_trans c [_] [_] _ (scene W1)).
    + reflexivity.
    + constructor; [| constructor; [| constructor]].
      * split; [lia |]. exists to. split; [| done].
        eapply appended_keeps; [exact Happ2 | lia | exact Ht].
      * split; [rewrite H2; apply appended_length in Happ1; lia |].
        eexists. split; [apply list_lookup_middle; by rewrite length_alter |].
        by split.
  - apply wp_ret. exists [length (scene w)]. split; [done |]. split; [done |].
    constructor; [| constructor]. split; [lia |]. by exists to.
Qed.

(** The recursion equation of the block renderer, as in the source. *)
Lemma createBlockNodeAt_unfold node x y parent :
  createBlockNodeAt host node x y parent =
  (container <- createFrame host ;;
   resize host container (default 520%Q (n_width node))
     (default 220%Q (n_height node)) ;;
   setProp host container "x" (VNum x) ;;
   setProp host container "y" (VNum y) ;;
   setProp host container "name" (VStr (JsString.or_else (n_title node) "Block")) ;;
   setProp host container "cornerRadius" (VNum (default 14%Q (n_cornerRadius node))) ;;
   setProp host container "layoutMode" (VStr "VERTICAL") ;;
   setProp host container "paddingTop" (VNum 16) ;;
   setProp host container "paddingRight" (VNum 16) ;;
   setProp host container "paddingBottom" (VNum 16) ;;
   setProp host container "paddingLeft" (VNum 16) ;;
   setProp host container "itemSpacing" (VNum (default 12%Q (n_spacing node))) ;;
   setProp host container "fills"
     (VPaints [{| p_type := "SOLID";
                  p_color := hexToRgb (JsString.or_else (n_fill node) "#11141b");
                  p_opacity := Some 1%Q |}]) ;;
   setProp host container "strokes"
     (VPaints (if JsString.truthy_opt (n_stroke node)
               then [solid (default EmptyString (n_stroke node))]
               else [solid "#1f2633"])) ;;
   blockHeading host node container ;;
   (match n_nodes node with
    | Some nodes =>
        if (0 <? length nodes)%nat
        then placeNodes host container nodes
               (if (0 <? length nodes)%nat then 1 else 0)
        else ret tt
    | None => ret tt
    end) ;;
   appendChild host parent container)%M.
Proof. destruct node. reflexivity. Qed.

(** The block renderer on a spread descriptor. *)
Lemma createBlockNode_spread parent node x y :
  createBlockNode host parent (spread_xy node x y) =
  createBlockNodeAt host node x y parent.
Proof. destruct node. reflexivity. Qed.

Lemma placeNodesFrom_spec nodes :
  Forall (rendersBlock host) nodes →
  ∀ parent depth index w,
    (parent < length (scene w))%nat →
    wp (placeNodesFrom host (createBlockNodeAt host) parent nodes depth index) w
      (fun _ w' =>
         ∃ ids, appended parent ids (scene w) (scene w') ∧
                RenderedList (scene w') (length (scene w)) ids nodes depth index).
Proof.
  induction 1 as [| node rest Hnode _ IH]; intros parent depth index w Hp.
  - apply wp_ret. exists []. split; [apply appended_nil | constructor].
  - cbn [placeNodesFrom]. apply wp_bind. unfold placeNode.
    case_bool_decide as Hty.
    + eapply wp_mono; [by apply createTextNode_spec |].
      intros _ w1 (Happ1 & o & Ho & Hot & Hox & Hoy & Hoc).
      cbn [spread_xy n_x n_y default] in Hox, Hoy.
      pose proof (appended_length _ _ _ _ Happ1) as Hlen1.
      eapply wp_mono; [apply IH; lia |].
      intros _ w2 (ids & Happ2 & Hlist).
      exists (length (scene w) :: ids). split.
      * by apply (appended_trans parent [_] ids _ (scene w1)).
      * constructor.
        -- eapply Rendered_text with (o := o); eauto.
           eapply appended_keeps; [exact Happ2 | lia | exact Ho].
        -- eapply RenderedList_transfer; [exact Hlen1 | | exact Hlist]. auto.
    + rewrite if_same. eapply wp_mono; [by apply Hnode |].
      intros _ w1 (Happ1 & Hr).
      pose proof (appended_length _ _ _ _ Happ1) as Hlen1.
      eapply wp_mono; [apply IH; lia |].
      intros _ w2 (ids & Happ2 & Hlist).
      exists (length (scene w) :: ids). split.
      * by apply (appended_trans parent [_] ids _ (scene w1)).
      * constructor.
        -- eapply Rendered_transfer; [reflexivity | | exact Hr].
           intros i o Hi Ho.
           eapply appended_keeps; [exact Happ2 | lia | exact Ho].
        -- eapply RenderedList_transfer; [exact Hlen1 | | exact Hlist]. auto.
Qed.

(** The children of a block, lines 360-362. *)
Lemma blockChildren_spec node c w :
  Forall (rendersBlock host) (childNodes node) →
  (c < length (scene w))%nat →
  wp (match n_nodes node with
      | Some nodes =>
          if (0 <? length nodes)%nat
          then placeNodes host c nodes (if (0 <? length nodes)%nat then 1 else 0)
          else ret tt
      | None => ret tt
      end) w
    (fun _ w' =>
       ∃ ids, appended c ids (scene w) (scene w') ∧
              RenderedList (scene w') (length (scene w)) ids (childNodes node) 1 0).
Proof.
  unfold childNodes. intros IH Hc.
  destruct (n_nodes node) as [[| child nodes] |]; cbn [default] in *.
  - apply wp_ret. exists []. split; [apply appended_nil | constructor].
  - by apply placeNodesFrom_spec.
  - apply wp_ret. exists []. split; [apply appended_nil | constructor].
Qed.

Lemma createBlockNodeAt_spec node : rendersBlock host node.
Proof.
  induction node as [node IH] using BlueprintNode_nested_ind.
  intros Hty x y parent w Hp. rewrite createBlockNodeAt_unfold.
  apply wp_bind, wp_createFrame; [done |].
  apply wp_bind, wp_resize; [done |].
  do 12 (apply wp_bind, wp_setProp; [done |]).
  match goal with |- wp _ ?W _ => set (W1 := W) end.
  assert (HW1 : ∃ o, scene W1 = scene w ++ [o] ∧ o_type o = FRAME ∧
                     o_props o !! "x" = Some (VNum x) ∧
                     o_props o !! "y" = Some (VNum y) ∧ o_children o = []).
  { subst W1. cbn [scene updScene logCall].
    rewrite !alter_at_length. cbn [alter list_alter].
    eexists. split; [reflexivity |]. repeat split; prop_lookup. }
  clearbody W1. destruct HW1 as (co & HW1 & Hco_type & Hco_x & Hco_y & Hco_ch).
  set (c := length (scene w)) in *.
  assert (Hc1 : (c < length (scene W1))%nat)
    by (rewrite HW1, length_app; cbn; lia).
  assert (Hlen1 : length (scene W1) = S c)
    by (rewrite HW1, length_app; cbn; lia).
  assert (Hco : scene W1 !! c = Some co)
    by (rewrite HW1; by apply list_lookup_middle).
  assert (Hold1 : ∀ i, (i < c)%nat → scene W1 !! i = scene w !! i)
    by (intros i Hi; rewrite HW1; by apply lookup_app_l).
  apply wp_bind.
  eapply wp_mono; [by apply blockHeading_spec |].
  intros _ w2 (hs & (Hlen2 & Hold2 & Hpar2) & Hhs_len & Hhs).
  apply wp_bind.
  eapply wp_mono; [apply blockChildren_spec; [exact IH | lia] |].
  intros _ w3 (ids & (Hlen3 & Hold3 & Hpar3) & Hlist).
  apply wp_appendChild; [done |]. cbn [scene updScene logCall].
  split; [split; [| split] |].
  - rewrite length_alter. lia.
  - intros i Hi Hne. rewrite list_lookup_alter_ne by done.
    rewrite Hold3 by lia. rewrite Hold2 by lia. by apply Hold1.
  - rewrite list_lookup_alter_eq.
    rewrite Hold3 by lia. rewrite Hold2 by lia. by rewrite Hold1.
  - eapply Rendered_block with (o := addChildren ids (addChildren hs co)) (hs := hs);
      try done.
    + rewrite list_lookup_alter_ne by lia.
      rewrite Hpar3, Hpar2, Hco. reflexivity.
    + cbn. by rewrite Hco_ch.
    + eapply Forall_impl; [exact Hhs |]. intros h Hh.
      eapply textLeaf_transfer; [| | exact Hh]; [lia |].
      intros i o Hi Ho. rewrite list_lookup_alter_ne by lia.
      rewrite Hold3; [done | | lia]. by eapply lookup_lt_Some.
    + eapply RenderedList_transfer; [| | exact Hlist]; [lia |].
      intros i o Hi Ho. by rewrite list_lookup_alter_ne by lia.
Qed.

(** The tree walker, from any world of an accepting host: it returns,
    the parent gains one child per descriptor, in order, and each child
    renders its descriptor at the position the walker computed. *)
Lemma placeNodes_spec parent nodes depth w :
  (parent < length (scene w))%nat →
  wp (placeNodes host parent nodes depth) w
    (fun _ w' =>
       ∃ ids, appended parent ids (scene w) (scene w') ∧
              RenderedList (scene w') (length (scene w)) ids nodes depth 0).
Proof.
  intros Hp. apply placeNodesFrom_spec; [| done].
  apply Forall_forall. intros node _. apply createBlockNodeAt_spec.
Qed.

End BlockNode.

(** ** Reading a rendering *)

Lemma Rendered_position (s : list SceneObj) lo id node x y :
  Rendered s lo id node x y → position s id = Some (x, y).
Proof.
  unfold position.
  destruct 1 as [id node x y o _ _ Ho _ Hx Hy _ | id node x y o hs ids _ _ Ho _ Hx Hy];
    by rewrite Ho, Hx, Hy.
Qed.

Lemma Rendered_nodeType (s : list SceneObj) lo id node x y :
  Rendered s lo id node x y →
  nodeType s id = Some (if bool_decide (n_type node = Some "text") then TEXT else FRAME).
Proof.
  unfold nodeType.
  destruct 1 as [id node x y o Hty _ Ho Ht | id node x y o hs ids Hty _ Ho Ht];
    rewrite Ho; cbn; rewrite Ht.
  - by rewrite bool_decide_eq_true_2.
  - by rewrite bool_decide_eq_false_2.
Qed.

Lemma RenderedList_positions (s : list SceneObj) lo ids nodes depth index :
  RenderedList s lo ids nodes depth index →
  map (position s) ids = map Some (placements nodes depth index).
Proof.
  induction 1 as [| id ids node nodes depth index Hr _ IH]; [reflexivity |].
  cbn [map placements]. f_equal; [| exact IH].
  by eapply Rendered_position.
Qed.

Lemma RenderedList_length (s : list SceneObj) lo ids nodes depth index :
  RenderedList s lo ids nodes depth index → length ids = length nodes.
Proof. induction 1; cbn; congruence. Qed.

Lemma RenderedList_lookup (s : list SceneObj) lo ids nodes depth index :
  RenderedList s lo ids nodes depth index →
  ∀ i node id,
    nodes !! i = Some node → ids !! i = Some id →
    Rendered s lo id node
      (default (fallbackX (index + i) depth) (n_x node))
      (default (fallbackY (index + i)) (n_y node)).
Proof.
  induction 1 as [| id0 ids node0 nodes depth index Hr _ IH];
    intros i node id Hnode Hid; [done |].
  destruct i as [| i]; cbn in Hnode, Hid.
  - injection Hnode as ->. injection Hid as ->.
    by rewrite Nat.add_0_r.
  - replace (index + S i)%nat with (index + 1 + i)%nat by lia. by apply IH.
Qed.

Lemma appended_children p ids (s s' : list SceneObj) :
  (p < length s)%nat →
  appended p ids s s' →
  children s' p = children s p ++ ids.
Proof.
  intros Hp (_ & _ & Hpar). unfold children. rewrite Hpar.
  destruct (lookup_lt_is_Some_2 s p Hp) as [o Ho]. by rewrite Ho.
Qed.

(** ** Color codec: the claims *)

(** C1 (the claim fails on the code).  Claimed: a 3-digit string decodes as
    the 6-digit string that doubles each of its digits, so that [abc] decodes
    as [aabbcc].  The codec repeats the three digits as a block instead:
    [abc] is read as [abcabc], and its channels are 171, 202, 188 over 255,
    where [aabbcc] gives 170, 187, 204. *)
Theorem hexToRgb_shorthand_repeats_block :
  hexToRgb "abc" = hexToRgb "abcabc" ∧
  hexToRgb "abc" = {| r := 171 # 255; g := 202 # 255; b := 188 # 255 |} ∧
  hexToRgb "aabbcc" = {| r := 170 # 255; g := 187 # 255; b := 204 # 255 |} ∧
  hexToRgb "abc" ≠ hexToRgb "aabbcc".
Proof.
  assert (H1 : hexToRgb "abc" = {| r := 171 # 255; g := 202 # 255; b := 188 # 255 |})
    by (vm_compute; reflexivity).
  assert (H2 : hexToRgb "aabbcc" = {| r := 170 # 255; g := 187 # 255; b := 204 # 255 |})
    by (vm_compute; reflexivity).
  split; [by vm_compute |]. split; [exact H1 |]. split; [exact H2 |].
  rewrite H1, H2. discriminate.
Qed.

(** ** Tree walker: the claims *)

(** C6.  Five sibling descriptors without coordinates, walked at nesting
    depth 0 under an existing parent by an accepting host: the walker
    returns, the parent gains five children in order, and their positions are
    (40,120), (380,120), (40,340), (380,340), (40,560). *)
Theorem placeNodes_fallback_grid host parent nodes w :
  accepting host →
  (parent < length (scene w))%nat →
  length nodes = 5%nat →
  Forall (fun node => n_x node = None ∧ n_y node = None) nodes →
  wp (placeNodes host parent nodes 0) w
    (fun _ w' =>
       ∃ ids,
         children (scene w') parent = children (scene w) parent ++ ids ∧
         map (position (scene w')) ids =
           [Some (40, 120); Some (380, 120); Some (40, 340);
            Some (380, 340); Some (40, 560)]%Q).
Proof.
  intros Hacc Hp Hlen Hnone.
  eapply wp_mono; [by apply placeNodes_spec |].
  intros _ w' (ids & Happ & Hlist). exists ids.
  split; [by apply appended_children |].
  rewrite (RenderedList_positions _ _ _ _ _ _ Hlist).
  destruct nodes as [| n0 [| n1 [| n2 [| n3 [| n4 [| n5 rest]]]]]]; try discriminate.
  cbn [placements map].
  repeat match goal with
         | H : Forall _ (_ :: _) |- _ =>
             apply Forall_cons_1 in H; destruct H as [[-> ->] H]
         end.
  reflexivity.
Qed.

Lemma placeNodes_fallback_grid_witness :
  wp (placeNodes quietHost 0
        [bare "text" None; bare "card" None; bare "list" None;
         bare "panel" None; bare "text" None] 0) oneFrameWorld
    (fun _ w' =>
       ∃ ids,
         children (scene w') 0%nat = children (scene oneFrameWorld) 0%nat ++ ids ∧
         map (position (scene w')) ids =
           [Some (40, 120); Some (380, 120); Some (40, 340);
            Some (380, 340); Some (40, 560)]%Q).
Proof.
  apply placeNodes_fallback_grid.
  - intros h c. reflexivity.
  - cbn. lia.
  - reflexivity.
  - repeat constructor.
Defined.

Lemma placeNode_block host parent node depth index :
  n_type node ≠ Some "text" →
  placeNode host (createBlockNodeAt host) parent node depth index =
  createBlockNode host parent
    (spread_xy node (default (fallbackX index depth) (n_x node))
       (default (fallbackY index) (n_y node))).
Proof.
  intros Hty. unfold placeNode. rewrite bool_decide_eq_false_2 by done.
  by rewrite if_same, createBlockNode_spread.
Qed.

Lemma placeNode_text host parent node depth index :
  n_type node = Some "text" →
  placeNode host (createBlockNodeAt host) parent node depth index =
  createTextNode host parent
    (spread_xy node (default (fallbackX index depth) (n_x node))
       (default (fallbackY index) (n_y node))).
Proof.
  intros Hty. unfold placeNode. by rewrite bool_decide_eq_true_2.
Qed.

(** The block renderer never reads the kind. *)
Lemma createBlockNodeAt_withType host kind node x y parent :
  createBlockNodeAt host (withType kind node) x y parent =
  createBlockNodeAt host node x y parent.
Proof. by rewrite !createBlockNodeAt_unfold. Qed.

(** One turn of the walker under an accepting host. *)
Lemma placeNode_spec host parent node depth index w :
  accepting host →
  (parent < length (scene w))%nat →
  wp (placeNode host (createBlockNodeAt host) parent node depth index) w
    (fun _ w' =>
       appended parent [length (scene w)] (scene w) (scene w') ∧
       Rendered (scene w') (length (scene w)) (length (scene w)) node
         (default (fallbackX index depth) (n_x node))
         (default (fallbackY index) (n_y node))).
Proof.
  intros Hacc Hp. unfold placeNode. case_bool_decide as Hty.
  - eapply wp_mono; [by apply createTextNode_spec |].
    intros _ w' (Happ & o & Ho & Hot & Hox & Hoy & Hoc).
    cbn [spread_xy n_x n_y default] in Hox, Hoy.
    split; [exact Happ |]. by eapply Rendered_text with (o := o).
  - rewrite if_same. by apply createBlockNodeAt_spec.
Qed.

(** C7.  One turn of the tree walker on any descriptor.  A descriptor whose
    kind is "text" goes to the text renderer; every other descriptor,
    whatever its kind (known, unknown or missing), goes to the block
    renderer, and the kind makes no difference there.  Under an accepting
    host the turn returns and adds one child to the parent: a text object
    for kind "text", a container for any other kind. *)
Theorem placeNode_dispatch host parent node depth index w :
  accepting host →
  (parent < length (scene w))%nat →
  let x := default (fallbackX index depth) (n_x node) in
  let y := default (fallbackY index) (n_y node) in
  let walk := placeNode host (createBlockNodeAt host) parent in
  (n_type node = Some "text" →
   walk node depth index = createTextNode host parent (spread_xy node x y)) ∧
  (n_type node ≠ Some "text" →
   walk node depth index = createBlockNode host parent (spread_xy node x y) ∧
   ∀ kind, kind ≠ Some "text" →
           walk (withType kind node) depth index = walk node depth index) ∧
  wp (walk node depth index) w
    (fun _ w' =>
       children (scene w') parent = children (scene w) parent ++ [length (scene w)] ∧
       nodeType (scene w') (length (scene w)) =
         Some (if bool_decide (n_type node = Some "text") then TEXT else FRAME)).
Proof.
  intros Hacc Hp x y walk. split; [| split].
  - intros Hty. by apply placeNode_text.
  - intros Hty. split; [by apply placeNode_block |].
    intros kind Hkind. subst walk. unfold placeNode.
    cbn [withType n_type n_x n_y].
    rewrite !(bool_decide_eq_false_2 (_ = Some "text")) by done.
    rewrite !if_same. apply createBlockNodeAt_withType.
  - eapply wp_mono; [by apply placeNode_spec |].
    intros _ w' (Happ & Hr). split; [by apply appended_children |].
    by eapply Rendered_nodeType.
Qed.

Lemma placeNode_dispatch_witness :
  let walk := placeNode quietHost (createBlockNodeAt quietHost) 0%nat in
  let node := bare "chart" None in
  (n_type node ≠ Some "text" →
   walk node 0%nat 0%nat =
     createBlockNode quietHost 0%nat (spread_xy node 40%Q 120%Q)) ∧
  wp (walk node 0%nat 0%nat) oneFrameWorld
    (fun _ w' =>
       children (scene w') 0%nat = [1%nat] ∧
       nodeType (scene w') 1%nat = Some FRAME).
Proof.
  intros walk node.
  destruct (placeNode_dispatch quietHost 0%nat node 0%nat 0%nat oneFrameWorld)
    as (_ & Hblock & Hrun).
  - intros h c. reflexivity.
  - cbn. lia.
  - split; [intros Hty; exact (proj1 (Hblock Hty)) | exact Hrun].
Defined.

(** C2 (the claim fails on the code, amended).  Claimed: the children of a
    container rendered at nesting depth d are walked at depth d+1.  The block
    renderer does not know its own depth: it walks its children at depth 1,
    so a child at sibling index i with no x is placed at
    x = 40 + (i mod 2)*340 + 16 whatever d is.  Under an accepting host the
    turn of the walker on the container returns, and the container's
    children are its synthesized headings followed by the renderings of the
    declared children, in order, walked at depth 1 from index 0. *)
Theorem block_children_walked_at_depth_one host parent node kids depth index w :
  accepting host →
  (parent < length (scene w))%nat →
  n_type node ≠ Some "text" →
  n_nodes node = Some kids →
  wp (placeNode host (createBlockNodeAt host) parent node depth index) w
    (fun _ w' =>
       ∃ hs ids,
         children (scene w') (length (scene w)) = hs ++ ids ∧
         length hs = headingCount node ∧
         RenderedList (scene w') (length (scene w)) ids kids 1 0 ∧
         ∀ i child id,
           kids !! i = Some child → ids !! i = Some id → n_x child = None →
           fst <$> position (scene w') id =
             Some (inject_Z (40 + Z.of_nat (i mod 2) * 340 + 16))).
Proof.
  intros Hacc Hp Hty Hkids.
  eapply wp_mono; [by apply placeNode_spec |].
  intros _ w' (_ & Hr).
  inversion Hr as [| ? ? ? ? o hs ids _ _ Ho _ _ _ Hch Hhs _ Hlist]; subst; [done |].
  exists hs, ids. unfold childNodes in Hlist. rewrite Hkids in Hlist.
  cbn [default] in Hlist.
  split; [unfold children; by rewrite Ho |]. split; [done |]. split; [done |].
  intros i child cid Hchild Hcid Hx.
  pose proof (RenderedList_lookup _ _ _ _ _ _ Hlist i child cid Hchild Hcid) as Hrc.
  rewrite (Rendered_position _ _ _ _ _ _ Hrc). rewrite Hx. cbn.
  unfold fallbackX. do 2 f_equal.
Qed.

Lemma block_children_walked_at_depth_one_witness :
  wp (placeNode quietHost (createBlockNodeAt quietHost) 0%nat
        (bare "card" (Some [bare "text" None; bare "text" None])) 3 0)
     oneFrameWorld
    (fun _ w' =>
       ∃ hs ids,
         children (scene w') 1%nat = hs ++ ids ∧
         length hs = 0%nat ∧
         RenderedList (scene w') 1 ids [bare "text" None; bare "text" None] 1 0 ∧
         ∀ i child id,
           [bare "text" None; bare "text" None] !! i = Some child →
           ids !! i = Some id → n_x child = None →
           fst <$> position (scene w') id =
             Some (inject_Z (40 + Z.of_nat (i mod 2) * 340 + 16))).
Proof.
  apply (block_children_walked_at_depth_one quietHost 0%nat
           (bare "card" (Some [bare "text" None; bare "text" None]))
           [bare "text" None; bare "text" None] 3 0 oneFrameWorld).
  - intros h c. reflexivity.
  - cbn. lia.
  - discriminate.
  - reflexivity.
Defined.

(** C2, the claim as stated fails: a container walked at nesting depth 1,
    with one text child that has no x.  The claim puts the child at
    x = 40 + 0*340 + (1+1)*16 = 72; it is placed at x = 56. *)
Lemma block_child_depth_counterexample :
  let container := bare "card" (Some [bare "text" None]) in
  let w' := snd (placeNodes quietHost 0 [container] 1 oneFrameWorld) in
  children (scene w') 0%nat = [1%nat] ∧
  children (scene w') 1%nat = [2%nat] ∧
  position (scene w') 2%nat = Some (56, 120)%Q ∧
  position (scene w') 2%nat
    ≠ Some (inject_Z (40 + Z.of_nat (0 mod 2) * 340 + (1 + 1) * 16), 120%Q).
Proof.
  cbv zeta.
  assert (H : position (scene (snd (placeNodes quietHost 0
                 [bare "card" (Some [bare "text" None])] 1 oneFrameWorld))) 2%nat
              = Some (56, 120)%Q) by (vm_compute; reflexivity).
  split; [by vm_compute |]. split; [by vm_compute |]. split; [exact H |].
  rewrite H. discriminate.
Qed.

(** ** Blueprint renderer: the claims *)

Lemma descendants_leaf (s : list SceneObj) id fuel :
  children s id = [] → descendants fuel s id = [].
Proof. intros H. destruct fuel; cbn; [done |]. by rewrite H. Qed.

Lemma descendants_of_leaves (s : list SceneObj) fuel ids :
  Forall (fun id => children s id = []) ids →
  flat_map (fun c => c :: descendants fuel s c) ids = ids.
Proof.
  induction 1 as [| id ids Hid _ IH]; [reflexivity |].
  cbn. rewrite descendants_leaf by done. cbn. by rewrite IH.
Qed.

Lemma textLeaf_children (s : list SceneObj) lo id :
  textLeaf s lo id → children s id = [] ∧ nodeType s id = Some TEXT.
Proof.
  intros (_ & o & Ho & Ht & Hc). unfold children, nodeType.
  rewrite Ho. cbn. by rewrite Ht.
Qed.

Lemma Rendered_text_leaf (s : list SceneObj) lo id node x y :
  n_type node = Some "text" →
  Rendered s lo id node x y →
  children s id = [] ∧ nodeType s id = Some TEXT.
Proof.
  intros Hty Hr.
  inversion Hr as [? ? ? ? o _ _ Ho Ht _ _ Hc |]; subst; [| done].
  unfold children, nodeType. rewrite Ho. cbn. by rewrite Ht.
Qed.

(** C3 (the claim fails on the code, amended).  Claimed: one frame without
    description, holding a text node and a card with two nested text nodes,
    renders as one frame container with exactly 3 descendants.  The frame
    container has 4 descendants besides the headings the card synthesizes
    from its own title and content (none when it has neither): the text, the
    card's container, and under it the two nested texts, in descriptor
    order.  Under an accepting host the renderer returns just the one frame
    container, whose children are the text and the card's container; no
    heading is made for the frame. *)
Theorem renderBlueprint_one_frame_tree
    host name width height background text card t1 t2 mode w :
  accepting host →
  n_type text = Some "text" →
  n_type card = Some "card" →
  n_nodes card = Some [t1; t2] →
  n_type t1 = Some "text" →
  n_type t2 = Some "text" →
  wp (renderBlueprint host
        (mkBlueprint
           (Some [mkFrame name None width height background (Some [text; card])]))
        mode) w
    (fun created w' =>
       let f := length (scene w) in
       created = [f] ∧
       nodeType (scene w') f = Some FRAME ∧
       ∃ a b hs c1 c2,
         children (scene w') f = [a; b] ∧
         nodeType (scene w') a = Some TEXT ∧
         position (scene w') a =
           Some (default (fallbackX 0 0) (n_x text), default (fallbackY 0) (n_y text)) ∧
         nodeType (scene w') b = Some FRAME ∧
         position (scene w') b =
           Some (default (fallbackX 1 0) (n_x card), default (fallbackY 1) (n_y card)) ∧
         children (scene w') b = hs ++ [c1; c2] ∧
         length hs = headingCount card ∧
         Forall (fun id => nodeType (scene w') id = Some TEXT) (hs ++ [c1; c2]) ∧
         position (scene w') c1 =
           Some (default (fallbackX 0 1) (n_x t1), default (fallbackY 0) (n_y t1)) ∧
         position (scene w') c2 =
           Some (default (fallbackX 1 1) (n_x t2), default (fallbackY 1) (n_y t2)) ∧
         ∀ fuel, (2 ≤ fuel)%nat →
                 descendants fuel (scene w') f = [a; b] ++ hs ++ [c1; c2]).
Proof.
  intros Hacc Htext Hcard Hkids Ht1 Ht2.
  unfold renderBlueprint. cbn [frames renderFrames].
  apply wp_bind, wp_bind, wp_createFrame; [done |].
  apply wp_bind, wp_setProp; [done |].
  apply wp_bind, wp_resize; [done |].
  do 3 (apply wp_bind, wp_setProp; [done |]).
  cbn [f_description JsString.truthy_opt]. apply wp_bind, wp_ret.
  match goal with |- wp _ ?W _ => set (W1 := W) end.
  assert (HW1 : ∃ o, scene W1 = scene w ++ [o] ∧ o_type o = FRAME ∧ o_children o = []).
  { subst W1. cbn [scene updScene logCall].
    rewrite !alter_at_length. cbn [alter list_alter].
    eexists. split; [reflexivity |]. by split. }
  clearbody W1. destruct HW1 as (fo & HW1 & Hfo_type & Hfo_ch).
  set (f := length (scene w)) in *.
  assert (Hf : scene W1 !! f = Some fo)
    by (rewrite HW1; by apply list_lookup_middle).
  assert (Hf1 : (f < length (scene W1))%nat) by (by eapply lookup_lt_Some).
  apply wp_bind. cbn [f_nodes default].
  eapply wp_mono; [by apply placeNodes_spec |].
  intros _ w2 (ids & Happ & Hlist).
  apply wp_ret, wp_bind, wp_hostCall; [done |]. apply wp_ret.
  cbn [scene logCall app].
  inversion Hlist as [| a ids1 ? ? ? ? Ha Hlist1]; subst.
  inversion Hlist1 as [| b ids2 ? ? ? ? Hb Hlist2]; subst.
  inversion Hlist2; subst. clear Hlist Hlist1 Hlist2.
  pose proof (appended_children _ _ _ _ Hf1 Happ) as Hfch.
  unfold children in Hfch at 2. rewrite Hf, Hfo_ch in Hfch. cbn [app] in Hfch.
  inversion Hb as [| ? ? ? ? bo hs kids Hbty _ Hbo Hbt _ _ Hbch Hhs_len Hhs Hklist];
    subst; [congruence |].
  unfold childNodes in Hklist. rewrite Hkids in Hklist. cbn [default] in Hklist.
  inversion Hklist as [| c1 kids1 ? ? ? ? Hc1 Hklist1]; subst.
  inversion Hklist1 as [| c2 kids2 ? ? ? ? Hc2 Hklist2]; subst.
  inversion Hklist2; subst. clear Hklist Hklist1 Hklist2.
  destruct (Rendered_text_leaf _ _ _ _ _ _ Htext Ha) as [Hach Hat].
  destruct (Rendered_text_leaf _ _ _ _ _ _ Ht1 Hc1) as [Hc1ch Hc1t].
  destruct (Rendered_text_leaf _ _ _ _ _ _ Ht2 Hc2) as [Hc2ch Hc2t].
  assert (Hbchildren : children (scene w2) b = hs ++ [c1; c2])
    by (unfold children; by rewrite Hbo).
  assert (Hleaves : Forall (fun id => children (scene w2) id = []
                                      ∧ nodeType (scene w2) id = Some TEXT)
                      (hs ++ [c1; c2])).
  { apply Forall_app. split.
    - eapply Forall_impl; [exact Hhs |]. intros h Hh.
      by eapply textLeaf_children.
    - by repeat constructor. }
  split; [reflexivity |]. split.
  { unfold nodeType. destruct Happ as (_ & _ & ->). rewrite Hf. cbn.
    by rewrite Hfo_type. }
  exists a, b, hs, c1, c2.
  split; [exact Hfch |]. split; [exact Hat |].
  split; [by eapply Rendered_position |].
  split; [unfold nodeType; rewrite Hbo; cbn; by rewrite Hbt |].
  split; [by eapply Rendered_position |].
  split; [exact Hbchildren |]. split; [exact Hhs_len |].
  split; [eapply Forall_impl; [exact Hleaves |]; by intros id [_ ?] |].
  split; [by eapply Rendered_position |].
  split; [by eapply Rendered_position |].
  intros [| [| fuel]] Hfuel; [lia | lia |].
  change (descendants (S (S fuel)) (scene w2) f)
    with (flat_map (fun c => c :: descendants (S fuel) (scene w2) c)
            (children (scene w2) f)).
  rewrite Hfch. cbn [flat_map app].
  rewrite (descendants_leaf _ a) by done.
  change (descendants (S fuel) (scene w2) b)
    with (flat_map (fun c => c :: descendants fuel (scene w2) c)
            (children (scene w2) b)).
  rewrite Hbchildren, descendants_of_leaves.
  - cbn [app]. by rewrite app_nil_r.
  - eapply Forall_impl; [exact Hleaves |]. by intros id [? _].
Qed.

Lemma renderBlueprint_one_frame_tree_witness :
  wp (renderBlueprint quietHost
        (mkBlueprint
           (Some [mkFrame (Some "Home") None None None None
                    (Some [bare "text" None;
                           bare "card" (Some [bare "text" None; bare "text" None])])]))
        "screen") initialWorld
    (fun created w' =>
       created = [0%nat] ∧
       ∀ fuel, (2 ≤ fuel)%nat → length (descendants fuel (scene w') 0%nat) = 4%nat).
Proof.
  eapply wp_mono.
  - apply (renderBlueprint_one_frame_tree quietHost (Some "Home") None None None
             (bare "text" None)
             (bare "card" (Some [bare "text" None; bare "text" None]))
             (bare "text" None) (bare "text" None) "screen" initialWorld).
    + intros h c. reflexivity.
    + reflexivity.
    + reflexivity.
    + reflexivity.
    + reflexivity.
    + reflexivity.
  - intros created w' (Hcreated & _ & a & b & hs & c1 & c2 & H).
    destruct H as (_ & _ & _ & _ & _ & _ & Hhs & _ & _ & _ & Hdesc).
    split; [exact Hcreated |].
    intros fuel Hfuel. pose proof (Hdesc fuel Hfuel) as Hd.
    cbn [scene initialWorld length] in Hd. rewrite Hd.
    destruct hs; [reflexivity | cbn in Hhs; discriminate Hhs].
Defined.

(** C3, the claim as stated fails: the fixture of the claim, with nothing but
    kinds in its descriptors, rendered into an empty document.  One frame
    container is returned; its descendants are the four objects 1 (text),
    2 (card), 3 and 4 (nested texts), not three. *)
Lemma one_frame_descendants_counterexample :
  let blueprint :=
    mkBlueprint
      (Some [mkFrame (Some "Home") None None None None
               (Some [bare "text" None;
                      bare "card" (Some [bare "text" None; bare "text" None])])]) in
  let result := renderBlueprint quietHost blueprint "screen" initialWorld in
  fst result = Ok [0%nat] ∧
  length (scene (snd result)) = 5%nat ∧
  descendants 5 (scene (snd result)) 0%nat = [1; 2; 3; 4]%nat ∧
  length (descendants 5 (scene (snd result)) 0%nat) ≠ 3%nat.
Proof.
  cbv zeta. split; [by vm_compute |]. split; [by vm_compute |].
  assert (H : descendants 5
                (scene (snd (renderBlueprint quietHost
                   (mkBlueprint
                      (Some [mkFrame (Some "Home") None None None None
                               (Some [bare "text" None;
                                      bare "card"
                                        (Some [bare "text" None; bare "text" None])])]))
                   "screen" initialWorld))) 0%nat = [1; 2; 3; 4]%nat)
    by (vm_compute; reflexivity).
  split; [exact H |]. rewrite H. discriminate.
Qed.

(** ** Font cache: the claims *)

Lemma fontKey_inj (a b : string) : "Inter-" +:+ a = "Inter-" +:+ b → a = b.
Proof. intros H. cbv [String.append] in H. by injection H. Qed.

Section FontCache.

Variable host : Host.
Hypothesis Hload : ∀ h style, rejects host h (LoadFontAsync "Inter" style) = None.

(** A series of font-ensuring calls from any state of the cache: the
    loads it triggers are those of the styles requested and not yet in the
    cache, each once. *)
Lemma ensureFonts_spec weights :
  ∀ w,
    wp (ensureFonts host weights) w
      (fun _ w' =>
         ∃ loads,
           calls w' = loads ++ calls w ∧
           NoDup loads ∧
           ∀ c, c ∈ loads ↔
                ∃ fw, fw ∈ weights ∧
                      c = LoadFontAsync "Inter" (fontStyle fw) ∧
                      "Inter-" +:+ fontStyle fw ∉ loadedFonts w).
Proof.
  induction weights as [| fw rest IH]; intros w.
  - apply wp_ret. exists []. split; [done |]. split; [constructor |].
    intros c. split; [by intros ?%elem_of_nil |].
    by intros (? & ?%elem_of_nil & _).
  - cbn [ensureFonts]. apply wp_bind. unfold wp at 1, ensureFont. cbv zeta.
    case_bool_decide as Hin.
    + exists tt, w. split; [reflexivity |].
      eapply wp_mono; [apply IH |].
      intros _ w' (loads & Hcalls & Hnodup & Helem).
      exists loads. split; [done |]. split; [done |].
      intros c. rewrite Helem. split.
      * intros (fw' & Hfw' & Hc). exists fw'. split; [| done].
        apply elem_of_cons. by right.
      * intros (fw' & Hfw' & -> & Hnot). exists fw'.
        apply elem_of_cons in Hfw' as [-> | Hfw']; [done |]. by split.
    + unfold loadFontAsync, bind, hostCall. rewrite Hload.
      eexists tt, _. split; [reflexivity |].
      eapply wp_mono; [apply IH |].
      intros _ w' (loads & Hcalls & Hnodup & Helem).
      cbn [calls loadedFonts addFont logCall] in Hcalls, Helem.
      exists (loads ++ [LoadFontAsync "Inter" (fontStyle fw)]).
      split; [by rewrite Hcalls, <- app_assoc |]. split.
      * apply NoDup_app. split; [done |]. split; [| apply NoDup_singleton].
        intros c Hc ->%list_elem_of_singleton.
        apply Helem in Hc as (fw' & _ & [= Heq] & Hnot).
        apply Hnot. rewrite <- Heq.
        apply elem_of_union. left. by apply elem_of_singleton.
      * intros c. rewrite elem_of_app, list_elem_of_singleton, Helem. split.
        -- intros [(fw' & Hfw' & -> & Hnot) | ->].
           ++ exists fw'. split; [apply elem_of_cons; by right |].
              split; [done |]. intros Hk. apply Hnot, elem_of_union. by right.
           ++ exists fw. split; [apply elem_of_cons; by left | done].
        -- intros (fw' & Hfw' & -> & Hnot).
           destruct (decide (fontStyle fw' = fontStyle fw)) as [-> | Hne];
             [by right |].
           left. exists fw'.
           apply elem_of_cons in Hfw' as [-> | Hfw']; [done |].
           split; [done |]. split; [done |].
           intros [Hk%elem_of_singleton | Hk]%elem_of_union; [| done].
           by apply fontKey_inj in Hk.
Qed.

(** C4 (the claim fails on the code, amended).  Claimed: distinct weight
    tokens each trigger a load of their own.  The tokens select only three
    styles: "bold" selects Bold, "semi-bold" selects Semi Bold and every
    other token, "regular" and "medium" among them, selects Medium.  In a
    session whose cache is empty and whose host resolves every font load,
    a series of font-ensuring calls returns and triggers one load for each
    style that its tokens select, never two for the same style; one or
    more calls for the same token trigger exactly one load; "regular" and
    "medium" share the load of Medium. *)
Theorem ensureFont_loads_each_style_once weights w :
  loadedFonts w = ∅ →
  wp (ensureFonts host weights) w
    (fun _ w' =>
       ∃ loads,
         calls w' = loads ++ calls w ∧
         NoDup loads ∧
         ∀ c, c ∈ loads ↔
              ∃ fw, fw ∈ weights ∧ c = LoadFontAsync "Inter" (fontStyle fw)) ∧
  (∀ fw N,
     wp (ensureFonts host (replicate (S N) fw)) w
       (fun _ w' => calls w' = LoadFontAsync "Inter" (fontStyle fw) :: calls w)) ∧
  fontStyle (Some "regular") = "Medium" ∧
  fontStyle (Some "medium") = "Medium" ∧
  fontStyle (Some "semi-bold") = "Semi Bold" ∧
  fontStyle (Some "bold") = "Bold".
Proof.
  intros Hempty.
  assert (Hgen : ∀ weights,
    wp (ensureFonts host weights) w
      (fun _ w' =>
         ∃ loads,
           calls w' = loads ++ calls w ∧
           NoDup loads ∧
           ∀ c, c ∈ loads ↔
                ∃ fw, fw ∈ weights ∧ c = LoadFontAsync "Inter" (fontStyle fw))).
  { intros ws. eapply wp_mono; [apply ensureFonts_spec |].
    intros _ w' (loads & Hcalls & Hnodup & Helem).
    exists loads. split; [done |]. split; [done |].
    intros c. rewrite Helem. split.
    - intros (fw & Hfw & Hc & _). by exists fw.
    - intros (fw & Hfw & Hc). exists fw. split; [done |]. split; [done |].
      rewrite Hempty. apply not_elem_of_empty. }
  split; [apply Hgen |]. split; [| by repeat split].
  intros fw N. eapply wp_mono; [apply Hgen |].
  intros _ w' (loads & Hcalls & Hnodup & Helem). rewrite Hcalls.
  assert (Hall : ∀ c, c ∈ loads ↔ c = LoadFontAsync "Inter" (fontStyle fw)).
  { intros c. rewrite Helem. split.
    - by intros (fw' & ->%elem_of_replicate_inv & ->).
    - intros ->. exists fw. split; [| done]. apply elem_of_cons. by left. }
  destruct loads as [| c0 loads].
  - exfalso. eapply not_elem_of_nil, Hall. reflexivity.
  - assert (c0 = LoadFontAsync "Inter" (fontStyle fw)) as ->
      by (apply Hall, elem_of_cons; by left).
    destruct loads as [| c1 loads]; [reflexivity |].
    assert (c1 = LoadFontAsync "Inter" (fontStyle fw)) as ->
      by (apply Hall, elem_of_cons; right; apply elem_of_cons; by left).
    apply NoDup_cons_1_1 in Hnodup. exfalso. apply Hnodup.
    apply elem_of_cons. by left.
Qed.

End FontCache.

Lemma ensureFont_loads_each_style_once_witness :
  wp (ensureFonts quietHost [Some "bold"; Some "bold"; Some "medium"; Some "bold"])
     initialWorld
    (fun _ w' =>
       ∃ loads,
         calls w' = loads ++ calls initialWorld ∧
         NoDup loads ∧
         ∀ c, c ∈ loads ↔
              ∃ fw, fw ∈ [Some "bold"; Some "bold"; Some "medium"; Some "bold"] ∧
                    c = LoadFontAsync "Inter" (fontStyle fw)).
Proof.
  refine (proj1 (ensureFont_loads_each_style_once quietHost _
                   [Some "bold"; Some "bold"; Some "medium"; Some "bold"]
                   initialWorld _)).
  - intros h style. reflexivity.
  - reflexivity.
Defined.

(** C4, the claim as stated fails: in a fresh session the two distinct
    tokens "regular" and "medium" trigger one load between them, the one of
    Medium made for "regular"; the call for "medium" triggers none. *)
Lemma regular_and_medium_share_a_load :
  Some "regular" ≠ Some "medium" ∧
  calls (snd (ensureFonts quietHost [Some "regular"] initialWorld))
    = [LoadFontAsync "Inter" "Medium"] ∧
  calls (snd (ensureFonts quietHost [Some "regular"; Some "medium"] initialWorld))
    = [LoadFontAsync "Inter" "Medium"].
Proof. split; [discriminate |]. split; by vm_compute. Qed.

(** ** Strings: occurrences and the searches *)

Lemma append_nil (b : string) : EmptyString +:+ b = b.
Proof. reflexivity. Qed.

Lemma append_cons x (a b : string) : String x a +:+ b = String x (a +:+ b).
Proof. reflexivity. Qed.

Lemma append_assoc (a b c : string) : (a +:+ b) +:+ c = a +:+ (b +:+ c).
Proof.
  induction a as [| x a IH]; [done |].
  by rewrite !append_cons, IH.
Qed.

Lemma length_append (a b : string) :
  String.length (a +:+ b) = (String.length a + String.length b)%nat.
Proof.
  induction a as [| x a IH]; [done |].
  rewrite append_cons. cbn. by rewrite IH.
Qed.

Lemma drop_append (pre rest : string) :
  JsString.drop (String.length pre) (pre +:+ rest) = rest.
Proof.
  induction pre as [| x pre IH]; [by destruct rest |].
  rewrite append_cons. exact IH.
Qed.

Lemma take_append (pre rest : string) :
  JsString.take (String.length pre) (pre +:+ rest) = pre.
Proof.
  induction pre as [| x pre IH]; [by destruct rest |].
  rewrite append_cons. cbn. by rewrite IH.
Qed.

(** The slice between two cuts of a text is the part between them. *)
Lemma slice_middle (pre mid post : string) :
  JsString.slice (String.length pre) (String.length pre + String.length mid)
    (pre +:+ mid +:+ post) = mid.
Proof.
  unfold JsString.slice. rewrite drop_append.
  replace (String.length pre + String.length mid - String.length pre)%nat
    with (String.length mid) by lia.
  apply take_append.
Qed.

Lemma startsWith_spec (p s : string) :
  JsString.startsWith p s = true ↔ ∃ post, s = p +:+ post.
Proof.
  revert s. induction p as [| a p IH]; intros s; cbn [JsString.startsWith].
  - split; [by exists s | done].
  - destruct s as [| c s].
    + split; [done | by intros (post & ?)].
    + rewrite andb_true_iff, Ascii.eqb_eq, IH. split.
      * intros (-> & post & ->). by exists post.
      * intros (post & Heq). rewrite append_cons in Heq.
        injection Heq as -> ->. split; [done | by exists post].
Qed.

Lemma occursAt_0 (p s : string) :
  occursAt p s 0 ↔ JsString.startsWith p s = true.
Proof.
  rewrite startsWith_spec. split.
  - intros (pre & post & -> & Hlen). destruct pre; [| done]. by exists post.
  - intros (post & ->). by exists EmptyString, post.
Qed.

Lemma occursAt_S (p : string) c (s : string) i :
  occursAt p (String c s) (S i) ↔ occursAt p s i.
Proof.
  split.
  - intros (pre & post & Heq & Hlen). destruct pre as [| x pre]; [done |].
    rewrite append_cons in Heq. cbn in Hlen.
    injection Heq as -> ->. injection Hlen as <-.
    by exists pre, post.
  - intros (pre & post & -> & <-). by exists (String c pre), post.
Qed.

Lemma occursAt_empty_S (p : string) i : ¬ occursAt p EmptyString (S i).
Proof. intros (pre & post & Heq & Hlen). by destruct pre. Qed.

Lemma indexOf_firstAt (p s : string) i :
  JsString.indexOf p s = Some i → firstAt p s i.
Proof.
  revert i. induction s as [| c s IH]; intros i; cbn [JsString.indexOf].
  - destruct (JsString.startsWith p EmptyString) eqn:Hsw; [| done].
    intros [= <-]. split; [by apply occursAt_0 | intros j Hj; lia].
  - destruct (JsString.startsWith p (String c s)) eqn:Hsw.
    + intros [= <-]. split; [by apply occursAt_0 | intros j Hj; lia].
    + destruct (JsString.indexOf p s) as [i' |] eqn:Hi; [| done].
      intros [= <-]. destruct (IH i' eq_refl) as [Hocc Hmin]. split.
      * by apply occursAt_S.
      * intros [| j] Hj.
        -- rewrite occursAt_0. congruence.
        -- rewrite occursAt_S. apply Hmin. lia.
Qed.

Lemma indexOf_None (p s : string) :
  JsString.indexOf p s = None → ∀ j, ¬ occursAt p s j.
Proof.
  induction s as [| c s IH]; cbn [JsString.indexOf].
  - destruct (JsString.startsWith p EmptyString) eqn:Hsw; [done |].
    intros _ [| j]; [rewrite occursAt_0; congruence | apply occursAt_empty_S].
  - destruct (JsString.startsWith p (String c s)) eqn:Hsw; [done |].
    destruct (JsString.indexOf p s) as [i' |] eqn:Hi; [done |].
    intros _ [| j]; [rewrite occursAt_0; congruence |].
    rewrite occursAt_S. by apply IH.
Qed.

Lemma lastIndexOf_None (p s : string) :
  JsString.lastIndexOf p s = None → ∀ j, ¬ occursAt p s j.
Proof.
  induction s as [| c s IH]; cbn [JsString.lastIndexOf].
  - destruct (JsString.startsWith p EmptyString) eqn:Hsw; [done |].
    intros _ [| j]; [rewrite occursAt_0; congruence | apply occursAt_empty_S].
  - destruct (JsString.lastIndexOf p s) as [i' |] eqn:Hi; [done |].
    destruct (JsString.startsWith p (String c s)) eqn:Hsw; [done |].
    intros _ [| j]; [rewrite occursAt_0; congruence |].
    rewrite occursAt_S. by apply IH.
Qed.

Lemma lastIndexOf_lastAt (p s : string) i :
  JsString.lastIndexOf p s = Some i → lastAt p s i.
Proof.
  revert i. induction s as [| c s IH]; intros i; cbn [JsString.lastIndexOf].
  - destruct (JsString.startsWith p EmptyString) eqn:Hsw; [| done].
    intros [= <-]. split; [by apply occursAt_0 |].
    intros [| j] Hj; [lia | apply occursAt_empty_S].
  - destruct (JsString.lastIndexOf p s) as [i' |] eqn:Hi.
    + intros [= <-]. destruct (IH i' eq_refl) as [Hocc Hmax]. split.
      * by apply occursAt_S.
      * intros [| j] Hj; [lia |]. rewrite occursAt_S. apply Hmax. lia.
    + destruct (JsString.startsWith p (String c s)) eqn:Hsw; [| done].
      intros [= <-]. split; [by apply occursAt_0 |].
      intros [| j] Hj; [lia |]. rewrite occursAt_S.
      by apply lastIndexOf_None.
Qed.

Lemma firstAt_unique (p s : string) i j :
  firstAt p s i → firstAt p s j → i = j.
Proof.
  intros [Hi Hmin_i] [Hj Hmin_j].
  destruct (Nat.lt_trichotomy i j) as [Hlt | [Heq | Hgt]]; [| done |].
  - by destruct (Hmin_j i Hlt).
  - by destruct (Hmin_i j Hgt).
Qed.

Lemma lastAt_unique (p s : string) i j :
  lastAt p s i → lastAt p s j → i = j.
Proof.
  intros [Hi Hmax_i] [Hj Hmax_j].
  destruct (Nat.lt_trichotomy i j) as [Hlt | [Heq | Hgt]]; [| done |].
  - by destruct (Hmax_i j Hlt).
  - by destruct (Hmax_j i Hgt).
Qed.

(** The searches find the first and the last occurrence, and find one
    whenever there is one. *)
Lemma indexOf_spec (p s : string) i :
  JsString.indexOf p s = Some i ↔ firstAt p s i.
Proof.
  split; [apply indexOf_firstAt |]. intros Hfirst.
  destruct (JsString.indexOf p s) as [i' |] eqn:Hi.
  - f_equal. eapply firstAt_unique; [by apply indexOf_firstAt | done].
  - destruct Hfirst as [Hocc _]. by destruct (indexOf_None p s Hi i).
Qed.

Lemma lastIndexOf_spec (p s : string) i :
  JsString.lastIndexOf p s = Some i ↔ lastAt p s i.
Proof.
  split; [apply lastIndexOf_lastAt |]. intros Hlast.
  destruct (JsString.lastIndexOf p s) as [i' |] eqn:Hi.
  - f_equal. eapply lastAt_unique; [by apply lastIndexOf_lastAt | done].
  - destruct Hlast as [Hocc _]. by destruct (lastIndexOf_None p s Hi i).
Qed.

(** ** Response extractor: the claims *)

Lemma fenceMatch_spec (text body : string) :
  fenceMatch text = Some body ↔ fencedInterior text body.
Proof.
  unfold fenceMatch, fencedInterior, JsString.slice. split.
  - destruct (JsString.indexOf FENCE_OPEN text) as [p |] eqn:Hp; [| done].
    destruct (JsString.indexOf FENCE_CLOSE _) as [q |] eqn:Hq; [| done].
    intros [= <-]. exists p, q.
    split; [by apply indexOf_spec |]. split; [by apply indexOf_spec |].
    f_equal. lia.
  - intros (p & q & Hp%indexOf_spec & Hq%indexOf_spec & ->).
    rewrite Hp, Hq. do 2 f_equal. lia.
Qed.

Lemma braceSlice_spec (text : string) :
  match braceSlice text with
  | Some r =>
      ∃ i j, firstAt "{" text i ∧ lastAt "}" text j ∧ (i < j)%nat ∧
             r = JsString.slice i (j + 1) text
  | None => ∀ i j, firstAt "{" text i → lastAt "}" text j → ¬ (i < j)%nat
  end.
Proof.
  unfold braceSlice.
  destruct (JsString.indexOf "{" text) as [i |] eqn:Hi.
  - destruct (JsString.lastIndexOf "}" text) as [j |] eqn:Hj.
    + apply indexOf_spec in Hi. apply lastIndexOf_spec in Hj.
      destruct (i <? j)%nat eqn:Hlt.
      * apply Nat.ltb_lt in Hlt. by exists i, j.
      * apply Nat.ltb_ge in Hlt. intros i' j' Hi' Hj'.
        rewrite (firstAt_unique _ _ _ _ Hi' Hi), (lastAt_unique _ _ _ _ Hj' Hj).
        lia.
    + intros i' j' _ [Hocc _]. by destruct (lastIndexOf_None _ _ Hj j').
  - intros i' j' [Hocc _] _. by destruct (indexOf_None _ _ Hi i').
Qed.

Lemma extractJson_unfold (text : string) :
  extractJson text =
  if JsString.truthy_opt (fenceMatch text)
  then JsString.trim <$> fenceMatch text
  else braceSlice text.
Proof. unfold extractJson. by destruct text. Qed.

Lemma truthy_nonempty (s : string) :
  JsString.truthy s = true ↔ s ≠ EmptyString.
Proof. by destruct s. Qed.

Lemma Extraction_extractJson (text : string) : Extraction text (extractJson text).
Proof.
  rewrite extractJson_unfold.
  destruct (fenceMatch text) as [body |] eqn:Hfence; cbn [JsString.truthy_opt].
  - destruct (JsString.truthy body) eqn:Hbody.
    + cbn. apply Extraction_fence; [by apply fenceMatch_spec |].
      by apply truthy_nonempty.
    + assert (Hnone : ∀ body', fencedInterior text body' → body' = EmptyString).
      { intros body' Hb%fenceMatch_spec.
        assert (body' = body) as -> by congruence. by destruct body. }
      pose proof (braceSlice_spec text) as Hb.
      destruct (braceSlice text) as [r |].
      * destruct Hb as (i & j & Hi & Hj & Hlt & ->). by eapply Extraction_braces.
      * by apply Extraction_none.
  - assert (Hnone : ∀ body', fencedInterior text body' → body' = EmptyString).
    { intros body' Hb%fenceMatch_spec. congruence. }
    pose proof (braceSlice_spec text) as Hb.
    destruct (braceSlice text) as [r |].
    + destruct Hb as (i & j & Hi & Hj & Hlt & ->). by eapply Extraction_braces.
    + by apply Extraction_none.
Qed.

(** The policy leaves no choice. *)
Lemma Extraction_functional (text : string) r1 r2 :
  Extraction text r1 → Extraction text r2 → r1 = r2.
Proof.
  assert (Hfu : ∀ b1 b2, fencedInterior text b1 → fencedInterior text b2 → b1 = b2).
  { intros b1 b2 H1%fenceMatch_spec H2%fenceMatch_spec. congruence. }
  intros [b1 Hb1 Hne1 | i1 j1 Hno1 Hi1 Hj1 Hlt1 | Hno1 Hnb1]
         [b2 Hb2 Hne2 | i2 j2 Hno2 Hi2 Hj2 Hlt2 | Hno2 Hnb2].
  - by rewrite (Hfu _ _ Hb1 Hb2).
  - by destruct (Hne1 (Hno2 _ Hb1)).
  - by destruct (Hne1 (Hno2 _ Hb1)).
  - by destruct (Hne2 (Hno1 _ Hb2)).
  - by rewrite (firstAt_unique _ _ _ _ Hi1 Hi2), (lastAt_unique _ _ _ _ Hj1 Hj2).
  - by destruct (Hnb2 _ _ Hi1 Hj1).
  - by destruct (Hne2 (Hno1 _ Hb2)).
  - by destruct (Hnb1 _ _ Hi2 Hj2).
  - done.
Qed.

(** C5 (the claim fails on the code, amended).  Claimed: whenever a fenced
    block tagged json exists, its trimmed interior is returned.  A fenced
    block whose interior is empty is passed over: the extractor goes on to
    the braces.  For every text the result is the one the policy
    [Extraction] fixes: the trimmed interior of the fenced block when that
    interior is not empty; otherwise the text from the first opening brace to
    the last closing brace when the first precedes the last; otherwise
    nothing.  The three examples of the claim hold. *)
Theorem extractJson_policy :
  (∀ text r, extractJson text = r ↔ Extraction text r) ∧
  extractJson ("prefix ```json" +:+ LF +:+ "{" +:+ dq +:+ "frames" +:+ dq +:+ ":[]}"
               +:+ LF +:+ "``` suffix")
    = Some ("{" +:+ dq +:+ "frames" +:+ dq +:+ ":[]}") ∧
  extractJson ("foo {" +:+ dq +:+ "a" +:+ dq +:+ ":1} bar")
    = Some ("{" +:+ dq +:+ "a" +:+ dq +:+ ":1}") ∧
  (∀ text,
     (∀ i, ¬ occursAt FENCE_OPEN text i) →
     (∀ i, ¬ occursAt "{" text i) →
     extractJson text = None).
Proof.
  split; [| split; [by vm_compute | split; [by vm_compute |]]].
  - intros text r. split.
    + intros <-. apply Extraction_extractJson.
    + intros Hr. eapply Extraction_functional; [apply Extraction_extractJson | done].
  - intros text Hfence Hbrace.
    pose proof (Extraction_extractJson text) as Hex.
    inversion Hex as [body (p & _ & [Hocc _] & _) _ | i j _ [Hocc _] _ _ |]; [| | done].
    + by destruct (Hfence p).
    + by destruct (Hbrace i).
Qed.

(** C5, the claim as stated fails: the text made of an empty fenced block
    followed by [{}].  A fenced block tagged json exists, and its interior,
    trimmed, is the empty string; the extractor returns [{}]. *)
Lemma empty_fence_counterexample :
  let text := "```json```{}" in
  text = EmptyString +:+ FENCE_OPEN +:+ EmptyString +:+ FENCE_CLOSE +:+ "{}" ∧
  fencedInterior text EmptyString ∧
  extractJson text = Some "{}" ∧
  extractJson text ≠ Some (JsString.trim EmptyString).
Proof.
  cbv zeta. split; [reflexivity |]. split; [| split; [by vm_compute |]].
  - apply fenceMatch_spec. by vm_compute.
  - assert (H : extractJson "```json```{}" = Some "{}") by (by vm_compute).
    rewrite H. discriminate.
Qed.

(** ** What every run keeps, whatever the host does *)

Create HintDb keeps.

Section Preservation.

Variable R : World → World → Prop.
Hypothesis R_refl : ∀ w, R w w.
Hypothesis R_trans : ∀ w1 w2 w3, R w1 w2 → R w2 w3 → R w1 w3.
Hypothesis R_logCall : ∀ c w, R w (logCall c w).
Hypothesis R_updScene : ∀ f w, R w (updScene f w).
Hypothesis R_addFont : ∀ key w, R w (addFont key w).
Hypothesis R_logUI : ∀ m w, isError m = false → R w (logUI m w).

Variable host : Host.

Lemma preserves_ret {A} (a : A) : preserves R (ret a).
Proof. intros w. apply R_refl. Qed.

Lemma preserves_throw {A} e : preserves R (@throw A e).
Proof. intros w. apply R_refl. Qed.

Lemma preserves_liftRes {A} (r : Res A) : preserves R (liftRes r).
Proof. intros w. apply R_refl. Qed.

Lemma preserves_bind {A B} (c : M A) (k : A → M B) :
  preserves R c → (∀ a, preserves R (k a)) → preserves R (bind c k).
Proof.
  intros Hc Hk w. unfold bind. specialize (Hc w).
  destruct (c w) as [[a | e] w1]; cbn in *; [| done].
  eapply R_trans; [exact Hc | apply Hk].
Qed.

Lemma preserves_hostCall c : preserves R (hostCall host c).
Proof. intros w. unfold hostCall. destruct (rejects host (calls w) c); apply R_logCall. Qed.

Lemma preserves_modifyScene f : preserves R (modifyScene f).
Proof. intros w. apply R_updScene. Qed.

Lemma preserves_allocNode t : preserves R (allocNode t).
Proof. intros w. apply R_updScene. Qed.

Lemma preserves_postMessage m : isError m = false → preserves R (postMessage m).
Proof. intros Hm w. by apply R_logUI. Qed.

Hint Resolve preserves_ret preserves_throw preserves_liftRes preserves_hostCall
  preserves_modifyScene preserves_allocNode : keeps.

Ltac keeps :=
  repeat first
    [ apply preserves_bind; [| intros ?]
    | progress eauto with keeps ].

Lemma preserves_createFrame : preserves R (createFrame host).
Proof. unfold createFrame. keeps. Qed.

Lemma preserves_createText : preserves R (createText host).
Proof. unfold createText. keeps. Qed.

Lemma preserves_setProp id prop v : preserves R (setProp host id prop v).
Proof. unfold setProp. keeps. Qed.

Lemma preserves_resize id a b : preserves R (resize host id a b).
Proof. unfold resize. keeps. Qed.

Lemma preserves_appendChild parent child : preserves R (appendChild host parent child).
Proof. unfold appendChild. keeps. Qed.

Lemma preserves_ensureFont style : preserves R (ensureFont host style).
Proof.
  intros w. unfold ensureFont. cbv zeta. case_bool_decide; [apply R_refl |].
  unfold loadFontAsync, bind, hostCall.
  destruct (rejects host (calls w) _); cbn; [apply R_logCall |].
  eapply R_trans; [apply R_logCall | apply R_addFont].
Qed.

Hint Resolve preserves_createFrame preserves_createText preserves_setProp
  preserves_resize preserves_appendChild preserves_ensureFont : keeps.

Lemma preserves_createTextNode parent node :
  preserves R (createTextNode host parent node).
Proof. unfold createTextNode. keeps. Qed.

Lemma preserves_blockHeading node container :
  preserves R (blockHeading host node container).
Proof.
  unfold blockHeading.
  destruct (_ || _); [| keeps].
  destruct (JsString.truthy_opt (n_content node)); keeps.
Qed.

Hint Resolve preserves_createTextNode preserves_blockHeading : keeps.

Lemma preserves_placeNodesFrom nodes :
  Forall (fun node => ∀ x y parent, preserves R (createBlockNodeAt host node x y parent))
    nodes →
  ∀ parent depth index,
    preserves R (placeNodesFrom host (createBlockNodeAt host) parent nodes depth index).
Proof.
  induction 1 as [| node rest Hnode _ IH]; intros parent depth index;
    cbn [placeNodesFrom]; [keeps |].
  apply preserves_bind; [| intros _; apply IH].
  unfold placeNode. case_bool_decide; [keeps |].
  rewrite if_same. apply Hnode.
Qed.

Lemma preserves_createBlockNodeAt node :
  ∀ x y parent, preserves R (createBlockNodeAt host node x y parent).
Proof.
  induction node as [node IH] using BlueprintNode_nested_ind.
  intros x y parent. rewrite createBlockNodeAt_unfold.
  do 15 (apply preserves_bind; [by eauto with keeps | intros ?]).
  apply preserves_bind; [| intros _; keeps].
  unfold childNodes in IH. destruct (n_nodes node) as [nodes |]; [| keeps].
  destruct (0 <? length nodes)%nat; [| keeps].
  by apply preserves_placeNodesFrom.
Qed.

Lemma preserves_placeNodes parent nodes depth :
  preserves R (placeNodes host parent nodes depth).
Proof.
  apply preserves_placeNodesFrom, Forall_forall.
  intros node _. apply preserves_createBlockNodeAt.
Qed.

Hint Resolve preserves_placeNodes : keeps.

Lemma preserves_renderFrames plans :
  ∀ offsetX created, preserves R (renderFrames host plans offsetX created).
Proof.
  induction plans as [| framePlan rest IH]; intros offsetX created;
    cbn [renderFrames]; [keeps |].
  do 6 (apply preserves_bind; [by eauto with keeps | intros ?]).
  apply preserves_bind; [destruct (JsString.truthy_opt _); keeps | intros _].
  apply preserves_bind; [keeps | intros _]. apply IH.
Qed.

Lemma preserves_renderBlueprint blueprint mode :
  preserves R (renderBlueprint host blueprint mode).
Proof.
  unfold renderBlueprint. destruct (frames blueprint); [| keeps].
  apply preserves_bind; [apply preserves_renderFrames | intros created]. keeps.
Qed.

Lemma preserves_callGemini apiKey prompt :
  preserves R (callGemini host apiKey prompt).
Proof.
  unfold callGemini. cbv zeta.
  apply preserves_bind; [keeps | intros _].
  destruct (negb _); [keeps |].
  apply preserves_bind; [keeps | intros payload].
  destruct (negb _); keeps.
Qed.

Lemma preserves_generationFlow apiKey params :
  preserves R (generationFlow host apiKey params).
Proof.
  unfold generationFlow. cbv zeta.
  apply preserves_bind; [apply preserves_callGemini | intros blueprint].
  destruct (noFrames blueprint); [keeps |].
  apply preserves_bind; [by apply preserves_postMessage | intros _].
  apply preserves_bind.
  { destruct blueprint; [apply preserves_renderBlueprint | keeps]. }
  intros created. keeps. by apply preserves_postMessage.
Qed.

(** From the request on, the remote call keeps the relation. *)
Lemma callGemini_after_fetch apiKey prompt w :
  R (logCall (Fetch (API_URL apiKey) (requestInit prompt)) w)
    (snd (callGemini host apiKey prompt w)).
Proof.
  unfold callGemini. cbv zeta. unfold bind at 1, hostCall.
  destruct (rejects host (calls w) _); [apply R_refl |].
  match goal with |- R ?W (snd (?c ?W)) => enough (preserves R c) by done end.
  destruct (negb _); [keeps |].
  apply preserves_bind; [keeps | intros payload].
  destruct (negb _); keeps.
Qed.

Lemma generationFlow_after_fetch apiKey params w :
  R (logCall
       (Fetch (API_URL apiKey)
          (requestInit
             (buildPrompt (prompt params) (mode params)
                (JsVal.or_else (frameCount params) (JNum 3))))) w)
    (snd (generationFlow host apiKey params w)).
Proof.
  unfold generationFlow. cbv zeta. unfold bind at 1.
  pose proof (callGemini_after_fetch apiKey
                (buildPrompt (prompt params) (mode params)
                   (JsVal.or_else (frameCount params) (JNum 3))) w) as Hcall.
  destruct (callGemini host apiKey _ w) as [[blueprint | e] w1]; cbn in *;
    [| done].
  eapply R_trans; [exact Hcall |].
  match goal with |- R ?W (snd (?c ?W)) => enough (preserves R c) by done end.
  destruct (noFrames blueprint); [keeps |].
  apply preserves_bind; [by apply preserves_postMessage | intros _].
  apply preserves_bind.
  { destruct blueprint; [apply preserves_renderBlueprint | keeps]. }
  intros created. keeps. by apply preserves_postMessage.
Qed.

End Preservation.

Lemma callsGrow_refl w : callsGrow w w.
Proof. by exists []. Qed.

Lemma callsGrow_trans w1 w2 w3 : callsGrow w1 w2 → callsGrow w2 w3 → callsGrow w1 w3.
Proof.
  intros [l1 H1] [l2 H2]. exists (l2 ++ l1). by rewrite H2, H1, app_assoc.
Qed.

Lemma generationFlow_callsGrow host apiKey params w :
  callsGrow
    (logCall
       (Fetch (API_URL apiKey)
          (requestInit
             (buildPrompt (prompt params) (mode params)
                (JsVal.or_else (frameCount params) (JNum 3))))) w)
    (snd (generationFlow host apiKey params w)).
Proof.
  apply generationFlow_after_fetch.
  - apply callsGrow_refl.
  - apply callsGrow_trans.
  - intros c w0. by exists [c].
  - intros f w0. by exists [].
  - intros key w0. by exists [].
  - intros m w0 _. by exists [].
Qed.


(** ** Generation flow: the claims *)

Lemma generateDesign_enters_flow host params w apiKey w0 :
  JsString.truthy (prompt params) = true →
  resolveApiKey host params (logUI (Status MSG_PREPARING "info" "busy") w)
    = (Ok (Some apiKey), w0) →
  JsString.truthy apiKey = true →
  generateDesign host params w =
  tryCatch (generationFlow host apiKey params) (onError) w0.
Proof.
  intros Hprompt Hkey Htruthy. unfold generateDesign. rewrite Hprompt.
  cbn [negb]. unfold bind at 1, notifyUI, postMessage. unfold bind at 1.
  rewrite Hkey. cbn [JsString.truthy_opt default]. by rewrite Htruthy.
Qed.

(** The key lookup leaves the document and the messages alone. *)
Lemma resolveApiKey_effect host params w r w0 :
  resolveApiKey host params w = (r, w0) →
  scene w0 = scene w ∧ ui w0 = ui w ∧
  (calls w0 = calls w ∨ calls w0 = GetAsync "geminiApiKey" :: calls w).
Proof.
  unfold resolveApiKey. cbv zeta.
  destruct (JsString.truthy_opt _).
  - intros [= _ <-]. auto.
  - unfold bind, hostCall. destruct (rejects host _ _); intros [= _ <-]; auto.
Qed.



(** Only the key lookup, which precedes the flow, can make [generateDesign]
    throw. *)
Lemma generateDesign_throws_only_at_key_lookup host params w e w' :
  generateDesign host params w = (Throw e, w') →
  resolveApiKey host params (logUI (Status MSG_PREPARING "info" "busy") w)
    = (Throw e, w').
Proof.
  unfold generateDesign. destruct (negb _); [done |].
  unfold bind at 1, notifyUI, postMessage. unfold bind at 1.
  destruct (resolveApiKey host params _) as [[apiKey | e0] w0];
    [| by intros [= -> ->]].
  destruct (negb _); [done |].
  unfold tryCatch. by destruct (generationFlow host _ params w0) as [[[] | e1] w1].
Qed.

(** C8.  A generation attempt that gets as far as a parsed blueprint whose
    frames are missing or empty: [generateDesign] returns, the last message
    posted is the generation-error that asks to refine the request, the
    document is unchanged and the only host calls made are the key lookup,
    if any, and the request: no frame container is created. *)
Theorem empty_frames_is_a_generation_error
    host params w apiKey w0 payload jsonText blueprint :
  let url := API_URL apiKey in
  let init :=
    requestInit
      (buildPrompt (prompt params) (mode params)
         (JsVal.or_else (frameCount params) (JNum 3))) in
  JsString.truthy (prompt params) = true →
  resolveApiKey host params (logUI (Status MSG_PREPARING "info" "busy") w)
    = (Ok (Some apiKey), w0) →
  JsString.truthy apiKey = true →
  rejects host (calls w0) (Fetch url init) = None →
  resp_ok (remote host url init) = true →
  resp_json (remote host url init) = Ok payload →
  extractJson (combinedText payload) = Some jsonText →
  JsString.truthy jsonText = true →
  JSON_parse host jsonText = Ok (Some blueprint) →
  frames blueprint = None ∨ frames blueprint = Some [] →
  ∃ w',
    generateDesign host params w = (Ok tt, w') ∧
    ui w' = [GenerationError MSG_EMPTY; Status MSG_PREPARING "info" "busy"] ++ ui w ∧
    scene w' = scene w ∧
    calls w' = Fetch url init :: calls w0 ∧
    (calls w0 = calls w ∨ calls w0 = GetAsync "geminiApiKey" :: calls w).
Proof.
  intros url init Hprompt Hkey Htruthy Hfetch Hok Hjson Hextract Hjt Hparse Hframes.
  rewrite (generateDesign_enters_flow _ _ _ _ _ Hprompt Hkey Htruthy).
  destruct (resolveApiKey_effect _ _ _ _ _ Hkey) as (Hscene & Hui & Hcalls).
  cbn [scene ui logUI] in Hscene, Hui.
  unfold tryCatch, generationFlow. cbv zeta. unfold bind at 1.
  unfold callGemini. cbv zeta. fold url init. unfold bind at 1, hostCall.
  rewrite Hfetch, Hok. cbn [negb]. unfold bind at 1, liftRes.
  rewrite Hjson, Hextract. cbn [JsString.truthy_opt default id]. rewrite Hjt.
  cbn [negb]. rewrite Hparse.
  assert (Hno : noFrames (Some blueprint) = true)
    by (unfold noFrames; by destruct Hframes as [-> | ->]).
  rewrite Hno. unfold throw, onError, postMessage. cbv zeta.
  eexists. split; [reflexivity |]. cbn [ui scene calls logUI logCall errorText].
  rewrite Hui, Hscene. by repeat split.
Qed.

Lemma empty_frames_is_a_generation_error_witness :
  ∃ w',
    generateDesign emptyFramesHost (demoParams (JNum 2)) initialWorld = (Ok tt, w') ∧
    ui w' = [GenerationError MSG_EMPTY; Status MSG_PREPARING "info" "busy"]
              ++ ui initialWorld ∧
    scene w' = scene initialWorld ∧
    calls w' =
      Fetch (API_URL "key")
        (requestInit (buildPrompt "landing page" "screen" (JNum 2)))
      :: calls (logUI (Status MSG_PREPARING "info" "busy") initialWorld) ∧
    (calls (logUI (Status MSG_PREPARING "info" "busy") initialWorld)
       = calls initialWorld ∨
     calls (logUI (Status MSG_PREPARING "info" "busy") initialWorld)
       = GetAsync "geminiApiKey" :: calls initialWorld).
Proof.
  apply (empty_frames_is_a_generation_error emptyFramesHost (demoParams (JNum 2))
           initialWorld "key"
           (logUI (Status MSG_PREPARING "info" "busy") initialWorld)
           (Some (mkPayload
                    (Some [mkCandidate
                             (Some (mkContent (Some [mkPart (Some "{ }")])))])))
           "{ }" (mkBlueprint (Some []))).
  - reflexivity.
  - reflexivity.
  - reflexivity.
  - reflexivity.
  - reflexivity.
  - reflexivity.
  - by vm_compute.
  - reflexivity.
  - reflexivity.
  - by right.
Defined.

Lemma falsy_values (v : JsVal) :
  JsVal.truthy v = false ↔
  v = JUndefined ∨ v = JNull ∨ v = JBool false ∨ v = JNaN ∨ v = JNum 0 ∨
  v = JStr EmptyString.
Proof.
  split.
  - destruct v as [| | [] | | z | s]; cbn; try discriminate; auto 7.
    + intros Hz. apply negb_false_iff, Z.eqb_eq in Hz. subst. auto 7.
    + destruct s; [auto 7 | discriminate].
  - intros [-> | [-> | [-> | [-> | [-> | ->]]]]]; reflexivity.
Qed.




(** * Further properties of the code *)

(** ** Color codec *)

Lemma band_255_range (a : Z) : 0 <= JsNumber.band a 255 <= 255.
Proof.
  unfold JsNumber.band. change 255 with (Z.ones 8) at 1 2.
  rewrite Z.land_ones by lia. pose proof (Z.mod_pos_bound a (2 ^ 8)). lia.
Qed.

Lemma byte_over_255_range (k : Z) :
  0 <= k <= 255 → (0 <= inject_Z k / 255)%Q ∧ (inject_Z k / 255 <= 1)%Q.
Proof.
  intros Hk. unfold Qle, Qdiv, Qmult, Qinv, inject_Z; cbn. split; lia.
Qed.

(** Whatever the string, the codec returns: each channel is a byte over 255,
    so it lies between 0 and 1. *)
Theorem hexToRgb_channels_in_range (hex : string) :
  (∃ red green blue,
     0 <= red <= 255 ∧ 0 <= green <= 255 ∧ 0 <= blue <= 255 ∧
     hexToRgb hex = rgbOfBytes red green blue) ∧
  (0 <= r (hexToRgb hex))%Q ∧ (r (hexToRgb hex) <= 1)%Q ∧
  (0 <= g (hexToRgb hex))%Q ∧ (g (hexToRgb hex) <= 1)%Q ∧
  (0 <= b (hexToRgb hex))%Q ∧ (b (hexToRgb hex) <= 1)%Q.
Proof.
  unfold hexToRgb. cbv zeta. cbn [r g b].
  set (v := JsNumber.toInt32 _).
  pose proof (band_255_range (JsNumber.sar v 16)) as Hr.
  pose proof (band_255_range (JsNumber.sar v 8)) as Hg.
  pose proof (band_255_range v) as Hb.
  split.
  - eexists _, _, _. split; [exact Hr |]. split; [exact Hg |].
    split; [exact Hb | reflexivity].
  - destruct (byte_over_255_range _ Hr), (byte_over_255_range _ Hg),
      (byte_over_255_range _ Hb). by repeat split.
Qed.

(** What a hexadecimal digit is not. *)
Lemma hexDigit_facts (c : ascii) (d : Z) :
  JsNumber.hexDigit c = Some d →
  0 <= d <= 15 ∧
  JsString.isWhiteSpace c = false ∧
  Ascii.eqb "#" c = false ∧
  Ascii.eqb "x" c = false ∧ Ascii.eqb "X" c = false ∧
  (c = "0"%char ∨ (c ≠ "-"%char ∧ c ≠ "+"%char ∧ c ≠ "0"%char)).
Proof.
  destruct c as [[] [] [] [] [] [] [] []]; vm_compute; intros [= <-];
    (repeat split; try discriminate; try reflexivity);
    first [ left; reflexivity | right; repeat split; discriminate ].
Qed.

Lemma round53_small (v : Z) : 0 <= v < 2 ^ 53 → JsNumber.round53 v = v.
Proof.
  intros Hv. unfold JsNumber.round53. cbv zeta.
  destruct (Z.eq_dec v 0) as [-> | Hnz]; [reflexivity |].
  assert (Z.log2 v < 53) by (apply Z.log2_lt_pow2; lia).
  by rewrite (proj2 (Z.leb_le _ _)) by lia.
Qed.

Lemma toInt32_small (v : Z) : 0 <= v < 2 ^ 31 → JsNumber.toInt32 (Some v) = v.
Proof.
  intros Hv. unfold JsNumber.toInt32. rewrite Z.mod_small; lia.
Qed.

(** A number that starts with two hexadecimal digits is read without sign
    and without prefix. *)
Lemma parseInt16_digits (c1 c2 : ascii) (d1 d2 : Z) (s : string) :
  JsNumber.hexDigit c1 = Some d1 →
  JsNumber.hexDigit c2 = Some d2 →
  JsNumber.parseInt16 (String c1 (String c2 s)) =
  (fun m => 1 * JsNumber.round53 m) <$>
    JsNumber.hexPrefix None (String c1 (String c2 s)).
Proof.
  intros H1 H2.
  destruct (hexDigit_facts _ _ H1) as (_ & Hws1 & _ & _ & _ & Hc1).
  destruct (hexDigit_facts _ _ H2) as (_ & _ & _ & Hx & HX & _).
  unfold JsNumber.parseInt16. cbn [JsString.trimStart]. rewrite Hws1.
  destruct Hc1 as [-> | (Hm & Hp & H0)].
  - cbn [JsString.startsWith]. rewrite Hx, HX. reflexivity.
  - assert (Hsign :
      match String c1 (String c2 s) with
      | String "-" rest => (-1, rest)
      | String "+" rest => (1, rest)
      | _ => (1, String c1 (String c2 s))
      end = (1, String c1 (String c2 s))).
    { clear -Hm Hp. destruct c1 as [[] [] [] [] [] [] [] []]; try reflexivity;
        congruence. }
    rewrite Hsign. cbn [JsString.startsWith].
    rewrite (proj2 (Ascii.eqb_neq "0" c1)) by congruence. reflexivity.
Qed.

(** The 24-bit value of six digits splits into its three bytes. *)
Lemma three_bytes (d1 d2 d3 d4 d5 d6 : Z) :
  0 <= d1 <= 15 → 0 <= d2 <= 15 → 0 <= d3 <= 15 →
  0 <= d4 <= 15 → 0 <= d5 <= 15 → 0 <= d6 <= 15 →
  let v := 16 * (16 * (16 * (16 * (16 * (16 * 0 + d1) + d2) + d3) + d4) + d5) + d6 in
  0 <= v < 2 ^ 24 ∧
  JsNumber.band (JsNumber.sar v 16) 255 = 16 * d1 + d2 ∧
  JsNumber.band (JsNumber.sar v 8) 255 = 16 * d3 + d4 ∧
  JsNumber.band v 255 = 16 * d5 + d6.
Proof.
  intros H1 H2 H3 H4 H5 H6 v. unfold JsNumber.band, JsNumber.sar.
  change (Z.land 16 31) with 16. change (Z.land 8 31) with 8.
  change 255 with (Z.ones 8). rewrite !Z.land_ones by lia.
  rewrite !Z.shiftr_div_pow2 by lia.
  change (2 ^ 16) with 65536. change (2 ^ 8) with 256. change (2 ^ 24) with 16777216.
  subst v. split; [lia |].
  repeat split; Z.div_mod_to_equations; lia.
Qed.

Lemma decode_six (c1 c2 c3 c4 c5 c6 : ascii) (d1 d2 d3 d4 d5 d6 : Z) :
  JsNumber.hexDigit c1 = Some d1 → JsNumber.hexDigit c2 = Some d2 →
  JsNumber.hexDigit c3 = Some d3 → JsNumber.hexDigit c4 = Some d4 →
  JsNumber.hexDigit c5 = Some d5 → JsNumber.hexDigit c6 = Some d6 →
  hexToRgb (stringOf [c1; c2; c3; c4; c5; c6]) =
  rgbOfBytes (16 * d1 + d2) (16 * d3 + d4) (16 * d5 + d6).
Proof.
  intros H1 H2 H3 H4 H5 H6.
  destruct (hexDigit_facts _ _ H1) as (B1 & W1 & N1 & _).
  destruct (hexDigit_facts _ _ H2) as (B2 & W2 & N2 & _).
  destruct (hexDigit_facts _ _ H3) as (B3 & W3 & N3 & _).
  destruct (hexDigit_facts _ _ H4) as (B4 & W4 & N4 & _).
  destruct (hexDigit_facts _ _ H5) as (B5 & W5 & N5 & _).
  destruct (hexDigit_facts _ _ H6) as (B6 & W6 & N6 & _).
  unfold hexToRgb, JsString.replace, JsString.trim. cbv zeta.
  cbn [stringOf JsString.indexOf JsString.startsWith].
  rewrite N1, N2, N3, N4, N5, N6. cbn [andb fmap option_fmap option_map].
  cbn [JsString.trimStart]. rewrite W1.
  cbn [JsString.trimEnd]. rewrite W6. cbn [String.length Nat.eqb].
  rewrite (parseInt16_digits _ _ _ _ _ H1 H2).
  cbn [JsNumber.hexPrefix]. rewrite H1, H2, H3, H4, H5, H6.
  cbn [default fmap option_fmap option_map id].
  destruct (three_bytes d1 d2 d3 d4 d5 d6 B1 B2 B3 B4 B5 B6) as (Hv & Hr & Hg & Hb).
  cbv zeta in Hv, Hr, Hg, Hb.
  rewrite round53_small by lia. rewrite Z.mul_1_l.
  rewrite toInt32_small by lia.
  unfold rgbOfBytes. by rewrite Hr, Hg, Hb.
Qed.

(** Six hexadecimal digits decode pairwise: the first two are the red byte,
    the next two the green byte, the last two the blue byte. *)
Theorem hexToRgb_six_digits (c1 c2 c3 c4 c5 c6 : ascii) (d1 d2 d3 d4 d5 d6 : Z) :
  JsNumber.hexDigit c1 = Some d1 → JsNumber.hexDigit c2 = Some d2 →
  JsNumber.hexDigit c3 = Some d3 → JsNumber.hexDigit c4 = Some d4 →
  JsNumber.hexDigit c5 = Some d5 → JsNumber.hexDigit c6 = Some d6 →
  hexToRgb (stringOf [c1; c2; c3; c4; c5; c6]) =
  rgbOfBytes (16 * d1 + d2) (16 * d3 + d4) (16 * d5 + d6).
Proof. apply decode_six. Qed.

Lemma hexToRgb_six_digits_witness :
  hexToRgb (stringOf ["0"; "b"; "0"; "d"; "1"; "1"]%char) =
  rgbOfBytes (16 * 0 + 11) (16 * 0 + 13) (16 * 1 + 1).
Proof.
  apply (hexToRgb_six_digits "0" "b" "0" "d" "1" "1" 0 11 0 13 1 1);
    reflexivity.
Defined.

Lemma indexOf_absent (p s : string) :
  (∀ i, ¬ occursAt p s i) → JsString.indexOf p s = None.
Proof.
  intros Habs. destruct (JsString.indexOf p s) as [i |] eqn:Hi; [| done].
  apply indexOf_firstAt in Hi as [Hocc _]. by destruct (Habs i).
Qed.

(** The leading [#] is optional: a string without [#] decodes the same
    with one in front. *)
Theorem hexToRgb_hash_optional (s : string) :
  (∀ i, ¬ occursAt "#" s i) →
  hexToRgb ("#" +:+ s) = hexToRgb s.
Proof.
  intros Habs. unfold hexToRgb, JsString.replace.
  rewrite (indexOf_absent _ _ Habs).
  change ("#" +:+ s) with (String "#" s).
  cbn [JsString.indexOf JsString.startsWith Ascii.eqb Bool.eqb andb].
  cbn [JsString.take JsString.drop String.length Nat.add].
  by rewrite !append_nil.
Qed.

Lemma hexToRgb_hash_optional_witness :
  hexToRgb ("#" +:+ "e9edf5") = hexToRgb "e9edf5".
Proof.
  apply hexToRgb_hash_optional. apply indexOf_None. reflexivity.
Defined.

(** Three hexadecimal digits are read as the three digits written twice:
    the red byte is made of the first and second digit, the green byte of
    the third and first, the blue byte of the second and third. *)
Theorem hexToRgb_three_digits (c1 c2 c3 : ascii) (d1 d2 d3 : Z) :
  JsNumber.hexDigit c1 = Some d1 → JsNumber.hexDigit c2 = Some d2 →
  JsNumber.hexDigit c3 = Some d3 →
  hexToRgb (stringOf [c1; c2; c3]) = hexToRgb (stringOf [c1; c2; c3; c1; c2; c3]) ∧
  hexToRgb (stringOf [c1; c2; c3]) =
    rgbOfBytes (16 * d1 + d2) (16 * d3 + d1) (16 * d2 + d3).
Proof.
  intros H1 H2 H3.
  assert (Hsix := decode_six c1 c2 c3 c1 c2 c3 _ _ _ _ _ _ H1 H2 H3 H1 H2 H3).
  assert (Hsame : hexToRgb (stringOf [c1; c2; c3]) =
                  hexToRgb (stringOf [c1; c2; c3; c1; c2; c3])).
  { clear Hsix.
    destruct (hexDigit_facts _ _ H1) as (_ & W1 & N1 & _).
    destruct (hexDigit_facts _ _ H2) as (_ & _ & N2 & _).
    destruct (hexDigit_facts _ _ H3) as (_ & W3 & N3 & _).
    unfold hexToRgb, JsString.replace, JsString.trim. cbv zeta.
    cbn [stringOf JsString.indexOf JsString.startsWith].
    rewrite N1, N2, N3. cbn [andb fmap option_fmap option_map].
    cbn [JsString.trimStart]. rewrite W1.
    cbn [JsString.trimEnd]. rewrite W3. cbn [String.length Nat.eqb].
    cbn [JsString.repeat]. by rewrite !append_cons, !append_nil. }
  split; [exact Hsame | by rewrite Hsame].
Qed.

Lemma hexToRgb_three_digits_witness :
  hexToRgb (stringOf ["f"; "0"; "0"]%char) =
    hexToRgb (stringOf ["f"; "0"; "0"; "f"; "0"; "0"]%char) ∧
  hexToRgb (stringOf ["f"; "0"; "0"]%char) =
    rgbOfBytes (16 * 15 + 0) (16 * 0 + 15) (16 * 0 + 0).
Proof.
  apply (hexToRgb_three_digits "f" "0" "0" 15 0 0); reflexivity.
Defined.

(** ** Font cache *)

(** Once a font-ensuring call has returned, the style is in the cache and
    the same call again does nothing at all: no host call, no change of the
    world.  This holds for every host. *)
Theorem ensureFont_idempotent host style w w1 :
  ensureFont host style w = (Ok tt, w1) →
  fontKey style ∈ loadedFonts w1 ∧
  ensureFont host style w1 = (Ok tt, w1).
Proof.
  unfold ensureFont, fontKey. cbv zeta. case_bool_decide as Hin.
  - intros [= <-]. split; [done |]. by rewrite bool_decide_eq_true_2.
  - unfold loadFontAsync, bind, hostCall.
    destruct (rejects host (calls w) _); [done |]. intros [= <-].
    assert (Hnew : "Inter-" +:+ style ∈ loadedFonts
                     (addFont ("Inter-" +:+ style)
                        (logCall (LoadFontAsync "Inter" style) w)))
      by (cbn [loadedFonts addFont]; apply elem_of_union; left;
          by apply elem_of_singleton).
    split; [exact Hnew |]. by rewrite bool_decide_eq_true_2.
Qed.

Lemma ensureFont_idempotent_witness :
  fontKey "Bold" ∈ loadedFonts (snd (ensureFont quietHost "Bold" initialWorld)) ∧
  ensureFont quietHost "Bold" (snd (ensureFont quietHost "Bold" initialWorld))
    = (Ok tt, snd (ensureFont quietHost "Bold" initialWorld)).
Proof.
  apply (ensureFont_idempotent quietHost "Bold" initialWorld). reflexivity.
Defined.

(** A load the host rejects is not recorded: the call throws what the host
    threw, the cache and the document are as before, and the next call for
    the style asks the host again. *)
Theorem ensureFont_failure_not_cached host style w e w1 :
  ensureFont host style w = (Throw e, w1) →
  (fontKey style ∉ loadedFonts w) ∧
  rejects host (calls w) (LoadFontAsync "Inter" style) = Some e ∧
  w1 = logCall (LoadFontAsync "Inter" style) w ∧
  loadedFonts w1 = loadedFonts w ∧
  scene w1 = scene w ∧
  calls (snd (ensureFont host style w1)) = LoadFontAsync "Inter" style :: calls w1.
Proof.
  unfold ensureFont, fontKey. cbv zeta. case_bool_decide as Hin; [done |].
  unfold loadFontAsync, bind, hostCall.
  destruct (rejects host (calls w) _) as [e0 |] eqn:Hrej; [| done].
  intros [= <- <-]. split; [done |]. split; [done |]. split; [done |].
  split; [done |]. split; [done |].
  cbn [loadedFonts logCall]. rewrite bool_decide_eq_false_2 by done.
  cbn [calls logCall]. by destruct (rejects host (_ :: _) _).
Qed.

Lemma ensureFont_failure_not_cached_witness :
  let w1 := snd (ensureFont noFontHost "Medium" initialWorld) in
  (fontKey "Medium" ∉ loadedFonts initialWorld) ∧
  rejects noFontHost (calls initialWorld) (LoadFontAsync "Inter" "Medium")
    = Some (ErrorObj "The font could not be loaded") ∧
  w1 = logCall (LoadFontAsync "Inter" "Medium") initialWorld ∧
  loadedFonts w1 = loadedFonts initialWorld ∧
  scene w1 = scene initialWorld ∧
  calls (snd (ensureFont noFontHost "Medium" w1))
    = LoadFontAsync "Inter" "Medium" :: calls w1.
Proof.
  apply (ensureFont_failure_not_cached noFontHost "Medium" initialWorld
           (ErrorObj "The font could not be loaded")).
  reflexivity.
Defined.

Section WholeCall.

Variable R : World → World → Prop.
Hypothesis R_refl : ∀ w, R w w.
Hypothesis R_trans : ∀ w1 w2 w3, R w1 w2 → R w2 w3 → R w1 w3.
Hypothesis R_logCall : ∀ c w, R w (logCall c w).
Hypothesis R_updScene : ∀ f w, R w (updScene f w).
Hypothesis R_addFont : ∀ key w, R w (addFont key w).
Hypothesis R_logUI : ∀ m w, R w (logUI m w).

Variable host : Host.

(** A relation that every step keeps is kept by the whole of
    [generateDesign], whichever way it ends. *)
Lemma preserves_generateDesign params : preserves R (generateDesign host params).
Proof.
  intros w. unfold generateDesign.
  destruct (negb (JsString.truthy (prompt params))); [apply R_logUI |].
  unfold bind at 1, notifyUI, postMessage. cbn [fst snd].
  eapply R_trans; [apply (R_logUI (Status MSG_PREPARING "info" "busy")) |].
  unfold bind.
  assert (Hkey : preserves R (resolveApiKey host params)).
  { unfold resolveApiKey. cbv zeta. destruct (JsString.truthy_opt _).
    - by apply preserves_ret.
    - apply preserves_bind; [done | by apply preserves_hostCall |].
      intros _. by apply preserves_ret. }
  specialize (Hkey (logUI (Status MSG_PREPARING "info" "busy") w)).
  destruct (resolveApiKey host params _) as [[apiKey | e] w0]; cbn [snd] in *;
    [| done].
  eapply R_trans; [exact Hkey |].
  destruct (negb (JsString.truthy_opt apiKey)); [apply R_logUI |].
  unfold tryCatch.
  pose proof (preserves_generationFlow R R_refl R_trans R_logCall R_updScene
                R_addFont (fun m w _ => R_logUI m w) host
                (default EmptyString apiKey) params w0) as Hflow.
  destruct (generationFlow host _ params w0) as [[[] | e] w1]; cbn [snd] in *;
    [done |].
  eapply R_trans; [exact Hflow | apply R_logUI].
Qed.

End WholeCall.

(** Nothing ever leaves the font cache: whatever the host does and however
    the generation ends, every style cached before is cached after. *)
Theorem generateDesign_cache_grows host params w :
  loadedFonts w ⊆ loadedFonts (snd (generateDesign host params w)).
Proof.
  apply (preserves_generateDesign cacheGrows); unfold cacheGrows; try done.
  - intros w1 w2 w3 H12 H23. by etrans.
  - intros key w0. cbn [loadedFonts addFont]. apply union_subseteq_r.
Qed.

(** ** Text node renderer *)

Lemma cacheGrows_refl w : cacheGrows w w.
Proof. by unfold cacheGrows. Qed.

Lemma cacheGrows_trans w1 w2 w3 :
  cacheGrows w1 w2 → cacheGrows w2 w3 → cacheGrows w1 w3.
Proof. unfold cacheGrows. intros H12 H23. by etrans. Qed.

Lemma cacheGrows_addFont key w : cacheGrows w (addFont key w).
Proof. unfold cacheGrows. cbn [loadedFonts addFont]. apply union_subseteq_r. Qed.

(** The text renderer makes sure of the font before it touches the
    document: on any host, either the style of the text is in the cache when
    the renderer is done, or the renderer threw and the document is as it
    was. *)
Theorem createTextNode_font_first host parent node w :
  let style := fontStyle (n_fontWeight node) in
  let '(r, w') := createTextNode host parent node w in
  fontKey style ∈ loadedFonts w' ∨
  (scene w' = scene w ∧ ∃ e, r = Throw e).
Proof.
  cbv zeta. unfold createTextNode.
  set (style := fontStyle (n_fontWeight node)).
  match goal with
  | |- context [bind (ensureFont host style) ?k] => set (rest := k)
  end.
  assert (Hrest : preserves cacheGrows (rest tt)).
  { subst rest. cbv beta.
    repeat (apply preserves_bind; [apply cacheGrows_trans | | intros ?]);
      first [ apply preserves_hostCall | apply preserves_modifyScene
            | apply preserves_allocNode ];
      by intros; unfold cacheGrows. }
  unfold bind at 1.
  destruct (ensureFont host style w) as [[[] | e] w1] eqn:Hfont.
  - specialize (Hrest w1). destruct (rest tt w1) as [r w'].
    left. apply Hrest. unfold ensureFont, fontKey in *. cbv zeta in Hfont.
    case_bool_decide as Hin.
    + by injection Hfont as <-.
    + unfold loadFontAsync, bind, hostCall in Hfont.
      destruct (rejects host (calls w) _); [done |]. injection Hfont as <-.
      cbn [loadedFonts addFont]. apply elem_of_union. left.
      by apply elem_of_singleton.
  - right. split; [| by exists e].
    unfold ensureFont in Hfont. cbv zeta in Hfont.
    case_bool_decide; [done |].
    unfold loadFontAsync, bind, hostCall in Hfont.
    destruct (rejects host (calls w) _); [| done]. by injection Hfont as _ <-.
Qed.

(** The text object the renderer makes, under an accepting host: it is the
    new last child of the parent, and it carries the position, size, font
    size and color of the descriptor, with (32, 32), 520 by 120, 16 and
    [#e9edf5] where the descriptor has none.  Its characters are the title,
    a line feed and the content; a missing or empty title gives the content
    alone. *)
Theorem createTextNode_object host parent node w :
  accepting host →
  (parent < length (scene w))%nat →
  wp (createTextNode host parent node) w
    (fun _ w' =>
       let t := length (scene w) in
       let s' := scene w' in
       children s' parent = children (scene w) parent ++ [t] ∧
       nodeType s' t = Some TEXT ∧
       children s' t = [] ∧
       prop s' t "x" = Some (VNum (default 32%Q (n_x node))) ∧
       prop s' t "y" = Some (VNum (default 32%Q (n_y node))) ∧
       prop s' t "width" = Some (VNum (default 520%Q (n_width node))) ∧
       prop s' t "height" = Some (VNum (default 120%Q (n_height node))) ∧
       prop s' t "fontSize" = Some (VNum (default 16%Q (n_fontSize node))) ∧
       prop s' t "fontName" =
         Some (VFontName "Inter" (fontStyle (n_fontWeight node))) ∧
       prop s' t "fills" =
         Some (VPaints [solid (JsString.or_else (n_color node) "#e9edf5")]) ∧
       prop s' t "characters" =
         Some (VStr (if JsString.truthy_opt (n_title node)
                     then default EmptyString (n_title node) +:+ LF
                          +:+ default EmptyString (n_content node)
                     else default EmptyString (n_content node)))).
Proof.
  intros Hacc Hp. unfold createTextNode.
  apply wp_bind, wp_ensureFont; [done |]. intros w1 H1.
  apply wp_bind, wp_createText; [done |].
  do 2 (apply wp_bind, wp_setProp; [done |]).
  apply wp_bind, wp_resize; [done |].
  do 4 (apply wp_bind, wp_setProp; [done |]).
  apply wp_appendChild; [done |].
  cbn [scene updScene logCall]. rewrite H1.
  rewrite !alter_at_length. cbn [alter list_alter].
  rewrite alter_old_app by done. cbv zeta.
  split; [by apply appended_children, appended_alter_app |].
  unfold nodeType, children, prop.
  rewrite list_lookup_middle by (by rewrite length_alter).
  cbn [fmap option_fmap option_map].
  do 9 (split; [prop_lookup |]).
  prop_lookup. destruct (JsString.truthy_opt (n_title node)); [| done].
  by rewrite append_assoc.
Qed.

Lemma createTextNode_object_witness :
  wp (createTextNode quietHost 0
        (mkNode (Some "text") (Some "Title") (Some "Body") None None None None
           None (Some "bold") None None None None None None))
    oneFrameWorld
    (fun _ w' =>
       let t := 1%nat in
       let s' := scene w' in
       children s' 0 = children (scene oneFrameWorld) 0 ++ [t] ∧
       nodeType s' t = Some TEXT ∧
       children s' t = [] ∧
       prop s' t "x" = Some (VNum 32%Q) ∧
       prop s' t "y" = Some (VNum 32%Q) ∧
       prop s' t "width" = Some (VNum 520%Q) ∧
       prop s' t "height" = Some (VNum 120%Q) ∧
       prop s' t "fontSize" = Some (VNum 16%Q) ∧
       prop s' t "fontName" = Some (VFontName "Inter" "Bold") ∧
       prop s' t "fills" = Some (VPaints [solid "#e9edf5"]) ∧
       prop s' t "characters" = Some (VStr ("Title" +:+ LF +:+ "Body"))).
Proof.
  apply (createTextNode_object quietHost 0
           (mkNode (Some "text") (Some "Title") (Some "Body") None None None None
              None (Some "bold") None None None None None None)
           oneFrameWorld).
  - intros h c. reflexivity.
  - cbn. lia.
Defined.

(** ** Block node renderer *)

Lemma or_else_truthy (o : option string) (d : string) :
  JsString.or_else o d =
  if JsString.truthy_opt o then default EmptyString o else d.
Proof. destruct o as [s |]; [| done]. cbn. by destruct (JsString.truthy s). Qed.

Lemma lookup_sole {A} (o : A) : [o] !! 0%nat = Some o.
Proof. reflexivity. Qed.

Lemma props_setObjProp name v o :
  o_props (setObjProp name v o) = <[name := v]> (o_props o).
Proof. reflexivity. Qed.

Lemma type_setObjProp name v o : o_type (setObjProp name v o) = o_type o.
Proof. reflexivity. Qed.

(** Reading a property of an object built by many assignments. *)
Ltac prop_get :=
  rewrite !props_setObjProp;
  repeat (rewrite lookup_insert_ne by discriminate);
  rewrite lookup_insert_eq; reflexivity.

Lemma isText_transfer (s s' : list SceneObj) id chars style size fill :
  s' !! id = s !! id →
  isText s id chars style size fill → isText s' id chars style size fill.
Proof. unfold isText, nodeType, children, prop. by intros ->. Qed.

Lemma headings_transfer (s s' : list SceneObj) node hs :
  (∀ h, h ∈ hs → s' !! h = s !! h) →
  headings s node hs → headings s' node hs.
Proof.
  unfold headings. cbv zeta. intros Hsame.
  destruct (JsString.truthy_opt (n_title node)),
           (JsString.truthy_opt (n_content node)); try done.
  - intros (t & b & -> & Ht & Hb). exists t, b. split; [done |].
    split; eapply isText_transfer; try eassumption;
      apply Hsame; set_solver.
  - intros (t & -> & Ht). exists t. split; [done |].
    eapply isText_transfer; [| exact Ht]. apply Hsame. set_solver.
  - intros (t & b & -> & Ht & Hb). exists t, b. split; [done |].
    split; eapply isText_transfer; try eassumption;
      apply Hsame; set_solver.
Qed.

Section BlockObjects.

Variable host : Host.
Hypothesis Hacc : accepting host.

(** The heading of a block, lines 340-358. *)
Lemma blockHeading_texts node c w :
  (c < length (scene w))%nat →
  wp (blockHeading host node c) w
    (fun _ w' =>
       ∃ hs, appended c hs (scene w) (scene w') ∧
             Forall (fun h => (length (scene w) ≤ h < length (scene w'))%nat) hs ∧
             headings (scene w') node hs).
Proof.
  intros Hc. unfold blockHeading, headings. cbv zeta.
  rewrite (or_else_truthy (n_title node)).
  destruct (JsString.truthy_opt (n_content node)) eqn:Hcontent,
           (JsString.truthy_opt (n_title node)) eqn:Htitle;
    cbn [orb].
  4: { apply wp_ret. exists []. split; [apply appended_nil | by split]. }
  all: apply wp_bind, wp_ensureFont; [done |]; intros w1 H1.
  all: apply wp_bind, wp_createText; [done |].
  all: do 4 (apply wp_bind, wp_setProp; [done |]).
  all: apply wp_bind, wp_appendChild; [done |].
  all: match goal with |- wp _ ?W _ => set (W1 := W) end.
  all: assert (HW1 : ∃ o, scene W1 = alter (addChild (length (scene w))) c (scene w) ++ [o]
                     ∧ isText [o] 0 (default EmptyString (if JsString.truthy_opt (n_title node) then n_title node else None))
                         "Semi Bold" 15 (JsString.or_else (n_color node) "#e9edf5"))
    by (subst W1; cbn [scene updScene logCall]; rewrite H1;
        rewrite !alter_at_length; cbn [alter list_alter];
        rewrite alter_old_app by done; eexists; split; [reflexivity |];
        rewrite Htitle; unfold isText, nodeType, children, prop;
        rewrite !lookup_sole; cbn [fmap option_fmap option_map];
        do 5 (split; [prop_lookup |]); prop_lookup).
  all: clearbody W1; destruct HW1 as (to & HW1 & Hto).
  all: rewrite Htitle in Hto; cbn [default] in Hto.
  all: assert (Happ1 : appended c [length (scene w)] (scene w) (scene W1))
    by (rewrite HW1; by apply appended_alter_app).
  all: assert (Ht : scene W1 !! length (scene w) = Some to)
    by (rewrite HW1; apply list_lookup_middle; by rewrite length_alter).
  all: assert (Hlen1 : length (scene W1) = S (length (scene w)))
    by (rewrite HW1, length_app, length_alter; cbn; lia).
  all: assert (Hto1 : ∀ s, s !! length (scene w) = Some to →
                 ∀ a b cc d, isText [to] 0 a b cc d → isText s (length (scene w)) a b cc d)
    by (intros s Hs a b cc d; unfold isText, nodeType, children, prop;
        by rewrite Hs, !lookup_sole).
  1, 2: apply wp_bind, wp_ensureFont; [done |]; intros w2 H2.
  1, 2: assert (Hc2 : (c < length (scene w2))%nat) by (rewrite H2; lia).
  1, 2: apply wp_bind, wp_createText; [done |].
  1, 2: do 4 (apply wp_bind, wp_setProp; [done |]).
  1, 2: apply wp_appendChild; [done |].
  1, 2: cbn [scene updScene logCall].
  1, 2: rewrite !alter_at_length; cbn [alter list_alter].
  1, 2: rewrite alter_old_app by done.
  1, 2: match goal with
        | |- context [alter _ _ _ ++ [?o]] => set (bo := o)
        end.
  1, 2: assert (Happ2 : appended c [length (scene w2)] (scene W1)
                      (alter (addChild (length (scene w2))) c (scene w2) ++ [bo]))
      by (rewrite <- H2; apply appended_alter_app; exact Hc2).
  1, 2: exists [length (scene w); length (scene w2)]; split; [| split].
  1, 4: by apply (appended_trans c [_] [_] _ (scene W1)).
  1, 3: rewrite length_app, length_alter, H2, Hlen1; cbn;
        constructor; [lia | constructor; [lia | constructor]].
  1, 2: eexists _, _; split; [reflexivity |]; split.
  1, 3: apply Hto1; [| exact Hto];
        eapply appended_keeps; [exact Happ2 | lia | exact Ht].
  1, 2: unfold isText, nodeType, children, prop;
        rewrite list_lookup_middle by (by rewrite length_alter);
        subst bo; cbn [fmap option_fmap option_map];
        do 5 (split; [prop_lookup |]); prop_lookup.
  apply wp_ret. exists [length (scene w)]. split; [done |]. split.
  - constructor; [lia | constructor].
  - eexists. split; [reflexivity |]. by apply Hto1.
Qed.

(** The container, its headings and its children, after the whole of the
    block renderer. *)
Lemma createBlockNodeAt_objects node x y parent w :
  (parent < length (scene w))%nat →
  wp (createBlockNodeAt host node x y parent) w
    (fun _ w' =>
       let c := length (scene w) in
       appended parent [c] (scene w) (scene w') ∧
       containerOf (scene w') c node x y ∧
       ∃ hs ids, children (scene w') c = hs ++ ids ∧
                 headings (scene w') node hs ∧
                 length ids = length (childNodes node)).
Proof.
  intros Hp. rewrite createBlockNodeAt_unfold.
  apply wp_bind, wp_createFrame; [done |].
  apply wp_bind, wp_resize; [done |].
  do 12 (apply wp_bind, wp_setProp; [done |]).
  match goal with |- wp _ ?W _ => set (W1 := W) end.
  assert (HW1 : ∃ o, scene W1 = scene w ++ [o] ∧ o_children o = [] ∧
                     containerOf [o] 0 node x y).
  { subst W1. cbn [scene updScene logCall].
    rewrite !alter_at_length. cbn [alter list_alter].
    eexists. split; [reflexivity |]. split; [done |].
    unfold containerOf, nodeType, prop.
    rewrite !lookup_sole. cbn [fmap option_fmap option_map].
    rewrite (or_else_truthy (n_stroke node)).
    split; [by rewrite !type_setObjProp |]. do 13 (split; [prop_get |]).
    rewrite props_setObjProp, lookup_insert_eq.
    by destruct (JsString.truthy_opt (n_stroke node)). }
  clearbody W1. destruct HW1 as (co & HW1 & Hco_ch & Hco_props).
  set (c := length (scene w)) in *.
  assert (Hc1 : (c < length (scene W1))%nat)
    by (rewrite HW1, length_app; cbn; lia).
  assert (Hlen1 : length (scene W1) = S c)
    by (rewrite HW1, length_app; cbn; lia).
  assert (Hco : scene W1 !! c = Some co)
    by (rewrite HW1; by apply list_lookup_middle).
  assert (Hold1 : ∀ i, (i < c)%nat → scene W1 !! i = scene w !! i)
    by (intros i Hi; rewrite HW1; by apply lookup_app_l).
  apply wp_bind.
  eapply wp_mono; [by apply blockHeading_texts |].
  intros _ w2 (hs & (Hlen2 & Hold2 & Hpar2) & Hhs_range & Hhs).
  apply wp_bind.
  eapply wp_mono.
  { apply blockChildren_spec; [done | | lia].
    apply Forall_forall. intros child _. by apply createBlockNodeAt_spec. }
  intros _ w3 (ids & (Hlen3 & Hold3 & Hpar3) & Hlist).
  apply wp_appendChild; [done |]. cbn [scene updScene logCall]. cbv zeta.
  assert (Hfinal : alter (addChild c) parent (scene w3) !! c
                   = Some (addChildren ids (addChildren hs co))).
  { rewrite list_lookup_alter_ne by lia. by rewrite Hpar3, Hpar2, Hco. }
  split; [split; [| split] | split].
  - rewrite length_alter. lia.
  - intros i Hi Hne. rewrite list_lookup_alter_ne by done.
    rewrite Hold3 by lia. rewrite Hold2 by lia. by apply Hold1.
  - rewrite list_lookup_alter_eq.
    rewrite Hold3 by lia. rewrite Hold2 by lia. by rewrite Hold1.
  - revert Hco_props. unfold containerOf, nodeType, prop.
    rewrite Hfinal, !lookup_sole.
    by cbn [fmap option_fmap option_map addChildren o_props o_type].
  - exists hs, ids. split; [| split].
    + unfold children. rewrite Hfinal. cbn. by rewrite Hco_ch.
    + eapply headings_transfer; [| exact Hhs]. intros h Hh.
      rewrite Forall_forall in Hhs_range. specialize (Hhs_range h Hh).
      rewrite list_lookup_alter_ne by lia. apply Hold3; lia.
    + by eapply RenderedList_length.
Qed.

End BlockObjects.

(** The container the block renderer makes, under an accepting host: a
    frame that is the new last child of the parent, laid out vertically with
    a padding of 16 on every side, and carrying the position, size, corner
    radius, spacing, fill and stroke of the descriptor, with (32, 32), 520 by
    220, 14, 12, [#11141b] and [#1f2633] where the descriptor has none; its
    name is the title, or [Block] when the title is missing or empty. *)
Theorem createBlockNode_container host parent node w :
  accepting host →
  (parent < length (scene w))%nat →
  wp (createBlockNode host parent node) w
    (fun _ w' =>
       let c := length (scene w) in
       children (scene w') parent = children (scene w) parent ++ [c] ∧
       containerOf (scene w') c node
         (default 32%Q (n_x node)) (default 32%Q (n_y node))).
Proof.
  intros Hacc Hp. unfold createBlockNode.
  eapply wp_mono; [by apply createBlockNodeAt_objects |].
  intros _ w' (Happ & Hc & _). split; [by apply appended_children | done].
Qed.

Lemma createBlockNode_container_witness :
  wp (createBlockNode quietHost 0 (bare "card" None)) oneFrameWorld
    (fun _ w' =>
       let c := 1%nat in
       children (scene w') 0 = children (scene oneFrameWorld) 0 ++ [c] ∧
       containerOf (scene w') c (bare "card" None) 32%Q 32%Q).
Proof.
  apply (createBlockNode_container quietHost 0 (bare "card" None) oneFrameWorld).
  - intros h c. reflexivity.
  - cbn. lia.
Defined.

(** The children of a block's container, under an accepting host: first the
    texts made from the block's own title and content, then one child per
    nested descriptor.  A block with neither title nor content gets no text;
    one with a title only gets the title in Semi Bold 15; one with content
    gets a title text, which is empty when the title is missing, and a body
    text with the content in Medium 13. *)
Theorem createBlockNode_headings host parent node w :
  accepting host →
  (parent < length (scene w))%nat →
  wp (createBlockNode host parent node) w
    (fun _ w' =>
       ∃ hs ids,
         children (scene w') (length (scene w)) = hs ++ ids ∧
         headings (scene w') node hs ∧
         length ids = length (childNodes node)).
Proof.
  intros Hacc Hp. unfold createBlockNode.
  eapply wp_mono; [by apply createBlockNodeAt_objects |].
  intros _ w' (_ & _ & Hh). exact Hh.
Qed.

Lemma createBlockNode_headings_witness :
  wp (createBlockNode quietHost 0
        (mkNode (Some "card") None (Some "Body") None None None None None None
           None None None None None (Some [bare "text" None])))
    oneFrameWorld
    (fun _ w' =>
       ∃ hs ids,
         children (scene w') (length (scene oneFrameWorld)) = hs ++ ids ∧
         headings (scene w')
           (mkNode (Some "card") None (Some "Body") None None None None None
              None None None None None None (Some [bare "text" None])) hs ∧
         length ids = 1%nat).
Proof.
  apply (createBlockNode_headings quietHost 0
           (mkNode (Some "card") None (Some "Body") None None None None None
              None None None None None None (Some [bare "text" None]))
           oneFrameWorld).
  - intros h c. reflexivity.
  - cbn. lia.
Defined.

(** ** Tree walker *)

(** The position of every child the walker adds, under an accepting host:
    the child for the descriptor at index [i] of the list is at the
    coordinates of the descriptor where it has them, and otherwise at
    [40 + (i mod 2) * 340 + depth * 16] and [120 + (i / 2) * 220].  The index
    counts every sibling, also those that bring their own coordinates. *)
Theorem placeNodes_child_positions host parent nodes depth w :
  accepting host →
  (parent < length (scene w))%nat →
  wp (placeNodes host parent nodes depth) w
    (fun _ w' =>
       ∃ ids,
         children (scene w') parent = children (scene w) parent ++ ids ∧
         length ids = length nodes ∧
         ∀ i node, nodes !! i = Some node →
           ∃ id, ids !! i = Some id ∧
                 position (scene w') id =
                   Some (default (fallbackX i depth) (n_x node),
                         default (fallbackY i) (n_y node))).
Proof.
  intros Hacc Hp.
  eapply wp_mono; [by apply placeNodes_spec |].
  intros _ w' (ids & Happ & Hlist). exists ids.
  pose proof (RenderedList_length _ _ _ _ _ _ Hlist) as Hlen.
  split; [by apply appended_children |]. split; [done |].
  intros i node Hnode.
  destruct (lookup_lt_is_Some_2 ids i) as [id Hid].
  { rewrite Hlen. by eapply lookup_lt_Some. }
  exists id. split; [done |].
  eapply Rendered_position.
  exact (RenderedList_lookup _ _ _ _ _ _ Hlist i node id Hnode Hid).
Qed.

Lemma placeNodes_child_positions_witness :
  wp (placeNodes quietHost 0
        [mkNode (Some "text") None None (Some 0%Q) None None None None None
           None None None None None None;
         bare "card" None] 2) oneFrameWorld
    (fun _ w' =>
       ∃ ids,
         children (scene w') 0 = children (scene oneFrameWorld) 0 ++ ids ∧
         length ids = 2%nat ∧
         ∀ i node,
           [mkNode (Some "text") None None (Some 0%Q) None None None None None
              None None None None None None;
            bare "card" None] !! i = Some node →
           ∃ id, ids !! i = Some id ∧
                 position (scene w') id =
                   Some (default (fallbackX i 2) (n_x node),
                         default (fallbackY i) (n_y node))).
Proof.
  apply (placeNodes_child_positions quietHost 0
           [mkNode (Some "text") None None (Some 0%Q) None None None None None
              None None None None None None;
            bare "card" None] 2 oneFrameWorld).
  - intros h c. reflexivity.
  - cbn. lia.
Defined.

(** *** Counting the objects *)

Lemma objectCount_unfold node :
  objectCount node = (1 + headingCount node + placedCount (childNodes node))%nat.
Proof.
  destruct node as [? ? ? ? ? ? ? ? ? ? ? ? ? ? nodes].
  unfold childNodes. cbn [objectCount n_nodes]. f_equal.
  destruct nodes as [l |]; [| done]. cbn [default].
  induction l as [| child l IH]; [done |]. cbn [placedCount]. by rewrite IH.
Qed.

Lemma makes_eq {A} n m (c : M A) : makes n c → n = m → makes m c.
Proof. by intros H <-. Qed.

Lemma makes_ret {A} (a : A) : makes 0 (ret a).
Proof. intros w. apply wp_ret. lia. Qed.

Lemma makes_bind {A B} n m (c : M A) (k : A → M B) :
  makes n c → (∀ a, makes m (k a)) → makes (n + m) (x <- c ;; k x).
Proof.
  intros Hc Hk w. apply wp_bind. eapply wp_mono; [apply Hc |].
  intros a w1 H1. eapply wp_mono; [apply Hk |].
  intros b w2 H2. cbv beta in *. lia.
Qed.

Section Counting.

Variable host : Host.
Hypothesis Hacc : accepting host.

Lemma makes_createFrame : makes 1 (createFrame host).
Proof.
  intros w. apply wp_createFrame; [done |].
  cbn [scene updScene logCall]. by rewrite length_app.
Qed.

Lemma makes_createText : makes 1 (createText host).
Proof.
  intros w. apply wp_createText; [done |].
  cbn [scene updScene logCall]. by rewrite length_app.
Qed.

Lemma makes_setProp id name v : makes 0 (setProp host id name v).
Proof.
  intros w. apply wp_setProp; [done |].
  cbn [scene updScene logCall]. rewrite length_alter. lia.
Qed.

Lemma makes_resize id a b : makes 0 (resize host id a b).
Proof.
  intros w. apply wp_resize; [done |].
  cbn [scene updScene logCall]. rewrite length_alter. lia.
Qed.

Lemma makes_appendChild parent child : makes 0 (appendChild host parent child).
Proof.
  intros w. apply wp_appendChild; [done |].
  cbn [scene updScene logCall]. rewrite length_alter. lia.
Qed.

Lemma makes_ensureFont style : makes 0 (ensureFont host style).
Proof. intros w. apply wp_ensureFont; [done |]. intros w' ->. lia. Qed.

Ltac count :=
  repeat first
    [ apply makes_createFrame
    | apply makes_createText
    | apply makes_setProp
    | apply makes_resize
    | apply makes_appendChild
    | apply makes_ensureFont
    | apply makes_ret
    | eapply makes_bind; [| intros ?] ].

Lemma makes_createTextNode parent node : makes 1 (createTextNode host parent node).
Proof. unfold createTextNode. eapply makes_eq; [count | reflexivity]. Qed.

Lemma makes_blockHeading node c : makes (headingCount node) (blockHeading host node c).
Proof.
  unfold blockHeading, headingCount.
  destruct (_ || _); [| apply makes_ret].
  destruct (JsString.truthy_opt (n_content node));
    (eapply makes_eq; [count | reflexivity]).
Qed.

Lemma makes_placeNodesFrom nodes :
  Forall (fun node => ∀ x y parent,
            makes (objectCount node) (createBlockNodeAt host node x y parent))
    nodes →
  ∀ parent depth index,
    makes (placedCount nodes)
      (placeNodesFrom host (createBlockNodeAt host) parent nodes depth index).
Proof.
  induction 1 as [| node rest Hnode _ IH]; intros parent depth index.
  - apply makes_ret.
  - cbn [placeNodesFrom placedCount]. apply makes_bind; [| intros _; apply IH].
    unfold placeNode. case_bool_decide.
    + apply makes_createTextNode.
    + rewrite if_same. apply Hnode.
Qed.

Lemma makes_createBlockNodeAt node :
  ∀ x y parent, makes (objectCount node) (createBlockNodeAt host node x y parent).
Proof.
  induction node as [node IH] using BlueprintNode_nested_ind.
  intros x y parent. rewrite createBlockNodeAt_unfold, objectCount_unfold.
  eapply makes_eq.
  - eapply makes_bind; [apply makes_createFrame | intros c].
    eapply makes_bind; [apply makes_resize | intros _].
    do 12 (eapply makes_bind; [apply makes_setProp | intros _]).
    eapply makes_bind; [apply makes_blockHeading | intros _].
    eapply makes_bind; [| intros _; apply makes_appendChild].
    instantiate (1 := placedCount (childNodes node)).
    unfold childNodes in *.
    destruct (n_nodes node) as [[| child nodes] |]; cbn [default] in *.
    + apply makes_ret.
    + by apply makes_placeNodesFrom.
    + apply makes_ret.
  - lia.
Qed.

End Counting.

(** The walker makes no object beyond the ones of its descriptors: under an
    accepting host it returns, and the document has grown by one object per
    text descriptor and, per block descriptor at any depth, by its container
    and the one or two texts of its title and content. *)
Theorem placeNodes_object_count host parent nodes depth w :
  accepting host →
  wp (placeNodes host parent nodes depth) w
    (fun _ w' => length (scene w') = (length (scene w) + placedCount nodes)%nat).
Proof.
  intros Hacc. apply makes_placeNodesFrom; [done |].
  apply Forall_forall. intros node _. by apply makes_createBlockNodeAt.
Qed.

Lemma placeNodes_object_count_witness :
  wp (placeNodes quietHost 0
        [bare "text" None;
         mkNode (Some "card") (Some "Title") (Some "Body") None None None None
           None None None None None None None
           (Some [bare "text" None; bare "panel" None])] 0) oneFrameWorld
    (fun _ w' => length (scene w') = (length (scene oneFrameWorld) + 6)%nat).
Proof.
  apply (placeNodes_object_count quietHost 0
           [bare "text" None;
            mkNode (Some "card") (Some "Title") (Some "Body") None None None None
              None None None None None None None
              (Some [bare "text" None; bare "panel" None])] 0 oneFrameWorld).
  intros h c. reflexivity.
Defined.

(** ** Blueprint renderer *)

Lemma position_of_props (s : list SceneObj) id o x y :
  s !! id = Some o →
  o_props o !! "x" = Some (VNum x) →
  o_props o !! "y" = Some (VNum y) →
  position s id = Some (x, y).
Proof. unfold position. by intros -> -> ->. Qed.

Lemma position_transfer (s s' : list SceneObj) ids :
  (∀ j, j ∈ ids → s' !! j = s !! j) →
  map (position s') ids = map (position s) ids.
Proof.
  intros Hsame. apply map_ext_in. intros j Hj. unfold position.
  rewrite Hsame; [done |]. by apply list_elem_of_In.
Qed.

Lemma frameOf_transfer host (s s' : list SceneObj) f plan x :
  s' !! f = s !! f → frameOf host s f plan x → frameOf host s' f plan x.
Proof. unfold frameOf, nodeType, prop, position. by intros ->. Qed.

Lemma frameContents_transfer (s s' : list SceneObj) f plan hs ids :
  (∀ j, j ∈ f :: hs ++ ids → s' !! j = s !! j) →
  frameContents s f plan hs ids → frameContents s' f plan hs ids.
Proof.
  intros Hsame (Hch & Hhs & Hids). split; [| split].
  - unfold children. rewrite Hsame; [exact Hch | set_solver].
  - destruct (JsString.truthy_opt (f_description plan)); [| done].
    destruct Hhs as (t & -> & Ht & Hpos). exists t. split; [done |].
    assert (Hlook : s' !! t = s !! t) by (apply Hsame; set_solver).
    split; [by eapply isText_transfer |].
    unfold position in *. by rewrite Hlook.
  - rewrite <- Hids. apply position_transfer.
    intros j Hj. apply Hsame. set_solver.
Qed.

Lemma positions_in_store (s : list SceneObj) ids ps :
  map (position s) ids = map Some ps →
  Forall (fun id => (id < length s)%nat) ids.
Proof.
  revert ps. induction ids as [| id ids IH]; intros [| p ps] Hmap;
    try done.
  injection Hmap as Hid Hrest. constructor; [| by eapply IH].
  unfold position in Hid.
  destruct (s !! id) eqn:Hlook; [| done]. by eapply lookup_lt_Some.
Qed.

Section FrameObjects.

Variable host : Host.
Hypothesis Hacc : accepting host.

Lemma createTextNode_full parent node w :
  (parent < length (scene w))%nat →
  wp (createTextNode host parent node) w
    (fun _ w' =>
       let t := length (scene w) in
       appended parent [t] (scene w) (scene w') ∧
       length (scene w') = S t ∧
       isText (scene w') t
         ((if JsString.truthy_opt (n_title node)
           then default EmptyString (n_title node) +:+ LF
           else EmptyString)
          +:+ default EmptyString (n_content node))
         (fontStyle (n_fontWeight node))
         (default 16%Q (n_fontSize node))
         (JsString.or_else (n_color node) "#e9edf5") ∧
       position (scene w') t =
         Some (default 32%Q (n_x node), default 32%Q (n_y node))).
Proof.
  intros Hp. unfold createTextNode.
  apply wp_bind, wp_ensureFont; [done |]. intros w1 H1.
  apply wp_bind, wp_createText; [done |].
  do 2 (apply wp_bind, wp_setProp; [done |]).
  apply wp_bind, wp_resize; [done |].
  do 4 (apply wp_bind, wp_setProp; [done |]).
  apply wp_appendChild; [done |].
  cbn [scene updScene logCall]. rewrite H1.
  rewrite !alter_at_length. cbn [alter list_alter].
  rewrite alter_old_app by done. cbv zeta.
  split; [by apply appended_alter_app |].
  split; [rewrite length_app, length_alter; cbn; lia |].
  split.
  - unfold isText, nodeType, children, prop.
    rewrite list_lookup_middle by (by rewrite length_alter).
    cbn [fmap option_fmap option_map].
    do 5 (split; [prop_lookup |]). prop_lookup.
  - eapply position_of_props;
      [apply list_lookup_middle; by rewrite length_alter | |]; prop_lookup.
Qed.

(** The heading of a frame, lines 252-263. *)
Lemma frameHeading_spec plan f w :
  (f < length (scene w))%nat →
  wp (if JsString.truthy_opt (f_description plan)
      then createTextNode host f
             (mkNode (Some "text") (f_name plan) (f_description plan)
                (Some 40%Q) (Some 32%Q) None None (Some 18%Q)
                (Some "semi-bold") (Some "#e5e7eb") None None None None None)
      else ret tt) w
    (fun _ w' =>
       ∃ hs, appended f hs (scene w) (scene w') ∧
             Forall (fun h => (length (scene w) ≤ h < length (scene w'))%nat) hs ∧
             if JsString.truthy_opt (f_description plan)
             then ∃ t, hs = [t] ∧
                       isText (scene w') t
                         ((if JsString.truthy_opt (f_name plan)
                           then default EmptyString (f_name plan) +:+ LF
                           else EmptyString)
                          +:+ default EmptyString (f_description plan))
                         "Semi Bold" 18 "#e5e7eb" ∧
                       position (scene w') t = Some (40, 32)%Q
             else hs = []).
Proof.
  intros Hf. destruct (JsString.truthy_opt (f_description plan)).
  - eapply wp_mono; [by apply createTextNode_full |].
    intros _ w' (Happ & Hlen & Htext & Hpos). cbv zeta in *.
    exists [length (scene w)]. split; [done |]. split.
    + constructor; [lia | constructor].
    + exists (length (scene w)). split; [done |]. split; [exact Htext | exact Hpos].
  - apply wp_ret. exists []. split; [apply appended_nil |]. by split.
Qed.

(** The loop of the blueprint renderer: one frame per plan, in order, each
    with its contents, the frames set side by side from the starting
    offset; nothing that was in the document is touched. *)
Lemma renderFrames_spec plans :
  ∀ offsetX created w,
    wp (renderFrames host plans offsetX created) w
      (fun out w' =>
         ∃ fs, out = created ++ fs ∧
               length fs = length plans ∧
               (length (scene w) ≤ length (scene w'))%nat ∧
               (∀ i, (i < length (scene w))%nat → scene w' !! i = scene w !! i) ∧
               ∀ i plan, plans !! i = Some plan →
                 ∃ f hs ids,
                   fs !! i = Some f ∧
                   Forall (fun j => (length (scene w) ≤ j < length (scene w'))%nat)
                     (f :: hs ++ ids) ∧
                   frameOf host (scene w') f plan (offsetAfter (take i plans) offsetX) ∧
                   frameContents (scene w') f plan hs ids).
Proof.
  induction plans as [| plan rest IH]; intros offsetX created w.
  - apply wp_ret. exists []. rewrite app_nil_r.
    split; [done |]. split; [done |]. split; [done |]. split; [done |].
    by intros i plan Hplan.
  - cbn [renderFrames]. cbv zeta.
    apply wp_bind, wp_createFrame; [done |].
    apply wp_bind, wp_setProp; [done |].
    apply wp_bind, wp_resize; [done |].
    do 3 (apply wp_bind, wp_setProp; [done |]).
    match goal with |- wp _ ?W _ => set (W1 := W) end.
    set (f := length (scene w)).
    assert (HW1 : ∃ o, scene W1 = scene w ++ [o] ∧ o_children o = [] ∧
                       frameOf host [o] 0 plan offsetX).
    { subst W1. cbn [scene updScene logCall].
      rewrite !alter_at_length. cbn [alter list_alter].
      eexists. split; [reflexivity |]. split; [done |].
      unfold frameOf, nodeType, prop.
      rewrite !lookup_sole. cbn [fmap option_fmap option_map].
      split; [done |]. split; [prop_lookup |]. split; [prop_lookup |].
      split; [prop_lookup |]. split; [| prop_lookup].
      eapply position_of_props; [reflexivity | |]; prop_lookup. }
    clearbody W1. destruct HW1 as (fo & HW1 & Hfo_ch & Hfo).
    assert (Hlen1 : length (scene W1) = S f)
      by (rewrite HW1, length_app; cbn; lia).
    assert (Hfo1 : scene W1 !! f = Some fo)
      by (rewrite HW1; by apply list_lookup_middle).
    assert (Hold1 : ∀ i, (i < f)%nat → scene W1 !! i = scene w !! i)
      by (intros i Hi; rewrite HW1; by apply lookup_app_l).
    apply wp_bind.
    eapply wp_mono; [apply frameHeading_spec; lia |].
    intros _ w2 (hs & (Hlen2 & Hold2 & Hpar2) & Hhs_range & Hhs).
    apply wp_bind.
    eapply wp_mono; [apply placeNodes_spec; [done | lia] |].
    intros _ w3 (ids & (Hlen3 & Hold3 & Hpar3) & Hlist).
    assert (Hf3 : scene w3 !! f = Some (addChildren ids (addChildren hs fo)))
      by (by rewrite Hpar3, Hpar2, Hfo1).
    pose proof (RenderedList_positions _ _ _ _ _ _ Hlist) as Hpos3.
    pose proof (positions_in_store _ _ _ Hpos3) as Hids3.
    eapply wp_mono; [apply IH |].
    intros out w4 (fs & -> & Hfs_len & Hlen4 & Hold4 & Hrest).
    exists (f :: fs). rewrite <- app_assoc. split; [done |].
    split; [cbn; by rewrite Hfs_len |]. split; [lia |]. split.
    { intros i Hi. rewrite Hold4 by lia. rewrite Hold3 by lia.
      rewrite Hold2 by lia. apply Hold1. lia. }
    intros [| i] plan' Hplan'.
    + injection Hplan' as <-. exists f, hs, ids. split; [done |].
      assert (Hrange3 : Forall (fun j => (f ≤ j < length (scene w3))%nat)
                          (f :: hs ++ ids)).
      { constructor; [lia |]. apply Forall_app. split.
        - eapply Forall_impl; [exact Hhs_range |]. intros h Hh. cbv beta in Hh. lia.
        - apply Forall_forall. intros id Hid.
          rewrite Forall_forall in Hids3. specialize (Hids3 id Hid).
          split; [| done].
          pose proof (RenderedList_lookup _ _ _ _ _ _ Hlist) as Hlook.
          apply list_elem_of_lookup in Hid as [k Hk].
          destruct (lookup_lt_is_Some_2 (default [] (f_nodes plan)) k) as [nd Hnd].
          { rewrite <- (RenderedList_length _ _ _ _ _ _ Hlist).
            by eapply lookup_lt_Some. }
          specialize (Hlook k nd id Hnd Hk).
          inversion Hlook; subst; lia. }
      split; [| split].
      * eapply Forall_impl; [exact Hrange3 |]. intros j Hj. cbv beta in Hj. lia.
      * cbn [take offsetAfter]. eapply frameOf_transfer; [apply Hold4; lia |].
        revert Hfo. unfold frameOf, nodeType, prop, position.
        rewrite Hf3, !lookup_sole.
        by cbn [fmap option_fmap option_map addChildren o_props o_type].
      * eapply frameContents_transfer.
        { intros j Hj. apply Hold4.
          rewrite Forall_forall in Hrange3. specialize (Hrange3 j Hj). lia. }
        split; [| split].
        -- unfold children. rewrite Hf3. cbn. by rewrite Hfo_ch.
        -- destruct (JsString.truthy_opt (f_description plan)); [| done].
           destruct Hhs as (t & -> & Ht & Hpos). exists t. split; [done |].
           apply Forall_cons_1 in Hhs_range as [Ht_range _].
           assert (Hlook : scene w3 !! t = scene w2 !! t)
             by (apply Hold3; lia).
           split; [by eapply isText_transfer |].
           unfold position in *. by rewrite Hlook.
        -- exact Hpos3.
    + cbn in Hplan'. destruct (Hrest i plan' Hplan')
        as (f' & hs' & ids' & Hf' & Hrange' & Hframe' & Hcont').
      exists f', hs', ids'. split; [done |]. split; [| split; [| done]].
      * eapply Forall_impl; [exact Hrange' |]. intros j Hj. cbv beta in Hj. lia.
      * exact Hframe'.
Qed.

End FrameObjects.

Lemma wp_and {A} (c : M A) w (Q1 Q2 : A → World → Prop) :
  wp c w Q1 →
  (∀ a w', c w = (Ok a, w') → Q2 a w') →
  wp c w (fun a w' => Q1 a w' ∧ Q2 a w').
Proof. intros (a & w' & Hrun & H1) H2. exists a, w'. auto. Qed.

Section BlueprintObjects.

Variable host : Host.
Hypothesis Hacc : accepting host.

Lemma renderBlueprint_spec blueprint mode plans w :
  frames blueprint = Some plans →
  wp (renderBlueprint host blueprint mode) w
    (fun created w' =>
       length created = length plans ∧
       (length (scene w) ≤ length (scene w'))%nat ∧
       (∀ i, (i < length (scene w))%nat → scene w' !! i = scene w !! i) ∧
       ui w' = ui w ∧
       (∃ older, calls w' = Notify (doneNotice (length plans) mode) :: older) ∧
       ∀ i plan, plans !! i = Some plan →
         ∃ f hs ids,
           created !! i = Some f ∧
           Forall (fun j => (length (scene w) ≤ j < length (scene w'))%nat)
             (f :: hs ++ ids) ∧
           frameOf host (scene w') f plan
             (offsetAfter (take i plans) (fst (viewport_center host) - 100)%Q) ∧
           frameContents (scene w') f plan hs ids).
Proof.
  intros Hframes.
  pose proof (preserves_renderFrames (fun w w' => ui w' = ui w)
                (fun _ => eq_refl)
                (fun w1 w2 w3 H12 H23 => eq_trans H23 H12)
                (fun _ _ => eq_refl) (fun _ _ => eq_refl) (fun _ _ => eq_refl)
                host plans (fst (viewport_center host) - 100)%Q [] w) as Hui.
  unfold renderBlueprint. rewrite Hframes.
  apply wp_bind.
  eapply wp_mono.
  { apply wp_and; [by apply renderFrames_spec |].
    intros created w1 Hrun. rewrite Hrun in Hui. exact Hui. }
  intros created w1 ((fs & -> & Hlen & Hgrow & Hold & Hall) & Hui1).
  cbn [snd] in Hui1. rewrite app_nil_l in *.
  apply wp_bind, wp_hostCall; [done |]. apply wp_ret.
  cbn [scene calls ui logCall]. split; [done |]. split; [done |].
  split; [done |]. split; [done |]. split; [| done].
  eexists. unfold doneNotice. by rewrite Hlen.
Qed.

End BlueprintObjects.

(** The frames of a blueprint, under an accepting host: the renderer returns
    one frame per plan, in order.  Each carries the name of its plan
    ([Gemini Frame] when missing or empty), its width and height (1440 and
    1024 when missing or zero) and its background ([#0b0d11] by default); the
    first frame is 100 to the left of the center of the viewport, each next
    one follows the one before at a gap of 120, and each is centered
    vertically on the viewport. *)
Theorem renderBlueprint_frame_layout host blueprint mode plans w :
  accepting host →
  frames blueprint = Some plans →
  wp (renderBlueprint host blueprint mode) w
    (fun created w' =>
       length created = length plans ∧
       ∀ i plan, plans !! i = Some plan →
         ∃ f, created !! i = Some f ∧
              frameOf host (scene w') f plan
                (offsetAfter (take i plans) (fst (viewport_center host) - 100)%Q)).
Proof.
  intros Hacc Hframes.
  eapply wp_mono; [by apply renderBlueprint_spec |].
  intros created w' (Hlen & _ & _ & _ & _ & Hall). split; [done |].
  intros i plan Hplan.
  destruct (Hall i plan Hplan) as (f & hs & ids & Hf & _ & Hframe & _).
  by exists f.
Qed.

Lemma renderBlueprint_frame_layout_witness :
  wp (renderBlueprint demoHost (mkBlueprint (Some demoPlans)) "screen") initialWorld
    (fun created w' =>
       length created = length demoPlans ∧
       ∀ i plan, demoPlans !! i = Some plan →
         ∃ f, created !! i = Some f ∧
              frameOf demoHost (scene w') f plan
                (offsetAfter (take i demoPlans)
                   (fst (viewport_center demoHost) - 100)%Q)).
Proof.
  apply (renderBlueprint_frame_layout demoHost (mkBlueprint (Some demoPlans))
           "screen" demoPlans initialWorld).
  - intros h c. reflexivity.
  - reflexivity.
Defined.

(** What a frame holds, under an accepting host: when its plan has a
    description, first a heading text in Semi Bold 18 at (40, 32) whose
    characters are the name of the plan, a line feed and the description
    (the description alone when the name is missing or empty); then one
    object per descriptor of the plan, placed as top-level siblings.  A plan
    without description gets no heading, and a plan without descriptors no
    further child. *)
Theorem renderBlueprint_frame_contents host blueprint mode plans w :
  accepting host →
  frames blueprint = Some plans →
  wp (renderBlueprint host blueprint mode) w
    (fun created w' =>
       ∀ i plan, plans !! i = Some plan →
         ∃ f hs ids, created !! i = Some f ∧
                     frameContents (scene w') f plan hs ids).
Proof.
  intros Hacc Hframes.
  eapply wp_mono; [by apply renderBlueprint_spec |].
  intros created w' (_ & _ & _ & _ & _ & Hall) i plan Hplan.
  destruct (Hall i plan Hplan) as (f & hs & ids & Hf & _ & _ & Hcont).
  by exists f, hs, ids.
Qed.

Lemma renderBlueprint_frame_contents_witness :
  wp (renderBlueprint demoHost (mkBlueprint (Some demoPlans)) "screen") initialWorld
    (fun created w' =>
       ∀ i plan, demoPlans !! i = Some plan →
         ∃ f hs ids, created !! i = Some f ∧
                     frameContents (scene w') f plan hs ids).
Proof.
  apply (renderBlueprint_frame_contents demoHost (mkBlueprint (Some demoPlans))
           "screen" demoPlans initialWorld).
  - intros h c. reflexivity.
  - reflexivity.
Defined.

(** What the renderer leaves alone, under an accepting host: every object
    that was in the document is as it was, the frames returned are new
    objects, and no message is posted to the panel; the last host call is
    the toast, which counts the frames of the blueprint and words the count
    by the mode. *)
Theorem renderBlueprint_keeps_document host blueprint mode plans w :
  accepting host →
  frames blueprint = Some plans →
  wp (renderBlueprint host blueprint mode) w
    (fun created w' =>
       (∀ i, (i < length (scene w))%nat → scene w' !! i = scene w !! i) ∧
       Forall (fun f => (length (scene w) ≤ f < length (scene w'))%nat) created ∧
       ui w' = ui w ∧
       ∃ older, calls w' = Notify (doneNotice (length plans) mode) :: older).
Proof.
  intros Hacc Hframes.
  eapply wp_mono; [by apply renderBlueprint_spec |].
  intros created w' (Hlen & _ & Hold & Hui & Hcalls & Hall).
  split; [done |]. split; [| done].
  apply Forall_forall. intros f Hf.
  apply list_elem_of_lookup in Hf as [i Hi].
  destruct (lookup_lt_is_Some_2 plans i) as [plan Hplan].
  { rewrite <- Hlen. by eapply lookup_lt_Some. }
  destruct (Hall i plan Hplan) as (f' & hs & ids & Hf' & Hrange & _).
  assert (f' = f) as -> by congruence.
  by apply Forall_cons_1 in Hrange as [Hrange _].
Qed.

Lemma renderBlueprint_keeps_document_witness :
  wp (renderBlueprint demoHost (mkBlueprint (Some demoPlans)) "artifact")
    oneFrameWorld
    (fun created w' =>
       (∀ i, (i < length (scene oneFrameWorld))%nat →
             scene w' !! i = scene oneFrameWorld !! i) ∧
       Forall (fun f => (length (scene oneFrameWorld) ≤ f < length (scene w'))%nat)
         created ∧
       ui w' = ui oneFrameWorld ∧
       ∃ older, calls w' = Notify (doneNotice 2 "artifact") :: older).
Proof.
  apply (renderBlueprint_keeps_document demoHost (mkBlueprint (Some demoPlans))
           "artifact" demoPlans oneFrameWorld).
  - intros h c. reflexivity.
  - reflexivity.
Defined.

(** ** Remote call *)

(** The remote call does one thing to the world, whatever the host answers
    and however the call ends: it logs one request, to the endpoint with the
    key, carrying the prompt.  The document, the font cache and the panel
    are not touched. *)
Theorem callGemini_only_fetches host apiKey prompt w :
  snd (callGemini host apiKey prompt w)
  = logCall (Fetch (API_URL apiKey) (requestInit prompt)) w.
Proof.
  unfold callGemini. cbv zeta. unfold bind at 1, hostCall.
  destruct (rejects host (calls w) _); [done |].
  destruct (negb _).
  - unfold bind, liftRes, throw. by destruct (resp_text _).
  - unfold bind, liftRes, throw. destruct (resp_json _); [| done].
    by destruct (negb _).
Qed.

Lemma callGemini_run host apiKey prompt w r w' :
  callGemini host apiKey prompt w = (r, w') →
  w' = logCall (Fetch (API_URL apiKey) (requestInit prompt)) w.
Proof.
  intros Hrun.
  assert (Hsnd : snd (callGemini host apiKey prompt w) = w') by (by rewrite Hrun).
  rewrite <- Hsnd. unfold callGemini. cbv zeta. unfold bind at 1, hostCall.
  destruct (rejects host (calls w) _); [done |].
  destruct (negb _).
  - unfold bind, liftRes, throw. by destruct (resp_text _).
  - unfold bind, liftRes, throw. destruct (resp_json _); [| done].
    by destruct (negb _).
Qed.

(** A response that is not ok becomes an error that names the status and
    quotes the body; when the body cannot be read either, the failure of the
    read is the error.  The response is not parsed. *)
Theorem callGemini_transport_error host apiKey prompt w :
  let url := API_URL apiKey in
  let init := requestInit prompt in
  rejects host (calls w) (Fetch url init) = None →
  resp_ok (remote host url init) = false →
  (∀ text, resp_text (remote host url init) = Ok text →
     fst (callGemini host apiKey prompt w) =
       Throw (ErrorObj ("Gemini API error "
                        +:+ JsVal.showZ (resp_status (remote host url init))
                        +:+ ": " +:+ text))) ∧
  (∀ e, resp_text (remote host url init) = Throw e →
     fst (callGemini host apiKey prompt w) = Throw e).
Proof.
  intros url init Hfetch Hok.
  split; [intros text Htext | intros e Htext];
    unfold callGemini; cbv zeta; fold url init;
    unfold bind at 1, hostCall; rewrite Hfetch, Hok; cbn [negb];
    unfold bind, liftRes, throw; by rewrite Htext.
Qed.

Lemma callGemini_transport_error_witness :
  (∀ text,
     resp_text (remote refusingHost (API_URL "key") (requestInit "prompt")) = Ok text →
     fst (callGemini refusingHost "key" "prompt" initialWorld) =
       Throw (ErrorObj ("Gemini API error "
                        +:+ JsVal.showZ
                              (resp_status
                                 (remote refusingHost (API_URL "key")
                                    (requestInit "prompt")))
                        +:+ ": " +:+ text))) ∧
  (∀ e,
     resp_text (remote refusingHost (API_URL "key") (requestInit "prompt")) = Throw e →
     fst (callGemini refusingHost "key" "prompt" initialWorld) = Throw e).
Proof.
  apply (callGemini_transport_error refusingHost "key" "prompt" initialWorld);
    reflexivity.
Defined.

(** An ok response that holds no text to read a blueprint from (no payload,
    no candidates, an empty list of candidates, a first candidate without
    content or a content without parts) is reported as an answer that could
    not be parsed; the parser is not called on it. *)
Theorem callGemini_without_text host apiKey prompt w payload :
  let url := API_URL apiKey in
  let init := requestInit prompt in
  rejects host (calls w) (Fetch url init) = None →
  resp_ok (remote host url init) = true →
  resp_json (remote host url init) = Ok payload →
  firstParts payload = None →
  fst (callGemini host apiKey prompt w) = Throw (ErrorObj MSG_UNPARSED).
Proof.
  intros url init Hfetch Hok Hjson Hparts. unfold callGemini. cbv zeta.
  fold url init. unfold bind at 1, hostCall. rewrite Hfetch, Hok. cbn [negb].
  unfold bind, liftRes. rewrite Hjson. unfold combinedText. by rewrite Hparts.
Qed.

Lemma callGemini_without_text_witness :
  fst (callGemini quietHost "key" "prompt" initialWorld)
  = Throw (ErrorObj MSG_UNPARSED).
Proof.
  apply (callGemini_without_text quietHost "key" "prompt" initialWorld None);
    reflexivity.
Defined.

(** ** Design generation *)

Lemma callGemini_ok host apiKey prompt w payload jsonText r :
  let url := API_URL apiKey in
  let init := requestInit prompt in
  rejects host (calls w) (Fetch url init) = None →
  resp_ok (remote host url init) = true →
  resp_json (remote host url init) = Ok payload →
  extractJson (combinedText payload) = Some jsonText →
  JsString.truthy jsonText = true →
  JSON_parse host jsonText = Ok r →
  callGemini host apiKey prompt w = (Ok r, logCall (Fetch url init) w).
Proof.
  intros url init Hfetch Hok Hjson Hextract Hjt Hparse.
  unfold callGemini. cbv zeta. fold url init. unfold bind at 1, hostCall.
  rewrite Hfetch, Hok. cbn [negb]. unfold bind at 1, liftRes.
  rewrite Hjson, Hextract. cbn [JsString.truthy_opt default id]. rewrite Hjt.
  cbn [negb]. by rewrite Hparse.
Qed.

Lemma resolveApiKey_override host params w key :
  apiKeyOverride params = Some key →
  JsString.truthy (JsString.trim key) = true →
  resolveApiKey host params w = (Ok (Some (JsString.trim key)), w).
Proof.
  intros Hover Htruthy. unfold resolveApiKey. cbv zeta. rewrite Hover.
  cbn [fmap option_fmap option_map JsString.truthy_opt]. by rewrite Htruthy.
Qed.

Lemma resolveApiKey_stored host params w :
  JsString.truthy_opt (JsString.trim <$> apiKeyOverride params) = false →
  resolveApiKey host params w =
  (match rejects host (calls w) (GetAsync "geminiApiKey") with
   | Some e => Throw e
   | None => Ok (storage host "geminiApiKey")
   end, logCall (GetAsync "geminiApiKey") w).
Proof.
  intros Hover. unfold resolveApiKey. cbv zeta. rewrite Hover.
  unfold bind, hostCall. by destruct (rejects host _ _).
Qed.

(** A generation that goes well, under an accepting host: with a prompt, a
    key, an ok response whose text holds a blueprint with at least one
    frame, [generateDesign] returns having posted, in this order, the two
    busy notices and the generation-complete message, and no error; it has
    made one frame object per frame of the blueprint, and its last host
    calls are the toast, the selection of the new frames and the scroll to
    them. *)
Theorem generateDesign_renders_and_completes
    host params w apiKey w0 payload jsonText blueprint plans :
  let url := API_URL apiKey in
  let init :=
    requestInit
      (buildPrompt (prompt params) (mode params)
         (JsVal.or_else (frameCount params) (JNum 3))) in
  accepting host →
  JsString.truthy (prompt params) = true →
  resolveApiKey host params (logUI (Status MSG_PREPARING "info" "busy") w)
    = (Ok (Some apiKey), w0) →
  JsString.truthy apiKey = true →
  resp_ok (remote host url init) = true →
  resp_json (remote host url init) = Ok payload →
  extractJson (combinedText payload) = Some jsonText →
  JsString.truthy jsonText = true →
  JSON_parse host jsonText = Ok (Some blueprint) →
  frames blueprint = Some plans →
  plans ≠ [] →
  ∃ w' created,
    generateDesign host params w = (Ok tt, w') ∧
    ui w' = [GenerationComplete; Status MSG_DRAWING "info" "busy";
             Status MSG_PREPARING "info" "busy"] ++ ui w ∧
    length created = length plans ∧
    Forall (fun f => nodeType (scene w') f = Some FRAME) created ∧
    ∃ older,
      calls w' = ScrollAndZoomIntoView created :: SetSelection created
                 :: Notify (doneNotice (length plans) (mode params)) :: older.
Proof.
  intros url init Hacc Hprompt Hkey Htruthy Hok Hjson Hextract Hjt Hparse
    Hframes Hplans.
  rewrite (generateDesign_enters_flow _ _ _ _ _ Hprompt Hkey Htruthy).
  destruct (resolveApiKey_effect _ _ _ _ _ Hkey) as (_ & Hui0 & _).
  cbn [ui logUI] in Hui0.
  assert (Hflow : wp (generationFlow host apiKey params) w0
            (fun _ w' =>
               ∃ created,
                 ui w' = GenerationComplete :: Status MSG_DRAWING "info" "busy"
                         :: ui w0 ∧
                 length created = length plans ∧
                 Forall (fun f => nodeType (scene w') f = Some FRAME) created ∧
                 ∃ older,
                   calls w' = ScrollAndZoomIntoView created :: SetSelection created
                              :: Notify (doneNotice (length plans) (mode params))
                              :: older)).
  { unfold generationFlow. cbv zeta. fold init.
    apply wp_bind. eapply wp_run.
    { eapply callGemini_ok; eauto. }
    assert (Hno : noFrames (Some blueprint) = false).
    { unfold noFrames. rewrite Hframes. by destruct plans. }
    rewrite Hno. apply wp_bind. eapply wp_run; [reflexivity |].
    apply wp_bind.
    eapply wp_mono; [by apply renderBlueprint_spec |].
    intros created w1 (Hlen & _ & _ & Hui1 & (older & Hcalls) & Hall).
    cbn [ui scene logUI logCall] in Hui1.
    apply wp_bind, wp_hostCall; [done |].
    apply wp_bind, wp_hostCall; [done |].
    eapply wp_run; [reflexivity |].
    exists created. cbn [ui scene calls logUI logCall].
    split; [by rewrite Hui1 |]. split; [done |]. split; [| by eexists; rewrite Hcalls].
    apply Forall_forall. intros f Hf.
    apply list_elem_of_lookup in Hf as [i Hi].
    destruct (lookup_lt_is_Some_2 plans i) as [plan Hplan].
    { rewrite <- Hlen. by eapply lookup_lt_Some. }
    destruct (Hall i plan Hplan) as (f' & hs & ids & Hf' & _ & Hframe & _).
    assert (f' = f) as -> by congruence. apply Hframe. }
  destruct Hflow as ([] & w' & Hrun & created & Hui & Hlen & Hfr & Hcalls).
  exists w', created. unfold tryCatch. rewrite Hrun.
  split; [done |]. split; [by rewrite Hui, Hui0 |]. by split.
Qed.

Lemma generateDesign_renders_and_completes_witness :
  ∃ w' created,
    generateDesign demoHost (demoParams (JNum 2)) initialWorld = (Ok tt, w') ∧
    ui w' = [GenerationComplete; Status MSG_DRAWING "info" "busy";
             Status MSG_PREPARING "info" "busy"] ++ ui initialWorld ∧
    length created = length demoPlans ∧
    Forall (fun f => nodeType (scene w') f = Some FRAME) created ∧
    ∃ older,
      calls w' = ScrollAndZoomIntoView created :: SetSelection created
                 :: Notify (doneNotice (length demoPlans)
                              (mode (demoParams (JNum 2)))) :: older.
Proof.
  apply (generateDesign_renders_and_completes demoHost (demoParams (JNum 2))
           initialWorld "key"
           (logUI (Status MSG_PREPARING "info" "busy") initialWorld)
           (Some (mkPayload
                    (Some [mkCandidate
                             (Some (mkContent (Some [mkPart (Some "{ }")])))])))
           "{ }" (mkBlueprint (Some demoPlans)) demoPlans).
  - intros h c. reflexivity.
  - reflexivity.
  - reflexivity.
  - reflexivity.
  - reflexivity.
  - reflexivity.
  - by vm_compute.
  - reflexivity.
  - reflexivity.
  - reflexivity.
  - discriminate.
Defined.

(** Without a key nothing is requested: when the request brings no key, or
    one that is empty once trimmed, and the client storage holds none either,
    [generateDesign] looks the key up, posts the notice that asks for a key,
    and returns.  The lookup is its only host call. *)
Theorem generateDesign_without_key host params w :
  JsString.truthy (prompt params) = true →
  JsString.truthy_opt (JsString.trim <$> apiKeyOverride params) = false →
  rejects host (calls w) (GetAsync "geminiApiKey") = None →
  JsString.truthy_opt (storage host "geminiApiKey") = false →
  ∃ w',
    generateDesign host params w = (Ok tt, w') ∧
    ui w' = [Status MSG_NO_KEY "error" "idle"; Status MSG_PREPARING "info" "busy"]
            ++ ui w ∧
    calls w' = GetAsync "geminiApiKey" :: calls w ∧
    scene w' = scene w.
Proof.
  intros Hprompt Hover Hget Hstored. unfold generateDesign. rewrite Hprompt.
  cbn [negb]. unfold bind at 1, notifyUI, postMessage. unfold bind at 1.
  rewrite (resolveApiKey_stored _ _ _ Hover). cbn [calls logUI].
  rewrite Hget, Hstored. cbn [negb]. by eexists.
Qed.

Lemma generateDesign_without_key_witness :
  ∃ w',
    generateDesign quietHost keylessParams initialWorld = (Ok tt, w') ∧
    ui w' = [Status MSG_NO_KEY "error" "idle"; Status MSG_PREPARING "info" "busy"]
            ++ ui initialWorld ∧
    calls w' = GetAsync "geminiApiKey" :: calls initialWorld ∧
    scene w' = scene initialWorld.
Proof.
  apply (generateDesign_without_key quietHost keylessParams initialWorld);
    reflexivity.
Defined.

(** The one failure [generateDesign] does not catch: it throws exactly when
    there is a prompt, the request brings no usable key and the lookup in the
    client storage is rejected.  What it throws is what the lookup threw; no
    generation-error is posted, and the last message to the panel is the busy
    notice. *)
Theorem generateDesign_throws_iff_lookup_rejected host params w e w' :
  generateDesign host params w = (Throw e, w') ↔
  JsString.truthy (prompt params) = true ∧
  JsString.truthy_opt (JsString.trim <$> apiKeyOverride params) = false ∧
  rejects host (calls w) (GetAsync "geminiApiKey") = Some e ∧
  w' = logCall (GetAsync "geminiApiKey")
         (logUI (Status MSG_PREPARING "info" "busy") w).
Proof.
  split.
  - intros Hrun.
    assert (Hprompt : JsString.truthy (prompt params) = true).
    { revert Hrun. unfold generateDesign.
      by destruct (JsString.truthy (prompt params)). }
    apply generateDesign_throws_only_at_key_lookup in Hrun.
    split; [done |].
    destruct (JsString.truthy_opt (JsString.trim <$> apiKeyOverride params))
      eqn:Hover.
    + revert Hrun. unfold resolveApiKey. cbv zeta. by rewrite Hover.
    + split; [done |]. rewrite (resolveApiKey_stored _ _ _ Hover) in Hrun.
      cbn [calls logUI] in Hrun.
      destruct (rejects host (calls w) _); by simplify_eq.
  - intros (Hprompt & Hover & Hget & ->). unfold generateDesign.
    rewrite Hprompt. cbn [negb].
    unfold bind at 1, notifyUI, postMessage. unfold bind at 1.
    rewrite (resolveApiKey_stored _ _ _ Hover). cbn [calls logUI].
    by rewrite Hget.
Qed.

(** A key that comes with the request wins: when it is not empty once
    trimmed, the client storage is not consulted and the first host call
    [generateDesign] makes is the request to the endpoint with the trimmed
    key. *)
Theorem generateDesign_override_key host params w key :
  JsString.truthy (prompt params) = true →
  apiKeyOverride params = Some key →
  JsString.truthy (JsString.trim key) = true →
  ∃ later,
    calls (snd (generateDesign host params w))
    = later ++ requestOf (JsString.trim key) params :: calls w.
Proof.
  intros Hprompt Hover Htruthy.
  rewrite (generateDesign_enters_flow host params w (JsString.trim key)
             (logUI (Status MSG_PREPARING "info" "busy") w) Hprompt
             (resolveApiKey_override _ _ _ _ Hover Htruthy) Htruthy).
  unfold tryCatch.
  pose proof (generationFlow_callsGrow host (JsString.trim key) params
                (logUI (Status MSG_PREPARING "info" "busy") w)) as [later Hlater].
  exists later.
  destruct (generationFlow host _ params _) as [[[] | e] w1]; cbn [snd] in *;
    exact Hlater.
Qed.

Lemma generateDesign_override_key_witness :
  ∃ later,
    calls (snd (generateDesign quietHost
                  (mkParams "landing page" "screen" (JNum 1) (Some " key "))
                  initialWorld))
    = later ++ requestOf (JsString.trim " key ")
                 (mkParams "landing page" "screen" (JNum 1) (Some " key "))
               :: calls initialWorld.
Proof.
  apply (generateDesign_override_key quietHost
           (mkParams "landing page" "screen" (JNum 1) (Some " key "))
           initialWorld " key "); reflexivity.
Defined.

Lemma stored_key_request host params w key :
  JsString.truthy (prompt params) = true →
  JsString.truthy_opt (JsString.trim <$> apiKeyOverride params) = false →
  rejects host (calls w) (GetAsync "geminiApiKey") = None →
  storage host "geminiApiKey" = Some key →
  JsString.truthy key = true →
  ∃ later,
    calls (snd (generateDesign host params w))
    = later ++ requestOf key params :: GetAsync "geminiApiKey" :: calls w.
Proof.
  intros Hprompt Hover Hget Hstored Htruthy.
  assert (Hkey : resolveApiKey host params
                   (logUI (Status MSG_PREPARING "info" "busy") w)
                 = (Ok (Some key),
                    logCall (GetAsync "geminiApiKey")
                      (logUI (Status MSG_PREPARING "info" "busy") w))).
  { rewrite (resolveApiKey_stored _ _ _ Hover). cbn [calls logUI].
    by rewrite Hget, Hstored. }
  rewrite (generateDesign_enters_flow host params w key _ Hprompt Hkey Htruthy).
  unfold tryCatch.
  pose proof (generationFlow_callsGrow host key params
                (logCall (GetAsync "geminiApiKey")
                   (logUI (Status MSG_PREPARING "info" "busy") w)))
    as [later Hlater].
  exists later.
  destruct (generationFlow host _ params _) as [[[] | e] w1]; cbn [snd] in *;
    exact Hlater.
Qed.

(** Without a key in the request the stored key is used, as it is stored:
    [generateDesign] first looks the key up in the client storage and then
    sends the request with it. *)
Theorem generateDesign_stored_key host params w key :
  JsString.truthy (prompt params) = true →
  JsString.truthy_opt (JsString.trim <$> apiKeyOverride params) = false →
  rejects host (calls w) (GetAsync "geminiApiKey") = None →
  storage host "geminiApiKey" = Some key →
  JsString.truthy key = true →
  ∃ later,
    calls (snd (generateDesign host params w))
    = later ++ requestOf key params :: GetAsync "geminiApiKey" :: calls w.
Proof. apply stored_key_request. Qed.

Lemma generateDesign_stored_key_witness :
  ∃ later,
    calls (snd (generateDesign storedKeyHost keylessParams initialWorld))
    = later ++ requestOf "stored-key" keylessParams
               :: GetAsync "geminiApiKey" :: calls initialWorld.
Proof.
  apply (generateDesign_stored_key storedKeyHost keylessParams initialWorld
           "stored-key"); reflexivity.
Defined.

(** ** Response extractor *)

Lemma occursAt_after (p pre s : string) k :
  occursAt p (pre +:+ s) (String.length pre + k) ↔ occursAt p s k.
Proof.
  induction pre as [| x pre IH]; [by rewrite append_nil |].
  rewrite append_cons. cbn [String.length Nat.add]. by rewrite occursAt_S.
Qed.

Lemma occursAt_first_char c (p s : string) j :
  occursAt (String c p) s j → occursAt (String c EmptyString) s j.
Proof.
  intros (pre & post & -> & Hlen). exists pre, (p +:+ post).
  split; [| done]. by rewrite !append_cons, append_nil.
Qed.

Lemma occursAt_within c (pre rest : string) j :
  (j < String.length pre)%nat →
  occursAt (String c EmptyString) (pre +:+ rest) j →
  occursAt (String c EmptyString) pre j.
Proof.
  revert j. induction pre as [| x pre IH]; intros j Hj; [cbn in Hj; lia |].
  rewrite append_cons. destruct j as [| j].
  - rewrite !occursAt_0. cbn [JsString.startsWith].
    by rewrite !andb_true_r.
  - rewrite !occursAt_S. apply IH. cbn in Hj. lia.
Qed.

Lemma firstAt_after_clean c (p pre rest : string) :
  (∀ i, ¬ occursAt (String c EmptyString) pre i) →
  firstAt (String c p) (pre +:+ String c p +:+ rest) (String.length pre).
Proof.
  intros Hclean. split; [by exists pre, rest |].
  intros j Hj Hocc. apply (Hclean j).
  eapply occursAt_within; [exact Hj |].
  eapply occursAt_first_char, Hocc.
Qed.

(** A JSON object wrapped in prose is recovered as it is: when the text has
    no opening fence, the part in front holds no opening brace and the part
    behind holds no closing brace, the extractor returns the object, braces
    included, and drops the prose. *)
Theorem extractJson_object_in_prose (pre mid post : string) :
  let text := pre +:+ "{" +:+ mid +:+ "}" +:+ post in
  (∀ i, ¬ occursAt FENCE_OPEN text i) →
  (∀ i, ¬ occursAt "{" pre i) →
  (∀ i, ¬ occursAt "}" post i) →
  extractJson text = Some ("{" +:+ mid +:+ "}").
Proof.
  intros text Hfence Hpre Hpost.
  apply (Extraction_functional text); [apply Extraction_extractJson |].
  assert (Hslice : JsString.slice (String.length pre)
                     (String.length pre + 1 + String.length mid + 1) text
                   = "{" +:+ mid +:+ "}").
  { subst text.
    replace (pre +:+ "{" +:+ mid +:+ "}" +:+ post)
      with (pre +:+ ("{" +:+ mid +:+ "}") +:+ post)
      by (by rewrite !append_assoc).
    replace (String.length pre + 1 + String.length mid + 1)%nat
      with (String.length pre + String.length ("{" +:+ mid +:+ "}"))%nat
      by (rewrite !length_append; cbn; lia).
    apply slice_middle. }
  rewrite <- Hslice.
  apply Extraction_braces.
  - intros body (p & q & [Hocc _] & _). by destruct (Hfence p).
  - by apply (firstAt_after_clean "{" EmptyString).
  - split.
    + exists (pre +:+ "{" +:+ mid), post. subst text.
      split; [by rewrite !append_assoc |].
      rewrite !length_append. cbn. lia.
    + intros k Hk Hocc.
      apply (Hpost (k - (String.length pre + 1 + String.length mid + 1))%nat).
      apply (occursAt_after "}" (pre +:+ "{" +:+ mid +:+ "}")).
      replace (String.length (pre +:+ "{" +:+ mid +:+ "}") +
               (k - (String.length pre + 1 + String.length mid + 1)))%nat
        with k by (rewrite !length_append; cbn; lia).
      subst text. by rewrite !append_assoc.
  - lia.
Qed.

Lemma extractJson_object_in_prose_witness :
  extractJson ("Here is the plan: " +:+ "{" +:+ "frames:[{},{}]" +:+ "}" +:+ " Enjoy.")
  = Some ("{" +:+ "frames:[{},{}]" +:+ "}").
Proof.
  apply (extractJson_object_in_prose "Here is the plan: " "frames:[{},{}]" " Enjoy.");
    apply indexOf_None; reflexivity.
Defined.

(** A fenced block is recovered whatever surrounds it: when the part in
    front of the opening fence and the block itself hold no backtick and the
    block is not empty, the extractor returns the block, trimmed, also when
    there are braces before or after the fences. *)
Theorem extractJson_fenced_block (pre body post : string) :
  (∀ i, ¬ occursAt "`" pre i) →
  (∀ i, ¬ occursAt "`" body i) →
  body ≠ EmptyString →
  extractJson (pre +:+ FENCE_OPEN +:+ body +:+ FENCE_CLOSE +:+ post)
  = Some (JsString.trim body).
Proof.
  intros Hpre Hbody Hne.
  apply (Extraction_functional
           (pre +:+ FENCE_OPEN +:+ body +:+ FENCE_CLOSE +:+ post));
    [apply Extraction_extractJson |].
  apply Extraction_fence; [| done].
  exists (String.length pre), (String.length body).
  assert (Hdrop : JsString.drop (String.length pre + String.length FENCE_OPEN)
                    (pre +:+ FENCE_OPEN +:+ body +:+ FENCE_CLOSE +:+ post)
                  = body +:+ FENCE_CLOSE +:+ post).
  { rewrite <- length_append, <- (append_assoc pre). apply drop_append. }
  split; [| split].
  - by apply (firstAt_after_clean "`").
  - rewrite Hdrop. by apply (firstAt_after_clean "`").
  - unfold JsString.slice. rewrite Hdrop.
    replace (String.length pre + String.length FENCE_OPEN + String.length body
             - (String.length pre + String.length FENCE_OPEN))%nat
      with (String.length body) by lia.
    by rewrite take_append.
Qed.

Lemma extractJson_fenced_block_witness :
  extractJson ("{draft} " +:+ FENCE_OPEN +:+ " {ok} " +:+ FENCE_CLOSE +:+ " {late}")
  = Some (JsString.trim " {ok} ").
Proof.
  apply (extractJson_fenced_block "{draft} " " {ok} " " {late}").
  - apply indexOf_None. reflexivity.
  - apply indexOf_None. reflexivity.
  - discriminate.
Defined.

(** ** Key storage and message handler *)

Lemma newMessages_cons m (l : list UIMessage) : newMessages l (m :: l) = [m].
Proof.
  unfold newMessages. cbn [length].
  replace (S (length l) - length l)%nat with 1%nat by lia. reflexivity.
Qed.

Lemma trim_truthy (key : string) :
  JsString.truthy (JsString.trim key) = true → JsString.truthy key = true.
Proof. by destruct key. Qed.

Lemma saveApiKey_run writeRejected apiKey s :
  writeRejected "geminiApiKey" (JsString.trim (default EmptyString apiKey)) = None →
  saveApiKey writeRejected apiKey s =
  (Ok tt,
   {| world := if JsString.truthy_opt apiKey then world s
               else logUI (Status MSG_KEY_CLEARED "info" "idle") (world s);
      store := <["geminiApiKey" := JsString.trim (default EmptyString apiKey)]>
                 (store s);
      panel := ApiKeySaved
               :: (if JsString.truthy_opt apiKey then []
                   else [Posted (Status MSG_KEY_CLEARED "info" "idle")])
               ++ panel s |}).
Proof.
  intros Hwrite. unfold saveApiKey.
  destruct (JsString.truthy_opt apiKey) eqn:Hkey; cbn [negb].
  - unfold andThen, setAsync, answer. by rewrite Hwrite.
  - assert (Hvalue : JsString.trim (default EmptyString apiKey) = EmptyString)
      by (by destruct apiKey as [[| c k] |]).
    rewrite Hvalue in *.
    unfold andThen, inWorld, notifyUI, postMessage, setAsync, answer.
    cbn [world store panel ui logUI]. rewrite Hwrite, newMessages_cons.
    reflexivity.
Qed.

(** What saving a key does.  The value written is the key trimmed: the
    empty string for a key that is missing, empty or white space only.  The
    notice that the key was cleared is posted for a missing or empty key
    only, not for one of white space.  When the storage takes the write,
    api-key-saved is posted last; when it rejects it, the handler throws,
    the storage is as before and api-key-saved is not posted. *)
Theorem saveApiKey_outcome writeRejected apiKey s :
  let value := JsString.trim (default EmptyString apiKey) in
  let notice :=
    if JsString.truthy_opt apiKey then []
    else [Posted (Status MSG_KEY_CLEARED "info" "idle")] in
  match writeRejected "geminiApiKey" value with
  | None =>
      ∃ s', saveApiKey writeRejected apiKey s = (Ok tt, s') ∧
            store s' = <["geminiApiKey" := value]> (store s) ∧
            panel s' = ApiKeySaved :: notice ++ panel s
  | Some e =>
      ∃ s', saveApiKey writeRejected apiKey s = (Throw e, s') ∧
            store s' = store s ∧
            panel s' = notice ++ panel s
  end.
Proof.
  cbv zeta.
  destruct (writeRejected "geminiApiKey" _) as [e |] eqn:Hwrite.
  - unfold saveApiKey.
    destruct (JsString.truthy_opt apiKey) eqn:Hkey; cbn [negb].
    + unfold andThen, setAsync. rewrite Hwrite. by eexists.
    + assert (Hvalue : JsString.trim (default EmptyString apiKey) = EmptyString)
        by (by destruct apiKey as [[| c k] |]).
      rewrite Hvalue in *.
      unfold andThen, inWorld, notifyUI, postMessage, setAsync.
      cbn [world store panel ui logUI]. rewrite Hwrite, newMessages_cons.
      by eexists.
  - rewrite (saveApiKey_run _ _ _ Hwrite). by eexists.
Qed.

(** Saving and loading round-trip: after a key is saved, loading posts
    api-key-loaded with the key as it was stored, which is the saved key
    trimmed (the empty string after a key was cleared). *)
Theorem saveApiKey_then_loadApiKey host writeRejected apiKey s :
  let value := JsString.trim (default EmptyString apiKey) in
  writeRejected "geminiApiKey" value = None →
  rejects host (calls (world s)) (GetAsync "geminiApiKey") = None →
  ∃ s1 s2,
    saveApiKey writeRejected apiKey s = (Ok tt, s1) ∧
    loadApiKey host s1 = (Ok tt, s2) ∧
    panel s2 = ApiKeyLoaded value :: panel s1 ∧
    store s2 = store s1.
Proof.
  intros value Hwrite Hread. rewrite (saveApiKey_run _ _ _ Hwrite).
  eexists _, _. split; [reflexivity |].
  unfold loadApiKey, andThen, getAsync, inWorld, bind, hostCall, ret, answer.
  cbn [world store panel hostOf rejects storage].
  assert (Hcalls : calls (if JsString.truthy_opt apiKey then world s
                          else logUI (Status MSG_KEY_CLEARED "info" "idle") (world s))
                   = calls (world s))
    by (by destruct (JsString.truthy_opt apiKey)).
  rewrite Hcalls, Hread. cbn [world store panel ui logCall].
  unfold newMessages. rewrite Nat.sub_diag. cbn [take map app].
  rewrite lookup_insert_eq. by cbn [default].
Qed.

Lemma saveApiKey_then_loadApiKey_witness :
  ∃ s1 s2,
    saveApiKey writable (Some "  AIza-key ") initialSession = (Ok tt, s1) ∧
    loadApiKey quietHost s1 = (Ok tt, s2) ∧
    panel s2 = ApiKeyLoaded (JsString.trim (default EmptyString (Some "  AIza-key ")))
               :: panel s1 ∧
    store s2 = store s1.
Proof.
  apply (saveApiKey_then_loadApiKey quietHost writable (Some "  AIza-key ")
           initialSession); reflexivity.
Defined.

(** What the handler does with a request it has no case for.  A missing
    request, or one whose type is missing or empty, is ignored: nothing is
    posted and nothing changes.  A request of any other type than the three
    the handler knows gets one error notice, and nothing else changes. *)
Theorem onmessage_unknown_requests host writeRejected :
  (∀ s, onmessage host writeRejected None s = (Ok tt, s)) ∧
  (∀ message s,
     JsString.truthy_opt (m_type message) = false →
     onmessage host writeRejected (Some message) s = (Ok tt, s)) ∧
  (∀ message kind s,
     m_type message = Some kind →
     JsString.truthy kind = true →
     kind ∉ ["load-api-key"; "save-api-key"; "generate-design"] →
     ∃ s',
       onmessage host writeRejected (Some message) s = (Ok tt, s') ∧
       panel s' = Posted (Status MSG_UNKNOWN "error" "idle") :: panel s ∧
       store s' = store s ∧
       scene (world s') = scene (world s) ∧
       calls (world s') = calls (world s)).
Proof.
  split; [done |]. split.
  - intros message s Htype. unfold onmessage. by rewrite Htype.
  - intros message kind s Htype Htruthy Hkind. unfold onmessage.
    rewrite Htype. cbn [JsString.truthy_opt]. rewrite Htruthy. cbn [negb].
    rewrite !bool_decide_eq_false_2 by (intros [= ->]; set_solver).
    unfold inWorld, notifyUI, postMessage. cbn [ui logUI].
    rewrite newMessages_cons. by eexists.
Qed.

(** A saved key reaches the request: after the handler has served a request
    to save a key that is not empty once trimmed, a request to generate that
    brings no key of its own makes the handler read the client storage and
    then send the request to the endpoint with the saved key, trimmed. *)
Theorem saved_key_reaches_the_request
    host writeRejected save generate key s :
  m_type save = Some "save-api-key" →
  m_apiKey save = Some key →
  JsString.truthy (JsString.trim key) = true →
  writeRejected "geminiApiKey" (JsString.trim key) = None →
  m_type generate = Some "generate-design" →
  JsString.truthy_opt (JsString.trim <$> m_apiKey generate) = false →
  JsString.truthy (m_prompt generate) = true →
  rejects host (calls (world s)) (GetAsync "geminiApiKey") = None →
  ∃ s1 later,
    onmessage host writeRejected (Some save) s = (Ok tt, s1) ∧
    calls (world (snd (onmessage host writeRejected (Some generate) s1)))
    = later ++ requestOf (JsString.trim key) (paramsOf generate)
      :: GetAsync "geminiApiKey" :: calls (world s).
Proof.
  intros Hsave Hkey Htruthy Hwrite Hgen Hover Hprompt Hread.
  pose proof (trim_truthy _ Htruthy) as Hkey_truthy.
  unfold onmessage at 1. rewrite Hsave. cbn [JsString.truthy_opt JsString.truthy negb].
  rewrite bool_decide_eq_false_2 by discriminate.
  rewrite bool_decide_eq_true_2 by reflexivity.
  rewrite Hkey.
  assert (Hwrite' : writeRejected "geminiApiKey"
                      (JsString.trim (default EmptyString (Some key))) = None)
    by exact Hwrite.
  rewrite (saveApiKey_run _ _ _ Hwrite').
  cbn [JsString.truthy_opt default id]. rewrite Hkey_truthy.
  eexists _. cbn [app].
  destruct (stored_key_request
              (hostOf host (<["geminiApiKey" := JsString.trim key]> (store s)))
              (paramsOf generate) (world s) (JsString.trim key))
    as [later Hlater]; try done.
  { cbn [hostOf storage]. by rewrite lookup_insert_eq. }
  exists later. split; [reflexivity |].
  unfold onmessage. rewrite Hgen. cbn [JsString.truthy_opt JsString.truthy negb].
  rewrite !bool_decide_eq_false_2 by discriminate.
  rewrite bool_decide_eq_true_2 by reflexivity.
  unfold inWorld. cbn [world store panel].
  destruct (generateDesign _ _ (world s)) as [r w'] eqn:Hrun.
  cbn [snd world] in *. exact Hlater.
Qed.

Lemma saved_key_reaches_the_request_witness :
  ∃ s1 later,
    onmessage quietHost writable
      (Some (mkPanelRequest (Some "save-api-key") (Some " AIza-key ")
               EmptyString EmptyString JUndefined))
      initialSession = (Ok tt, s1) ∧
    calls (world (snd (onmessage quietHost writable
                         (Some (mkPanelRequest (Some "generate-design") None
                                  "landing page" "screen" (JNum 2))) s1)))
    = later ++ requestOf (JsString.trim " AIza-key ")
                 (paramsOf (mkPanelRequest (Some "generate-design") None
                              "landing page" "screen" (JNum 2)))
      :: GetAsync "geminiApiKey" :: calls (world initialSession).
Proof.
  apply (saved_key_reaches_the_request quietHost writable
           (mkPanelRequest (Some "save-api-key") (Some " AIza-key ")
              EmptyString EmptyString JUndefined)
           (mkPanelRequest (Some "generate-design") None
              "landing page" "screen" (JNum 2))
           " AIza-key " initialSession); reflexivity.
Defined.
